(** * The edit-action engine of the React app AI builder backend

    A shallow embedding of the three revisions of the Go backend
    ([package main]) that the repository carries, and the properties of
    its sanitizer, batch checks, path handling and applier.

    Go strings are byte sequences: [gostr] is [list ascii].  Go's [int]
    results ([strings.Index], [len]) are integers in [Z]. *)

From Stdlib Require Import Ascii String List Bool ZArith Lia.
From stdpp Require Import base option list gmap strings sorting.

Local Open Scope Z_scope.

Definition gostr := list ascii.

(** A literal of the source, as bytes. *)
Definition str (s : string) : gostr := list_ascii_of_string s.

(** * Go's [strings] package, on byte sequences *)

Module strings.

(** [strings.HasPrefix(s, prefix)]. *)
Fixpoint HasPrefix (s prefix : gostr) {struct prefix} : bool :=
  match prefix, s with
  | [], _ => true
  | _ :: _, [] => false
  | p :: prefix', c :: s' => bool_decide (c = p) && HasPrefix s' prefix'
  end.

(** [strings.HasSuffix(s, suffix)]. *)
Definition HasSuffix (s suffix : gostr) : bool :=
  HasPrefix (rev s) (rev suffix).

(** [strings.TrimPrefix(s, prefix)]: [s] without the leading [prefix],
    or [s] itself when it does not start with it. *)
Definition TrimPrefix (s prefix : gostr) : gostr :=
  if HasPrefix s prefix then drop (length prefix) s else s.

(** [strings.Contains(s, substr)]. *)
Fixpoint Contains (s substr : gostr) : bool :=
  HasPrefix s substr ||
  match s with
  | [] => false
  | _ :: s' => Contains s' substr
  end.

(** [strings.Index(s, substr)]: index of the first instance, or -1. *)
Fixpoint index_from (i : Z) (s substr : gostr) : Z :=
  if HasPrefix s substr then i
  else match s with
       | [] => -1
       | _ :: s' => index_from (i + 1) s' substr
       end.

Definition Index (s substr : gostr) : Z := index_from 0 s substr.

(** [strings.LastIndex(s, substr)]: index of the last instance, or -1. *)
Fixpoint last_index_from (i : Z) (s substr : gostr) : Z :=
  match s with
  | [] => if HasPrefix [] substr then i else -1
  | _ :: s' =>
      let r := last_index_from (i + 1) s' substr in
      if 0 <=? r then r
      else if HasPrefix s substr then i else -1
  end.

Definition LastIndex (s substr : gostr) : Z := last_index_from 0 s substr.

(** [strings.ReplaceAll(s, old, new)]: non-overlapping instances of [old]
    are replaced left to right.  [skip] counts the bytes of a matched
    [old] still to be passed over. *)
Fixpoint replace_go (skip : nat) (s old new : gostr) : gostr :=
  match s with
  | [] => []
  | c :: s' =>
      match skip with
      | S k => replace_go k s' old new
      | O =>
          if HasPrefix s old
          then new ++ replace_go (Nat.pred (length old)) s' old new
          else c :: replace_go 0 s' old new
      end
  end.

(** With an empty [old] Go matches before every UTF-8 sequence and at the
    end; on bytes this is the interleaving below (the backend never passes
    an empty [old]). *)
Definition ReplaceAll (s old new : gostr) : gostr :=
  match old with
  | [] => concat (map (fun c => new ++ [c]) s) ++ new
  | _ :: _ => replace_go 0 s old new
  end.

(** [strings.Split(s, sep)] for a one-byte separator. *)
Fixpoint Split (s : gostr) (sep : ascii) : list gostr :=
  match s with
  | [] => [[]]
  | c :: s' =>
      if bool_decide (c = sep) then [] :: Split s' sep
      else match Split s' sep with
           | seg :: rest => (c :: seg) :: rest
           | [] => [[c]]
           end
  end.

(** [strings.Join(elems, sep)]. *)
Fixpoint Join (elems : list gostr) (sep : gostr) : gostr :=
  match elems with
  | [] => []
  | [e] => e
  | e :: rest => e ++ sep ++ Join rest sep
  end.

(** [s[i:]] and [s[:j]] for indices within range. *)
Definition slice_from (s : gostr) (i : Z) : gostr := drop (Z.to_nat i) s.
Definition slice_to (s : gostr) (j : Z) : gostr := take (Z.to_nat j) s.

(** [len(s)]. *)
Definition len (s : gostr) : Z := Z.of_nat (length s).

End strings.

(** * Go's [path/filepath] package (Unix) *)

Module filepath.

Definition Separator : ascii := "/"%char.

Definition dot : gostr := Eval cbv in str ".".
Definition dotdot : gostr := Eval cbv in str "..".

(** The lexical processing of [Clean], element by element; [out] is the
    stack of elements kept so far, innermost first.  Empty and [.]
    elements are dropped, a [..] cancels the element before it, is dropped
    at the root of a rooted path and is kept at the head of a relative
    one. *)
Fixpoint clean_go (rooted : bool) (out : list gostr) (elems : list gostr)
  : list gostr :=
  match elems with
  | [] => rev out
  | e :: elems' =>
      if bool_decide (e = []) || bool_decide (e = dot)
      then clean_go rooted out elems'
      else if bool_decide (e = dotdot) then
        match out with
        | top :: out' =>
            if bool_decide (top = dotdot)
            then clean_go rooted (e :: out) elems'
            else clean_go rooted out' elems'
        | [] =>
            if rooted then clean_go rooted out elems'
            else clean_go rooted [e] elems'
        end
      else clean_go rooted (e :: out) elems'
  end.

(** A path in canonical form: whether it is rooted, and its elements. *)
Definition canon (path : gostr) : bool * list gostr :=
  let rooted := strings.HasPrefix path [Separator] in
  (rooted, clean_go rooted [] (strings.Split path Separator)).

Definition render (k : bool * list gostr) : gostr :=
  match k with
  | (true, elems) => Separator :: strings.Join elems [Separator]
  | (false, []) => dot
  | (false, elems) => strings.Join elems [Separator]
  end.

(** [filepath.Clean(path)]: the shortest equivalent path name, by purely
    lexical processing; [.] for the empty string. *)
Definition Clean (path : gostr) : gostr := render (canon path).

(** [filepath.Join(elem...)]: empty leading elements are ignored, the
    rest is joined with the separator and cleaned; all empty gives the
    empty string. *)
Fixpoint Join (elem : list gostr) : gostr :=
  match elem with
  | [] => []
  | e :: rest =>
      match e with
      | [] => Join rest
      | _ :: _ => Clean (strings.Join elem [Separator])
      end
  end.

(** [filepath.Dir(path)]: all but the last element of [path], cleaned. *)
Definition Dir (path : gostr) : gostr :=
  let i := strings.LastIndex path [Separator] in
  Clean (strings.slice_to path (i + 1)).

End filepath.

(** * The operating system: a file tree, and Go's [os] package over it *)

Module os.

Inductive node :=
| File (content : gostr)
| Directory.

(** A file or directory is addressed by its canonical path: rooted or
    relative to the working directory, and its elements.  Resolution is
    lexical ([filepath.canon]): the tree has no symbolic links. *)
Abbreviation key := (bool * list gostr)%type.

Inductive Errno := ENOENT | ENOTDIR | EISDIR | ENOTEMPTY | EEXIST | EBUSY.

(** [*fs.PathError]. *)
Record PathError := { Op : gostr; ErrPath : gostr; Err : Errno }.

(** Go's [error]: [None] is [nil]. *)
Abbreviation error := (option PathError).

(** The system calls the backend issues, as the tree sees them. *)
Inductive call :=
| CallMkdirAll (path : gostr)
| CallWriteFile (path : gostr) (data : gostr)
| CallRemove (path : gostr).

(** Arguments of a formatted output line; [ArgTitle s] stands for
    [strings.Title(s)]. *)
Inductive arg :=
| ArgStr (s : gostr)
| ArgInt (n : Z)
| ArgTitle (s : gostr).

(** A line written by [log.Printf]/[log.Println] or by [fmt.Printf]/
    [fmt.Println]: the format, spelled as in the source text, and its
    arguments. *)
Inductive line :=
| Log (format : string) (args : list arg)
| Stdout (format : string) (args : list arg).

Record world := {
  files : gmap key node;
  calls : list call;
  output : list line
}.

(** The working directory, the root and the chains of [..] above the
    working directory exist and are directories. *)
Definition implicit (k : key) : bool :=
  forallb (fun e => bool_decide (e = filepath.dotdot)) k.2.

Definition node_at (fs : gmap key node) (k : key) : option node :=
  if implicit k then Some Directory else fs !! k.

(** Path walk: every element before the last must be a directory. *)
Fixpoint walk (fs : gmap key node) (rooted : bool) (cur rest : list gostr)
  : Errno + node :=
  match rest with
  | [] =>
      match node_at fs (rooted, cur) with
      | Some n => inr n
      | None => inl ENOENT
      end
  | e :: rest' =>
      match node_at fs (rooted, cur) with
      | Some Directory => walk fs rooted (cur ++ [e]) rest'
      | Some (File _) => inl ENOTDIR
      | None => inl ENOENT
      end
  end.

(** [lstat(2)]. *)
Definition lstat (fs : gmap key node) (k : key) : Errno + node :=
  walk fs k.1 [] k.2.

Definition parent (k : key) : key := (k.1, removelast k.2).

(** [mkdir(2)]. *)
Definition mkdir (fs : gmap key node) (k : key) : gmap key node * option Errno :=
  match lstat fs (parent k) with
  | inl e => (fs, Some e)
  | inr (File _) => (fs, Some ENOTDIR)
  | inr Directory =>
      match lstat fs k with
      | inr _ => (fs, Some EEXIST)
      | inl _ => (<[k := Directory]> fs, None)
      end
  end.

(** The recursion of [os.MkdirAll] on the path whose elements, innermost
    first, are [rp]: nothing to do for a directory, [ENOTDIR] for a file,
    otherwise the parent first and then [mkdir]; a failed [mkdir] is
    forgiven when the directory is there after all. *)
Fixpoint mkdir_all (rooted : bool) (rp : list gostr) (fs : gmap key node)
  : gmap key node * option Errno :=
  match rp with
  | [] => (fs, None)
  | _ :: rp' =>
      let k := (rooted, rev rp) in
      match lstat fs k with
      | inr Directory => (fs, None)
      | inr (File _) => (fs, Some ENOTDIR)
      | inl _ =>
          match mkdir_all rooted rp' fs with
          | (fs', Some e) => (fs', Some e)
          | (fs', None) =>
              match mkdir fs' k with
              | (fs'', None) => (fs'', None)
              | (fs'', Some e) =>
                  match lstat fs'' k with
                  | inr Directory => (fs'', None)
                  | _ => (fs'', Some e)
                  end
              end
          end
      end
  end.

(** [open(2)] with [O_WRONLY|O_CREATE|O_TRUNC], then the write. *)
Definition write_file (fs : gmap key node) (k : key) (data : gostr)
  : gmap key node * option Errno :=
  match lstat fs k with
  | inr Directory => (fs, Some EISDIR)
  | inr (File _) => (<[k := File data]> fs, None)
  | inl _ =>
      match lstat fs (parent k) with
      | inr Directory => (<[k := File data]> fs, None)
      | inr (File _) => (fs, Some ENOTDIR)
      | inl e => (fs, Some e)
      end
  end.

(** Whether the tree has an entry strictly below [k]. *)
Definition has_entry_below (fs : gmap key node) (k : key) : bool :=
  existsb
    (fun kn : key * node =>
       bool_decide (kn.1.1 = k.1) &&
       bool_decide (k.2 `prefix_of` kn.1.2) &&
       negb (bool_decide (kn.1.2 = k.2)))
    (map_to_list fs).

(** [unlink(2)], then [rmdir(2)] for a directory. *)
Definition remove (fs : gmap key node) (k : key)
  : gmap key node * option Errno :=
  match lstat fs k with
  | inl e => (fs, Some e)
  | inr (File _) => (delete k fs, None)
  | inr Directory =>
      if implicit k then (fs, Some EBUSY)
      else if has_entry_below fs k then (fs, Some ENOTEMPTY)
      else (delete k fs, None)
  end.

Definition path_error (op : string) (path : gostr) (e : option Errno) : error :=
  match e with
  | None => None
  | Some errno => Some {| Op := str op; ErrPath := path; Err := errno |}
  end.

Definition record (c : call) (fs_e : gmap key node * error) (w : world)
  : world * error :=
  ({| files := fs_e.1; calls := calls w ++ [c]; output := output w |}, fs_e.2).

(** [os.MkdirAll(path, perm)]. *)
Definition MkdirAll (path : gostr) (w : world) : world * error :=
  let k := filepath.canon path in
  let r := mkdir_all k.1 (rev k.2) (files w) in
  record (CallMkdirAll path) (r.1, path_error "mkdir" path r.2) w.

(** [ioutil.WriteFile(filename, data, perm)]. *)
Definition WriteFile (filename data : gostr) (w : world) : world * error :=
  let r := write_file (files w) (filepath.canon filename) data in
  record (CallWriteFile filename data) (r.1, path_error "open" filename r.2) w.

(** [os.Remove(name)]. *)
Definition Remove (name : gostr) (w : world) : world * error :=
  let r := remove (files w) (filepath.canon name) in
  record (CallRemove name) (r.1, path_error "remove" name r.2) w.

(** [os.IsNotExist(err)]: true for [ENOENT] only. *)
Definition IsNotExist (err : error) : bool :=
  match err with
  | Some {| Err := ENOENT |} => true
  | _ => false
  end.

(** [log.Printf] and [fmt.Printf]. *)
Definition Printf (l : line) (w : world) : world :=
  {| files := files w; calls := calls w; output := output w ++ [l] |}.

End os.

(** * Go functions that return an [error] *)

(** The errors that travel through the backend. *)
Inductive goerror :=
| PathErr (e : os.PathError)
| Errorf (format : string)
| External (what : string).

(** A function body runs on the world and either falls through with a
    value or returns an error early. *)
Definition go (A : Type) : Type := os.world -> os.world * (goerror + A).

Definition ret {A} (a : A) : go A := fun w => (w, inr a).

Definition fail {A} (e : goerror) : go A := fun w => (w, inl e).

Definition bind {A B} (m : go A) (f : A -> go B) : go B :=
  fun w =>
    match m w with
    | (w', inl e) => (w', inl e)
    | (w', inr a) => f a w'
    end.

#[global] Instance go_ret : MRet go := @ret.
#[global] Instance go_bind : MBind go := fun A B f m => bind m f.

(** [if err := call; err != nil { return err }]. *)
Definition try (c : os.world -> os.world * os.error) : go unit :=
  fun w =>
    match c w with
    | (w', Some e) => (w', inl (PathErr e))
    | (w', None) => (w', inr tt)
    end.

(** [if err := call; err != nil && !os.IsNotExist(err) { return err }]. *)
Definition try_unless_not_exist (c : os.world -> os.world * os.error) : go unit :=
  fun w =>
    match c w with
    | (w', Some e) =>
        if negb (os.IsNotExist (Some e)) then (w', inl (PathErr e))
        else (w', inr tt)
    | (w', None) => (w', inr tt)
    end.

Definition logf (format : string) (args : list os.arg) : go unit :=
  fun w => (os.Printf (os.Log format args) w, inr tt).

Definition printf (format : string) (args : list os.arg) : go unit :=
  fun w => (os.Printf (os.Stdout format args) w, inr tt).

(** [for _, x := range xs { body }], where the body may return early. *)
Fixpoint for_range {A} (xs : list A) (body : A -> go unit) : go unit :=
  match xs with
  | [] => ret tt
  | x :: rest => body x ;; for_range rest body
  end.

(** * Data shared by the three revisions *)

(** One element of [AIEditActions.Actions]. *)
Record Action := {
  Type' : gostr;
  Path : gostr;
  Content : gostr
}.

Record AIEditActions := { Actions : list Action }.

Record EditRequest := {
  Instructions : gostr;
  Provider : gostr;
  Model : gostr
}.

Definition projectRoot : gostr := Eval cbv in str "../frontend/src".

(** [s == "lit"]. *)
Definition streq (s : gostr) (lit : string) : bool := bool_decide (s = str lit).

(** The double quote, which a literal cannot hold. *)
Definition dquote : ascii := "034"%char.

(** A Go literal that begins with an escaped backslash: [esc "n"] is the
    two bytes of ["\\n"]. *)
Definition backslash : ascii := "092"%char.
Definition esc (s : string) : gostr := backslash :: str s.

(** What reaches [handleEdit] from outside the engine: the HTTP method,
    the decoded request body, the project context gathered from disk, and
    the text the completion provider's HTTP exchange delivers.  Each but
    the method may be an error instead. *)
Record Exchange := {
  Method : gostr;
  Body : goerror + EditRequest;
  contextJSON : goerror + gostr;
  completion : goerror + gostr
}.

Inductive message :=
| Text (s : string)
| ErrorText (e : goerror).

(** What [handleEdit] writes to the [http.ResponseWriter]: [http.Error]
    with a message and a status code, or the JSON object with its
    ["status"] and, in the later revisions, ["applied"]. *)
Inductive response :=
| HttpError (msg : message) (code : Z)
| HttpJSON (status : string) (applied : option Z).

Definition StatusMethodNotAllowed : Z := 405.
Definition StatusBadRequest : Z := 400.
Definition StatusInternalServerError : Z := 500.

(** * src/unnamed/part_001: the backend with [cleanAIResponse] and the
      path checks *)

Module Part001.

(** [cleanAIResponse(response)]. *)
Definition cleanAIResponse (response : gostr) : gostr :=
  let startIndex := strings.Index response (str "{") in
  let response :=
    if 0 <? startIndex then strings.slice_from response startIndex
    else response in
  let lastIndex := strings.LastIndex response (str "}") in
  let response :=
    if (0 <? lastIndex) && (lastIndex <? strings.len response - 1)
    then strings.slice_to response (lastIndex + 1)
    else response in
  let response := strings.ReplaceAll response (esc "u003c") (str "<") in
  let response := strings.ReplaceAll response (esc "u003e") (str ">") in
  let response := strings.ReplaceAll response (esc "u0026") (str "&") in
  let response := strings.ReplaceAll response (esc "u0027") (str "'") in
  let response := strings.ReplaceAll response (esc "u0022") [dquote] in
  let response := strings.ReplaceAll response (esc "un") (esc "n") in
  let response := strings.ReplaceAll response (str ");n}") (str ");}") in
  let response := strings.ReplaceAll response (esc "n}") (str "}") in
  response.

(** [callOpenRouter] and [callOllama], from the point where the HTTP
    exchange has delivered the content or failed. *)
Definition callOpenRouter (exchange : goerror + gostr) : goerror + gostr :=
  match exchange with
  | inl e => inl e
  | inr content => inr (cleanAIResponse content)
  end.

Definition callOllama (exchange : goerror + gostr) : goerror + gostr :=
  match exchange with
  | inl e => inl e
  | inr content => inr (cleanAIResponse content)
  end.

Section Backend.

(** [normalizePath] is called by [applyEdits]; its definition is not in
    this file. *)
Variable normalizePath : gostr -> gostr.

(** [json.Unmarshal] into [AIEditActions]; [None] is a decoding error. *)
Variable json_Unmarshal : gostr -> option AIEditActions.

(** The path an action is applied at, once past the checks. *)
Definition fullPath_of (normalizedPath : gostr) : gostr :=
  filepath.Join [projectRoot; strings.TrimPrefix normalizedPath (str "src/")].

(** The body of the loop of [applyEdits]; falling through is [continue]. *)
Definition applyEdits_body (act : Action) : go unit :=
  let normalizedPath := normalizePath (Path act) in
  (if bool_decide (normalizedPath <> Path act)
   then logf "Normalized path: %s -> %s"
          [os.ArgStr (Path act); os.ArgStr normalizedPath]
   else ret tt) ;;
  if strings.Contains normalizedPath (str "SidePanel") then
    logf "Skipping SidePanel modification: %s" [os.ArgStr normalizedPath]
  else if strings.Contains normalizedPath (str "..")
          || strings.HasPrefix normalizedPath (str "/") then
    logf "Skipping potentially dangerous path: %s" [os.ArgStr normalizedPath]
  else
    let fullPath := fullPath_of normalizedPath in
    if streq (Type' act) "create" || streq (Type' act) "update" then
      try (os.MkdirAll (filepath.Dir fullPath)) ;;
      try (os.WriteFile fullPath (Content act)) ;;
      logf "%s file: %s (normalized from: %s)"
        [os.ArgTitle (Type' act); os.ArgStr fullPath; os.ArgStr (Path act)]
    else if streq (Type' act) "delete" then
      try_unless_not_exist (os.Remove fullPath) ;;
      logf "Deleted file: %s (normalized from: %s)"
        [os.ArgStr fullPath; os.ArgStr (Path act)]
    else
      logf "Unknown action type: %s" [os.ArgStr (Type' act)].

(** [applyEdits(edits)]. *)
Definition applyEdits (edits : AIEditActions) : go unit :=
  logf "Applying %d edit actions" [os.ArgInt (Z.of_nat (length (Actions edits)))] ;;
  for_range (Actions edits) applyEdits_body ;;
  ret tt.

(** [handleEdit(w, r)]. *)
Definition handleEdit (r : Exchange) (w : os.world) : os.world * response :=
  if negb (streq (Method r) "POST") then
    (w, HttpError (Text "Only POST allowed") StatusMethodNotAllowed)
  else
    match Body r with
    | inl err => (w, HttpError (ErrorText err) StatusBadRequest)
    | inr req =>
        match contextJSON r with
        | inl err => (w, HttpError (ErrorText err) StatusInternalServerError)
        | inr _ =>
            let called :=
              if streq (Provider req) "openrouter"
              then Some (callOpenRouter (completion r))
              else if streq (Provider req) "ollama"
              then Some (callOllama (completion r))
              else None in
            match called with
            | None =>
                (w, HttpError (Text "Invalid provider. Use 'openrouter' or 'ollama'")
                      StatusBadRequest)
            | Some (inl parseErr) =>
                (w, HttpError (ErrorText parseErr) StatusInternalServerError)
            | Some (inr aiResponse) =>
                let cleanedResponse := cleanAIResponse aiResponse in
                match json_Unmarshal cleanedResponse with
                | None =>
                    let w1 := os.Printf (os.Log "Failed to parse AI response as JSON: %v" []) w in
                    let w2 := os.Printf (os.Log "Original response: %s" [os.ArgStr aiResponse]) w1 in
                    let w3 := os.Printf (os.Log "Cleaned response: %s" [os.ArgStr cleanedResponse]) w2 in
                    (w3, HttpError (Text "Failed to parse AI response as JSON: %v\nOriginal Response: %s")
                           StatusInternalServerError)
                | Some edits =>
                    match applyEdits edits w with
                    | (w', inl err) =>
                        (w', HttpError (ErrorText err) StatusInternalServerError)
                    | (w', inr _) =>
                        (w', HttpJSON "success"
                               (Some (Z.of_nat (length (Actions edits)))))
                    end
                end
            end
        end
    end.

End Backend.

End Part001.

(** * src/backend/main.go, first program: the two-provider backend *)

Module MainGo.

Definition callOpenRouter (exchange : goerror + gostr) : goerror + gostr :=
  exchange.

Definition callOllama (exchange : goerror + gostr) : goerror + gostr :=
  exchange.

Section Backend.

Variable json_Unmarshal : gostr -> option AIEditActions.

Definition applyEdits_body (act : Action) : go unit :=
  if strings.Contains (Path act) (str "SidePanel") then
    logf "Skipping SidePanel modification: %s" [os.ArgStr (Path act)]
  else
    let fullPath := filepath.Join [projectRoot; Path act] in
    if streq (Type' act) "create" || streq (Type' act) "update" then
      try (os.MkdirAll (filepath.Dir fullPath)) ;;
      try (os.WriteFile fullPath (Content act)) ;;
      logf "%s file: %s" [os.ArgTitle (Type' act); os.ArgStr fullPath]
    else if streq (Type' act) "delete" then
      try_unless_not_exist (os.Remove fullPath) ;;
      logf "Deleted file: %s" [os.ArgStr fullPath]
    else
      logf "Unknown action type: %s" [os.ArgStr (Type' act)].

Definition applyEdits (edits : AIEditActions) : go unit :=
  logf "Applying %d edit actions" [os.ArgInt (Z.of_nat (length (Actions edits)))] ;;
  for_range (Actions edits) applyEdits_body ;;
  ret tt.

Definition handleEdit (r : Exchange) (w : os.world) : os.world * response :=
  if negb (streq (Method r) "POST") then
    (w, HttpError (Text "Only POST allowed") StatusMethodNotAllowed)
  else
    match Body r with
    | inl err => (w, HttpError (ErrorText err) StatusBadRequest)
    | inr req =>
        match contextJSON r with
        | inl err => (w, HttpError (ErrorText err) StatusInternalServerError)
        | inr _ =>
            let called :=
              if streq (Provider req) "openrouter"
              then Some (callOpenRouter (completion r))
              else if streq (Provider req) "ollama"
              then Some (callOllama (completion r))
              else None in
            match called with
            | None =>
                (w, HttpError (Text "Invalid provider. Use 'openrouter' or 'ollama'")
                      StatusBadRequest)
            | Some (inl parseErr) =>
                (w, HttpError (ErrorText parseErr) StatusInternalServerError)
            | Some (inr aiResponse) =>
                match json_Unmarshal aiResponse with
                | None =>
                    (w, HttpError (Text "Failed to parse AI response as JSON: %v\nResponse: %s")
                          StatusInternalServerError)
                | Some edits =>
                    match applyEdits edits w with
                    | (w', inl err) =>
                        (w', HttpError (ErrorText err) StatusInternalServerError)
                    | (w', inr _) =>
                        (w', HttpJSON "success"
                               (Some (Z.of_nat (length (Actions edits)))))
                    end
                end
            end
        end
    end.

End Backend.

End MainGo.

(** * src/backend/main.go, second program: the single-provider prototype *)

Module MainGoPrototype.

Section Backend.

Variable json_Unmarshal : gostr -> option AIEditActions.

(** The listing of one suggested action on standard output. *)
Definition print_action (act : Action) : go unit :=
  printf "- %s: %s\n" [os.ArgStr (Type' act); os.ArgStr (Path act)] ;;
  (if streq (Type' act) "create" || streq (Type' act) "update"
   then printf "  Content length: %d\n" [os.ArgInt (strings.len (Content act))]
   else ret tt) ;;
  (if streq (Type' act) "delete"
   then printf "  Will delete file: %s\n" [os.ArgStr (Path act)]
   else ret tt).

(** [callOllama(prompt)], from the point where the HTTP exchange has
    delivered the message content or failed. *)
Definition callOllama (exchange : goerror + gostr) : go AIEditActions :=
  match exchange with
  | inl e => fail e
  | inr content =>
      match json_Unmarshal content with
      | None => fail (Errorf "failed to parse AI edits: %w")
      | Some edits =>
          let n := Z.of_nat (length (Actions edits)) in
          logf "AI suggested %d actions:\n" [os.ArgInt n] ;;
          printf "AI suggested %d actions:\n" [os.ArgInt n] ;;
          for_range (Actions edits) print_action ;;
          if n =? 0 then
            logf "AI returned no actions, nothing to apply." [] ;;
            fail (Errorf "no actions returned by AI")
          else
            edits ←
              (if 100 <? n then
                 logf "AI returned too many actions, limiting to 100" [] ;;
                 let edits := {| Actions := take 100 (Actions edits) |} in
                 printf "Limited actions to 100 due to API constraints." [] ;;
                 ret edits
               else if 50 <? n then
                 logf "AI returned a large number of actions, consider reviewing them carefully" [] ;;
                 printf "AI returned a large number of actions, consider reviewing them carefully" [] ;;
                 ret edits
               else ret edits) ;
            if Z.of_nat (length (Actions edits)) =? 0 then
              logf "AI returned no actions, nothing to apply." [] ;;
              fail (Errorf "no actions returned by AI")
            else ret edits
      end
  end.

Definition applyEdits_body (act : Action) : go unit :=
  let fullPath := filepath.Join [projectRoot; str ".."; Path act] in
  if streq (Type' act) "create" || streq (Type' act) "update" then
    try (os.MkdirAll (filepath.Dir fullPath)) ;;
    try (os.WriteFile fullPath (Content act)) ;;
    logf "%s file: %s\n" [os.ArgTitle (Type' act); os.ArgStr fullPath]
  else if streq (Type' act) "delete" then
    try_unless_not_exist (os.Remove fullPath) ;;
    logf "Deleted file: %s\n" [os.ArgStr fullPath]
  else
    logf "Unknown action type: %s\n" [os.ArgStr (Type' act)].

Definition applyEdits (edits : AIEditActions) : go unit :=
  for_range (Actions edits) applyEdits_body ;;
  ret tt.

(** This revision's request body holds the instructions only. *)
Definition handleEdit (r : Exchange) (w : os.world) : os.world * response :=
  if negb (streq (Method r) "POST") then
    (w, HttpError (Text "Only POST allowed") StatusMethodNotAllowed)
  else
    match Body r with
    | inl err => (w, HttpError (ErrorText err) StatusBadRequest)
    | inr _ =>
        match contextJSON r with
        | inl err => (w, HttpError (ErrorText err) StatusInternalServerError)
        | inr _ =>
            match callOllama (completion r) w with
            | (w1, inl err) =>
                (w1, HttpError (ErrorText err) StatusInternalServerError)
            | (w1, inr ollamaResp) =>
                match applyEdits ollamaResp w1 with
                | (w2, inl err) =>
                    (w2, HttpError (ErrorText err) StatusInternalServerError)
                | (w2, inr _) => (w2, HttpJSON "success" None)
                end
            end
        end
    end.

End Backend.

End MainGoPrototype.

(** * Notions used in the statements *)

(** An element that [Clean] does not drop. *)
Definition kept (e : gostr) : bool :=
  negb (bool_decide (e = []) || bool_decide (e = filepath.dot)).

(** An element that [Clean] keeps where it is. *)
Definition plain (e : gostr) : Prop :=
  e <> [] /\ e <> filepath.dot /\ e <> filepath.dotdot /\ filepath.Separator ∉ e.

(** Canonical form: the [..] elements lead, and only in a relative path. *)
Definition canonical (k : os.key) : Prop :=
  exists n rest, k.2 = replicate n filepath.dotdot ++ rest /\
                 Forall plain rest /\ (k.1 = true -> n = 0%nat).

Definition root_elems : list gostr :=
  Eval cbv in (filepath.canon projectRoot).2.

(** [k] is [t] or one of the directories on the way to it. *)
Definition above (k t : os.key) : Prop := k.1 = t.1 /\ k.2 `prefix_of` t.2.

(** The two revisions whose [applyEdits] checks paths. *)
Inductive revision :=
| MainGoRev
| Part001Rev (normalizePath : gostr -> gostr).

Definition body_of (rev : revision) : Action -> go unit :=
  match rev with
  | MainGoRev => MainGo.applyEdits_body
  | Part001Rev normalizePath => Part001.applyEdits_body normalizePath
  end.

Definition applyEdits_of (rev : revision) : AIEditActions -> go unit :=
  match rev with
  | MainGoRev => MainGo.applyEdits
  | Part001Rev normalizePath => Part001.applyEdits normalizePath
  end.

(** The path the checks of a revision look at. *)
Definition checked_path (rev : revision) (act : Action) : gostr :=
  match rev with
  | MainGoRev => Path act
  | Part001Rev normalizePath => normalizePath (Path act)
  end.

Definition marker : gostr := Eval cbv in str "SidePanel".

Definition is_protected (rev : revision) (act : Action) : bool :=
  strings.Contains (checked_path rev act) marker.

Definition is_dangerous (rev : revision) (act : Action) : bool :=
  match rev with
  | MainGoRev => false
  | Part001Rev _ =>
      strings.Contains (checked_path rev act) filepath.dotdot
      || strings.HasPrefix (checked_path rev act) [filepath.Separator]
  end.

Definition known_type (ty : gostr) : bool :=
  streq ty "create" || streq ty "update" || streq ty "delete".

(** The path relative to the project root, and the full path. *)
Definition relative_path (rev : revision) (act : Action) : gostr :=
  match rev with
  | MainGoRev => Path act
  | Part001Rev _ => strings.TrimPrefix (checked_path rev act) (str "src/")
  end.

Definition fullPath_in (rev : revision) (act : Action) : gostr :=
  filepath.Join [projectRoot; relative_path rev act].

Definition with_output (w : os.world) (out : list os.line) : os.world :=
  {| os.files := os.files w; os.calls := os.calls w; os.output := out |}.

(** What the [switch] on the action type does at a full path: the new
    tree, the calls made and the error returned. *)
Definition perform (ty content fullPath : gostr) (fs : gmap os.key os.node)
  : gmap os.key os.node * list os.call * os.error :=
  if streq ty "create" || streq ty "update" then
    let d := filepath.Dir fullPath in
    let kd := filepath.canon d in
    let r1 := os.mkdir_all kd.1 (rev kd.2) fs in
    match os.path_error "mkdir" d r1.2 with
    | Some e => (r1.1, [os.CallMkdirAll d], Some e)
    | None =>
        let r2 := os.write_file r1.1 (filepath.canon fullPath) content in
        (r2.1, [os.CallMkdirAll d; os.CallWriteFile fullPath content],
         os.path_error "open" fullPath r2.2)
    end
  else if streq ty "delete" then
    let r := os.remove fs (filepath.canon fullPath) in
    let e := os.path_error "remove" fullPath r.2 in
    (r.1, [os.CallRemove fullPath], if os.IsNotExist e then None else e)
  else (fs, [], None).

Definition result_of (e : os.error) : goerror + unit :=
  match e with
  | Some pe => inl (PathErr pe)
  | None => inr tt
  end.

(** A path of the tree one of whose elements carries the protected
    marker, as [components/SidePanel.tsx] under the root does. *)
Definition protected_key (k : os.key) : Prop :=
  exists e, e ∈ k.2 /\ strings.Contains e marker = true.

(** Whether the loop passes over an action without touching the tree. *)
Definition passed_over (rev : revision) (act : Action) : bool :=
  is_protected rev act || is_dangerous rev act || negb (known_type (Type' act)).

(** The project root and what lies below it. *)
Definition within_root (k : os.key) : Prop :=
  k.1 = false /\ root_elems `prefix_of` k.2.

(** The line that reports a deletion. *)
Definition deleted_line (rev : revision) (act : Action) : os.line :=
  match rev with
  | MainGoRev => os.Log "Deleted file: %s" [os.ArgStr (fullPath_in rev act)]
  | Part001Rev _ =>
      os.Log "Deleted file: %s (normalized from: %s)"
        [os.ArgStr (fullPath_in rev act); os.ArgStr (Path act)]
  end.

(** * JSON texts (RFC 8259), as [json.Valid] of Go's [encoding/json]
      accepts them *)

Module json.

Definition byte_is (c : ascii) (lit : string) : bool :=
  match lit with
  | String l EmptyString => Ascii.eqb c l
  | _ => false
  end.

Definition is_ws (c : ascii) : bool :=
  Ascii.eqb c " " || Ascii.eqb c "009" || Ascii.eqb c "010" || Ascii.eqb c "013".

Definition is_digit (c : ascii) : bool :=
  (48 <=? nat_of_ascii c)%nat && (nat_of_ascii c <=? 57)%nat.

Definition is_hex (c : ascii) : bool :=
  is_digit c
  || ((97 <=? nat_of_ascii c)%nat && (nat_of_ascii c <=? 102)%nat)
  || ((65 <=? nat_of_ascii c)%nat && (nat_of_ascii c <=? 70)%nat).

Definition is_simple_escape (c : ascii) : bool :=
  Ascii.eqb c dquote || Ascii.eqb c backslash || byte_is c "/" || byte_is c "b"
  || byte_is c "f" || byte_is c "n" || byte_is c "r" || byte_is c "t".

Fixpoint skip_ws (s : gostr) : gostr :=
  match s with
  | c :: s' => if is_ws c then skip_ws s' else s
  | [] => []
  end.

(** The rest of the input after a string whose opening quote is read. *)
Fixpoint scan_string (s : gostr) : option gostr :=
  match s with
  | [] => None
  | c :: s' =>
      if Ascii.eqb c dquote then Some s'
      else if Ascii.eqb c backslash then
        match s' with
        | e :: s'' =>
            if is_simple_escape e then scan_string s''
            else if byte_is e "u" then
              match s'' with
              | h1 :: h2 :: h3 :: h4 :: s5 =>
                  if is_hex h1 && is_hex h2 && is_hex h3 && is_hex h4
                  then scan_string s5 else None
              | _ => None
              end
            else None
        | [] => None
        end
      else if (nat_of_ascii c <? 32)%nat then None
      else scan_string s'
  end.

Fixpoint skip_digits (s : gostr) : gostr :=
  match s with
  | c :: s' => if is_digit c then skip_digits s' else s
  | [] => []
  end.

Definition scan_digits (s : gostr) : option gostr :=
  match s with
  | c :: s' => if is_digit c then Some (skip_digits s') else None
  | [] => None
  end.

Definition scan_exponent (s : gostr) : option gostr :=
  match s with
  | c :: s' =>
      if byte_is c "e" || byte_is c "E" then
        match s' with
        | sign :: s'' =>
            if byte_is sign "+" || byte_is sign "-" then scan_digits s''
            else scan_digits s'
        | [] => None
        end
      else Some s
  | [] => Some s
  end.

Definition scan_fraction (s : gostr) : option gostr :=
  match s with
  | c :: s' =>
      if byte_is c "." then
        match scan_digits s' with
        | Some r => scan_exponent r
        | None => None
        end
      else scan_exponent s
  | [] => Some s
  end.

Definition scan_number (s : gostr) : option gostr :=
  let s :=
    match s with
    | c :: s' => if byte_is c "-" then s' else s
    | [] => s
    end in
  match s with
  | c :: s' =>
      if byte_is c "0" then scan_fraction s'
      else if is_digit c then scan_fraction (skip_digits s')
      else None
  | [] => None
  end.

Definition scan_literal (lit : string) (s : gostr) : option gostr :=
  if strings.HasPrefix s (str lit) then Some (drop (length (str lit)) s) else None.

(** A value, the members of an object after its brace, the elements of
    an array after its bracket; every step consumes input, so fuel
    beyond the length of the text is never used up. *)
Fixpoint scan_value (fuel : nat) (s : gostr) : option gostr :=
  match fuel with
  | O => None
  | S fuel' =>
      match skip_ws s with
      | [] => None
      | c :: r =>
          if byte_is c "{" then
            match skip_ws r with
            | c' :: r' =>
                if byte_is c' "}" then Some r' else scan_members fuel' (c' :: r')
            | [] => None
            end
          else if byte_is c "[" then
            match skip_ws r with
            | c' :: r' =>
                if byte_is c' "]" then Some r' else scan_elements fuel' (c' :: r')
            | [] => None
            end
          else if Ascii.eqb c dquote then scan_string r
          else if byte_is c "t" then scan_literal "true" (c :: r)
          else if byte_is c "f" then scan_literal "false" (c :: r)
          else if byte_is c "n" then scan_literal "null" (c :: r)
          else scan_number (c :: r)
      end
  end
with scan_members (fuel : nat) (s : gostr) : option gostr :=
  match fuel with
  | O => None
  | S fuel' =>
      match skip_ws s with
      | q :: r =>
          if Ascii.eqb q dquote then
            match scan_string r with
            | Some r1 =>
                match skip_ws r1 with
                | colon :: r2 =>
                    if byte_is colon ":" then
                      match scan_value fuel' r2 with
                      | Some r3 =>
                          match skip_ws r3 with
                          | c :: r4 =>
                              if byte_is c "," then scan_members fuel' r4
                              else if byte_is c "}" then Some r4
                              else None
                          | [] => None
                          end
                      | None => None
                      end
                    else None
                | [] => None
                end
            | None => None
            end
          else None
      | [] => None
      end
  end
with scan_elements (fuel : nat) (s : gostr) : option gostr :=
  match fuel with
  | O => None
  | S fuel' =>
      match scan_value fuel' s with
      | Some r =>
          match skip_ws r with
          | c :: r' =>
              if byte_is c "," then scan_elements fuel' r'
              else if byte_is c "]" then Some r'
              else None
          | [] => None
          end
      | None => None
      end
  end.

(** [json.Valid(data)]. *)
Definition Valid (data : gostr) : bool :=
  match scan_value (S (length data)) data with
  | Some r => bool_decide (skip_ws r = [])
  | None => false
  end.

End json.

(** A literal in which the apostrophe stands for the double quote. *)
Definition quoted (s : string) : gostr :=
  map (fun c => if Ascii.eqb c "'" then dquote else c) (str s).

(** The sequences [cleanAIResponse] rewrites. *)
Definition fixups : list gostr :=
  [esc "u003c"; esc "u003e"; esc "u0026"; esc "u0027"; esc "u0022";
   esc "un"; str ");n}"; esc "n}"].

(** A decoder that knows one document: enough to run a handler on a
    concrete exchange. *)
Definition decoder_for (doc : gostr) (edits : AIEditActions)
  : gostr -> option AIEditActions :=
  fun data => if bool_decide (data = doc) then Some edits else None.

(** An exchange that reaches the provider and gets [content] back. *)
Definition exchange_with (provider : string) (content : gostr) : Exchange :=
  {| Method := str "POST";
     Body := inr {| Instructions := str "add a counter";
                    Provider := str provider;
                    Model := str "llama3.2" |};
     contextJSON := inr (str "[]");
     completion := inr content |}.

Definition empty_world : os.world :=
  {| os.files := ∅; os.calls := []; os.output := [] |}.

Definition action (ty path content : string) : Action :=
  {| Type' := str ty; Path := str path; Content := str content |}.

(** The batch [callOllama] of the prototype hands on. *)
Definition capped (edits : AIEditActions) : AIEditActions :=
  if 100 <? Z.of_nat (length (Actions edits))
  then {| Actions := take 100 (Actions edits) |}
  else edits.

(** The request is a well-formed POST, the context was gathered and the
    provider's exchange delivered [content]. *)
Definition arrives (r : Exchange) (content : gostr) : Prop :=
  Method r = str "POST" /\
  (exists req, Body r = inr req) /\
  (exists ctx, contextJSON r = inr ctx) /\
  completion r = inr content.

(** The same, with one of the two providers named in the request. *)
Definition delivers (r : Exchange) (content : gostr) : Prop :=
  arrives r content /\
  forall req, Body r = inr req ->
    Provider req = str "openrouter" \/ Provider req = str "ollama".

(** What one turn of the loop does to the tree: nothing for a path the
    checks stop, the [switch] otherwise. *)
Definition outcome (rev : revision) (act : Action) (fs : gmap os.key os.node)
  : gmap os.key os.node * list os.call * os.error :=
  if is_protected rev act || is_dangerous rev act then (fs, [], None)
  else perform (Type' act) (Content act) (fullPath_in rev act) fs.

Definition world_of (fs : gmap os.key os.node) (cs : list os.call)
    (out : list os.line) : os.world :=
  {| os.files := fs; os.calls := cs; os.output := out |}.

Definition side_panel_key : os.key :=
  Eval cbv in filepath.canon (str "../frontend/src/components/SidePanel.tsx").

(** A project tree: the root, [components/SidePanel.tsx] and [App.tsx]. *)
Definition project_world : os.world :=
  {| os.files :=
       list_to_map
         [(filepath.canon (str "../frontend"), os.Directory);
          (filepath.canon (str "../frontend/src"), os.Directory);
          (filepath.canon (str "../frontend/src/components"), os.Directory);
          (side_panel_key, os.File (str "export default function SidePanel"));
          (filepath.canon (str "../frontend/src/App.tsx"), os.File (str "old"))];
     os.calls := [];
     os.output := [] |}.

(** Modelled from the spec: [normalizePath], which [applyEdits] of part
    001 calls and the sources do not define.  Spec 4.3, rule 3: strip any
    redundant leading segment that duplicates the project's own root
    folder name ([src]), so that a path with the duplicated prefix and
    the path without it are normalized alike.  Every leading [src/] is a
    segment of that kind and is stripped. *)
Fixpoint normalizePath_spec (path : gostr) : gostr :=
  match path with
  | "s"%char :: "r"%char :: "c"%char :: "/"%char :: rest => normalizePath_spec rest
  | _ => path
  end.

(** A valid JSON text with nothing around its braces, with the escape
    sequence for the less-than sign in one of its strings. *)
Definition escaped_document : gostr :=
  quoted "{'actions':[{'type':'update','path':'App.tsx','content':'a " ++
  esc "u003c" ++ quoted " b'}]}".

(** A valid JSON text with escaped double quotes in a string. *)
Definition quoting_document : gostr :=
  quoted "{'actions':[{'type':'update','path':'App.tsx','content':'say " ++
  esc "u0022" ++ quoted "hi" ++ esc "u0022" ++ quoted "'}]}".

Definition plain_document : gostr :=
  quoted "{'actions':[{'type':'update','path':'src/App.tsx','content':'X'}]}".

Definition empty_document : gostr := quoted "{'actions':[]}".

Definition many_actions (n : nat) : AIEditActions :=
  {| Actions := map (fun i => {| Type' := str "update";
                                 Path := str "App.tsx";
                                 Content := repeat "x"%char i |}) (seq 0 n) |}.

Definition passed_over_batch : AIEditActions :=
  {| Actions := [action "update" "src/components/SidePanel.tsx" "gone";
                 action "create" "../../etc/passwd" "x";
                 action "rename" "App.tsx" ""] |}.

(** The two stages of [cleanAIResponse]: the cut at the first opening and
    the last closing brace, and the eight replacements. *)
Definition trimmed (response : gostr) : gostr :=
  let startIndex := strings.Index response (str "{") in
  let response :=
    if 0 <? startIndex then strings.slice_from response startIndex
    else response in
  let lastIndex := strings.LastIndex response (str "}") in
  if (0 <? lastIndex) && (lastIndex <? strings.len response - 1)
  then strings.slice_to response (lastIndex + 1)
  else response.

Definition rewritten (response : gostr) : gostr :=
  let response := strings.ReplaceAll response (esc "u003c") (str "<") in
  let response := strings.ReplaceAll response (esc "u003e") (str ">") in
  let response := strings.ReplaceAll response (esc "u0026") (str "&") in
  let response := strings.ReplaceAll response (esc "u0027") (str "'") in
  let response := strings.ReplaceAll response (esc "u0022") [dquote] in
  let response := strings.ReplaceAll response (esc "un") (esc "n") in
  let response := strings.ReplaceAll response (str ");n}") (str ");}") in
  let response := strings.ReplaceAll response (esc "n}") (str "}") in
  response.

(** A call of the trace keeps to the project: [WriteFile] and [Remove]
    name a path at or below the root; [MkdirAll] names the directory of
    such a path, which is at or below the root itself, or is the
    directory the root lies in when that path is the root. *)
Definition call_within (c : os.call) : Prop :=
  match c with
  | os.CallMkdirAll path =>
      exists full,
        path = filepath.Dir full /\
        within_root (filepath.canon full) /\
        (within_root (filepath.canon path) \/
         (filepath.canon full = (false, root_elems) /\
          filepath.canon path = os.parent (false, root_elems)))
  | os.CallWriteFile path _ => within_root (filepath.canon path)
  | os.CallRemove path => within_root (filepath.canon path)
  end.

(** The action that [main.go] would be given for the path part 001
    arrives at: normalized and without the leading [src/]. *)
Definition stripped (np : gostr -> gostr) (act : Action) : Action :=
  {| Type' := Type' act;
     Path := relative_path (Part001Rev np) act;
     Content := Content act |}.

(** An action of the prototype whose path starts with [src/]. *)
Definition under_src (act : Action) : Action :=
  {| Type' := Type' act; Path := str "src/" ++ Path act; Content := Content act |}.

(** * Reading the tree: [filepath.WalkDir] and [ioutil.ReadFile] *)

Module walkdir.

(** A name that a directory entry can carry: not empty, not [.] or [..],
    without a separator. *)
Definition is_name (e : gostr) : bool :=
  negb (bool_decide (e = [])) && negb (bool_decide (e = filepath.dot))
  && negb (bool_decide (e = filepath.dotdot))
  && negb (bool_decide (filepath.Separator ∈ e)).

(** Byte order on names: [os.ReadDir] returns the entries of a directory
    sorted by file name. *)
Fixpoint name_le (a b : gostr) : bool :=
  match a, b with
  | [], _ => true
  | _ :: _, [] => false
  | x :: a', y :: b' =>
      if (N_of_ascii x <? N_of_ascii y)%N then true
      else if (N_of_ascii y <? N_of_ascii x)%N then false
      else name_le a' b'
  end.

(** The order in which a depth-first walk over sorted directories meets
    two paths, given by their elements: a directory before what it holds,
    and the entries of one directory by name. *)
Fixpoint path_le (p q : list gostr) : bool :=
  match p, q with
  | [], _ => true
  | _ :: _, [] => false
  | a :: p', b :: q' =>
      if bool_decide (a = b) then path_le p' q' else name_le a b
  end.

Definition entry_le (x y : os.key * os.node) : Prop :=
  path_le x.1.2 y.1.2 = true.

#[global] Instance entry_le_dec : RelDecision entry_le.
Proof. intros x y. unfold entry_le. apply _. Defined.

(** Whether [kn] is an entry of the tree strictly below [root] that is
    reached from [root] through directory entries. *)
Definition is_below (fs : gmap os.key os.node) (root : os.key)
    (kn : os.key * os.node) : bool :=
  bool_decide (kn.1.1 = root.1)
  && bool_decide (root.2 `prefix_of` kn.1.2)
  && negb (bool_decide (kn.1.2 = root.2))
  && forallb is_name (drop (length root.2) kn.1.2)
  && match os.lstat fs kn.1 with
     | inr _ => true
     | inl _ => false
     end.

(** [filepath.WalkDir(root, fn)], as the sequence of calls of [fn] that it
    makes while [fn] returns [nil]: the path and the entry of each call.
    An [lstat] of [root] that fails is the error [fn] is called with; a
    root that is a file is visited alone; below a directory everything is
    visited in lexical order, under the path [filepath.Join] gives it. *)
Definition WalkDir (fs : gmap os.key os.node) (root : gostr)
  : os.Errno + list (gostr * os.node) :=
  let k := filepath.canon root in
  match os.lstat fs k with
  | inl e => inl e
  | inr (os.File c) => inr [(root, os.File c)]
  | inr os.Directory =>
      inr ((root, os.Directory) ::
           map (fun kn : os.key * os.node => (filepath.render kn.1, kn.2))
             (merge_sort entry_le (List.filter (is_below fs k) (map_to_list fs))))
  end.

(** [ioutil.ReadFile(filename)]. *)
Definition ReadFile (filename : gostr) (fs : gmap os.key os.node)
  : os.Errno + gostr :=
  match os.lstat fs (filepath.canon filename) with
  | inr (os.File content) => inr content
  | inr os.Directory => inl os.EISDIR
  | inl e => inl e
  end.

End walkdir.

(** * [gatherContextJSON], the same in the three revisions *)

Module Context.

Record FileJSON := { Path : gostr; Content : gostr }.

(** The test on the suffix of a walked path. *)
Definition is_source (path : gostr) : bool :=
  strings.HasSuffix path (str ".tsx") || strings.HasSuffix path (str ".ts")
  || strings.HasSuffix path (str ".jsx") || strings.HasSuffix path (str ".js")
  || strings.HasSuffix path (str ".css") || strings.HasSuffix path (str ".html").

(** The function handed to [filepath.WalkDir], called without an error:
    the slice [files] as the call leaves it, or the error it returns. *)
Definition visit (fs : gmap os.key os.node) (files : list FileJSON)
    (path : gostr) (d : os.node) : os.PathError + list FileJSON :=
  match d with
  | os.Directory => inr files
  | os.File _ =>
      if is_source path then
        match walkdir.ReadFile path fs with
        | inl e => inl {| os.Op := str "open"; os.ErrPath := path; os.Err := e |}
        | inr b =>
            let rel := strings.TrimPrefix path (projectRoot ++ [filepath.Separator]) in
            inr (files ++ [{| Path := rel; Content := b |}])
        end
      else inr files
  end.

(** The walk stops at the first error. *)
Fixpoint visit_all (fs : gmap os.key os.node) (files : list FileJSON)
    (entries : list (gostr * os.node)) : os.PathError + list FileJSON :=
  match entries with
  | [] => inr files
  | (path, d) :: rest =>
      match visit fs files path d with
      | inl e => inl e
      | inr files' => visit_all fs files' rest
      end
  end.

(** The slice [files] when [filepath.WalkDir] has returned. *)
Definition gatherFiles (fs : gmap os.key os.node) : os.PathError + list FileJSON :=
  match walkdir.WalkDir fs projectRoot with
  | inl e => inl {| os.Op := str "lstat"; os.ErrPath := projectRoot; os.Err := e |}
  | inr entries => visit_all fs [] entries
  end.

Section Gather.

(** [json.MarshalIndent] of the slice. *)
Variable json_MarshalIndent : list FileJSON -> goerror + gostr.

(** [gatherContextJSON()]. *)
Definition gatherContextJSON (w : os.world) : goerror + gostr :=
  match gatherFiles (os.files w) with
  | inl e => inl (PathErr e)
  | inr files => json_MarshalIndent files
  end.

End Gather.

End Context.

(** The path of the file whose elements below the root are [rest], as
    [filepath.WalkDir] hands it to its function. *)
Definition walked_path (rest : list gostr) : gostr :=
  projectRoot ++ filepath.Separator :: strings.Join rest [filepath.Separator].

(** What the walk adds to [files] at one entry. *)
Definition collected (kn : os.key * os.node) : list Context.FileJSON :=
  match kn.2 with
  | os.File c =>
      if Context.is_source (filepath.render kn.1)
      then [{| Context.Path :=
                 strings.TrimPrefix (filepath.render kn.1)
                   (projectRoot ++ [filepath.Separator]);
               Context.Content := c |}]
      else []
  | os.Directory => []
  end.

(** The update that writes a gathered file back. *)
Definition write_back (f : Context.FileJSON) : Action :=
  {| Type' := str "update"; Path := Context.Path f; Content := Context.Content f |}.

(** A request whose context is gathered from the tree of [w]. *)
Definition gathers (marshal : list Context.FileJSON -> goerror + gostr)
    (r : Exchange) (w : os.world) : Prop :=
  Method r = str "POST" /\ (exists req, Body r = inr req) /\
  contextJSON r = Context.gatherContextJSON marshal w.

(** A marshaller that knows one answer: enough to run a handler on a
    concrete tree. *)
Definition marshal_as (text : string) : list Context.FileJSON -> goerror + gostr :=
  fun _ => inr (str text).

(** A POST whose context is gathered from the tree of [w]. *)
Definition exchange_on (w : os.world) (provider : string) (content : gostr) : Exchange :=
  {| Method := str "POST";
     Body := inr {| Instructions := str "add a counter";
                    Provider := str provider;
                    Model := str "llama3.2" |};
     contextJSON := Context.gatherContextJSON (marshal_as "[]") w;
     completion := inr content |}.

(** * The HTTP exchange with the completion provider *)

Module remote.

(** What [client.Do] and the reading of the body deliver. *)
Inductive reply :=
| Refused (err : goerror)
| Broken (StatusCode : Z) (err : goerror)
| Reply (StatusCode : Z) (body : gostr).

(** What a provider call meets outside the program: the API key of the
    environment, the encoding of the request body, the error of
    [http.NewRequest], and the reply. *)
Record env := {
  OPENROUTER_API_KEY : gostr;
  encoded : goerror + gostr;
  NewRequest : option goerror;
  answer : reply
}.

Definition StatusOK : Z := 200.

End remote.

(** * [callOpenRouter] and [callOllama] of the two-provider backend, up to
      their [return]: the same in [main.go] and in part 001 *)

Module Providers.

Section Calls.

(** [json.Unmarshal] into [OpenRouterResponse]: the contents of the
    choices' messages. *)
Variable json_Unmarshal_OpenRouterResponse : gostr -> option (list gostr).

(** [json.Unmarshal] into [OllamaResponse]: its [Response]. *)
Variable json_Unmarshal_OllamaResponse : gostr -> option gostr.

(** The operand of [callOpenRouter]'s last [return]:
    [openRouterResp.Choices[0].Message.Content], or the error returned
    before. *)
Definition openRouterContent (e : remote.env) : goerror + gostr :=
  if bool_decide (remote.OPENROUTER_API_KEY e = []) then
    inl (Errorf "OPENROUTER_API_KEY environment variable is not set")
  else
    match remote.encoded e with
    | inl err => inl err
    | inr _ =>
        match remote.NewRequest e with
        | Some err => inl err
        | None =>
            match remote.answer e with
            | remote.Refused err => inl err
            | remote.Broken _ err => inl err
            | remote.Reply StatusCode body =>
                if negb (StatusCode =? remote.StatusOK) then
                  inl (Errorf "OpenRouter API error %d: %s")
                else
                  match json_Unmarshal_OpenRouterResponse body with
                  | None => inl (Errorf "failed to parse OpenRouter response: %w")
                  | Some Choices =>
                      match Choices with
                      | [] => inl (Errorf "no choices in OpenRouter response")
                      | first :: _ => inr first
                      end
                  end
            end
        end
    end.

(** The operand of [callOllama]'s last [return]: [ollamaResp.Response],
    or the error returned before. *)
Definition ollamaContent (e : remote.env) : goerror + gostr :=
  match remote.encoded e with
  | inl err => inl err
  | inr _ =>
      match remote.NewRequest e with
      | Some err => inl err
      | None =>
          match remote.answer e with
          | remote.Refused _ =>
              inl (Errorf "failed to connect to Ollama (make sure it's running on localhost:11434): %w")
          | remote.Broken _ err => inl err
          | remote.Reply StatusCode body =>
              if negb (StatusCode =? remote.StatusOK) then
                inl (Errorf "Ollama API error %d: %s")
              else
                match json_Unmarshal_OllamaResponse body with
                | None => inl (Errorf "failed to parse Ollama response: %w")
                | Some Response => inr Response
                end
          end
      end
  end.

(** What the call that the [switch] of [handleEdit] selects arrives at.
    For a provider that is neither of the two [handleEdit] makes no call
    and does not look at this. *)
Definition content_for (req : EditRequest) (e : remote.env) : goerror + gostr :=
  if streq (Provider req) "openrouter" then openRouterContent e
  else ollamaContent e.

End Calls.

End Providers.

(** * [callOllama] of the prototype, up to the decoding of the edits *)

Module PrototypeProvider.

(** The values that [json.Unmarshal] stores in an [any]. *)
#[warnings="-register-all"] Inductive any :=
| ANil
| ABool (b : bool)
| AFloat64 (digits : gostr)
| AString (s : gostr)
| ASlice (elems : list any)
| AMap (m : gmap gostr any).

(** A call returns, or panics on a failed type assertion. *)
Inductive completes (A : Type) :=
| Returns (a : A)
| Panics.
Arguments Returns {A} a.
Arguments Panics {A}.

(** From [ollamaResp] to [content]: the presence check, the type
    assertions with [ok], and the one without. *)
Definition content_of (ollamaResp : gmap gostr any) : completes (goerror + gostr) :=
  match ollamaResp !! str "choices" with
  | None => Returns (inl (Errorf "unexpected Ollama response format: %v"))
  | Some v =>
      match v with
      | ASlice (first :: _) =>
          match first with
          | AMap message =>
              match message !! str "message" with
              | Some (AMap m) =>
                  match m !! str "content" with
                  | Some (AString content) => Returns (inr content)
                  | _ => Returns (inl (Errorf "unexpected message format: %v"))
                  end
              | _ => Panics
              end
          | _ => Returns (inl (Errorf "unexpected choice format: %v"))
          end
      | _ => Returns (inl (Errorf "no choices found in Ollama response"))
      end
  end.

Section Call.

(** [json.Unmarshal] into [map[string]any]. *)
Variable json_Unmarshal_any : gostr -> option (gmap gostr any).

Variable json_Unmarshal : gostr -> option AIEditActions.

(** [callOllama(prompt)] up to [content]. *)
Definition ollamaContent (prompt : gostr) (e : remote.env) (w : os.world)
  : os.world * completes (goerror + gostr) :=
  match remote.encoded e with
  | inl err => (w, Returns (inl err))
  | inr buf =>
      let w := os.Printf (os.Stdout "Sending request to Ollama with prompt length:"
                            [os.ArgInt (strings.len prompt)]) w in
      let w := os.Printf (os.Stdout "Request body:" [os.ArgStr buf]) w in
      let w := os.Printf (os.Stdout "Making HTTP POST request to Ollama API..." []) w in
      if bool_decide (remote.OPENROUTER_API_KEY e = []) then
        (w, Returns (inl (Errorf "OPENROUTER_API_KEY environment variable is not set")))
      else
        let w := os.Printf (os.Stdout "Sending request to Ollama API..." []) w in
        match remote.answer e with
        | remote.Refused err => (w, Returns (inl err))
        | remote.Broken _ err => (w, Returns (inl err))
        | remote.Reply _ body =>
            match json_Unmarshal_any body with
            | None => (w, Returns (inl (Errorf "failed to parse Ollama response: %w")))
            | Some ollamaResp => (w, content_of ollamaResp)
            end
        end
  end.

(** [callOllama(prompt)]. *)
Definition callOllama (prompt : gostr) (e : remote.env) (w : os.world)
  : os.world * completes (goerror + AIEditActions) :=
  match ollamaContent prompt e w with
  | (w1, Panics) => (w1, Panics)
  | (w1, Returns exchange) =>
      let r := MainGoPrototype.callOllama json_Unmarshal exchange w1 in
      (r.1, Returns r.2)
  end.

End Call.

End PrototypeProvider.

(** The shape [callOllama] of the prototype expects of a decoded reply:
    a first choice that is an object. *)
Definition first_choice (ollamaResp : gmap gostr PrototypeProvider.any)
    (message : gmap gostr PrototypeProvider.any) : Prop :=
  exists rest,
    ollamaResp !! str "choices"
    = Some (PrototypeProvider.ASlice (PrototypeProvider.AMap message :: rest)).

(** The prototype's call gets as far as a decoded reply. *)
Definition decoded_reply (json_Unmarshal_any : gostr -> option (gmap gostr PrototypeProvider.any))
    (e : remote.env) (ollamaResp : gmap gostr PrototypeProvider.any) : Prop :=
  (exists buf, remote.encoded e = inr buf) /\
  remote.OPENROUTER_API_KEY e <> [] /\
  exists StatusCode body,
    remote.answer e = remote.Reply StatusCode body /\
    json_Unmarshal_any body = Some ollamaResp.

(** The body of the request decodes to [req], and the completion that
    [handleEdit] works with is what the provider call arrives at in the
    exchange [e]. *)
Definition asks (dec_choices : gostr -> option (list gostr))
    (dec_response : gostr -> option gostr) (r : Exchange) (req : EditRequest)
    (e : remote.env) : Prop :=
  Body r = inr req /\
  completion r = Providers.content_for dec_choices dec_response req e.

(** A decoder of provider replies that knows one body. *)
Definition choices_for (body : gostr) (choices : list gostr)
  : gostr -> option (list gostr) :=
  fun data => if bool_decide (data = body) then Some choices else None.

Definition no_response : gostr -> option gostr := fun _ => None.

Definition any_for (body : gostr) (v : gmap gostr PrototypeProvider.any)
  : gostr -> option (gmap gostr PrototypeProvider.any) :=
  fun data => if bool_decide (data = body) then Some v else None.

(** An exchange that answers 200 with [body]. *)
Definition answered (body : gostr) : remote.env :=
  {| remote.OPENROUTER_API_KEY := str "sk-or-v1-0000";
     remote.encoded := inr (quoted "{'model':'m','messages':[]}");
     remote.NewRequest := None;
     remote.answer := remote.Reply 200 body |}.

(** A reply whose first choice has no message: [{"choices":[{"text":"hi"}]}]. *)
Definition choice_without_message : gmap gostr PrototypeProvider.any :=
  {[ str "choices" :=
       PrototypeProvider.ASlice
         [PrototypeProvider.AMap {[ str "text" := PrototypeProvider.AString (str "hi") ]}] ]}.

(** The reply [{"choices":[{"message":{"content":content}}]}]. *)
Definition chat_reply (content : gostr) : gmap gostr PrototypeProvider.any :=
  {[ str "choices" :=
       PrototypeProvider.ASlice
         [PrototypeProvider.AMap
            {[ str "message" :=
                 PrototypeProvider.AMap
                   {[ str "content" := PrototypeProvider.AString content ]} ]}] ]}.

(** * Checks of the model on small inputs *)

Example HasPrefix_ex : strings.HasPrefix (str "src/App.tsx") (str "src/") = true.
Proof. reflexivity. Qed.

Example Clean_ex1 :
  filepath.Clean (str "../frontend/src/../../etc/passwd") = str "../etc/passwd".
Proof. vm_compute. reflexivity. Qed.

Example Clean_ex2 : filepath.Clean (str "/a//b/./c/../..") = str "/a".
Proof. vm_compute. reflexivity. Qed.

Example Clean_ex3 : filepath.Clean (str "a/..") = str ".".
Proof. vm_compute. reflexivity. Qed.

Example Join_ex : filepath.Join [str "../frontend/src"; str "/etc/passwd"] = str "../frontend/src/etc/passwd".
Proof. vm_compute. reflexivity. Qed.

Example Dir_ex : filepath.Dir (str "../frontend/src/a/b.tsx") = str "../frontend/src/a".
Proof. vm_compute. reflexivity. Qed.

Example Replace_ex : strings.ReplaceAll (str "aXXXb") (str "XX") (str "y") = str "ayXb".
Proof. vm_compute. reflexivity. Qed.

Example LastIndex_ex : strings.LastIndex (str "{a}b}") (str "}") = 4.
Proof. vm_compute. reflexivity. Qed.

Example cleanAIResponse_trims :
  Part001.cleanAIResponse (str "Here you go: " ++ plain_document ++ str " Done.")
  = plain_document.
Proof. vm_compute. reflexivity. Qed.

(** * Facts about the libraries and the file tree *)

Section StringFacts.
Implicit Types s t p m old new : gostr.

Lemma HasPrefix_app p t : strings.HasPrefix (p ++ t) p = true.
Proof.
  induction p as [|c p IH]; simpl; [done|].
  rewrite bool_decide_eq_true_2 by done. exact IH.
Qed.

Lemma HasPrefix_inv s p :
  strings.HasPrefix s p = true -> exists t, s = p ++ t.
Proof.
  revert s. induction p as [|c p IH]; intros s H.
  - exists s. done.
  - destruct s as [|a s]; simpl in H; [done|].
    apply andb_true_iff in H as [Ha Hs].
    apply bool_decide_eq_true_1 in Ha. subst a.
    destruct (IH _ Hs) as [t ->]. by exists t.
Qed.

Lemma HasPrefix_nil s : strings.HasPrefix s [] = true.
Proof. by destruct s. Qed.

Lemma TrimPrefix_app p t : strings.TrimPrefix (p ++ t) p = t.
Proof.
  unfold strings.TrimPrefix. rewrite HasPrefix_app.
  by rewrite drop_app_length.
Qed.

Lemma TrimPrefix_absent s p :
  strings.HasPrefix s p = false -> strings.TrimPrefix s p = s.
Proof. unfold strings.TrimPrefix. by intros ->. Qed.

Lemma TrimPrefix_suffix s p : exists a, s = a ++ strings.TrimPrefix s p.
Proof.
  unfold strings.TrimPrefix. destruct (strings.HasPrefix s p).
  - exists (take (length p) s). by rewrite take_drop.
  - by exists [].
Qed.

Lemma Contains_intro a m b : strings.Contains (a ++ m ++ b) m = true.
Proof.
  induction a as [|c a IH]; simpl.
  - destruct m; simpl; [by destruct b|].
    rewrite bool_decide_eq_true_2 by done. by rewrite HasPrefix_app.
  - rewrite IH. apply orb_true_r.
Qed.

Lemma Contains_inv s m :
  strings.Contains s m = true -> exists a b, s = a ++ m ++ b.
Proof.
  induction s as [|c s IH]; simpl; intros H.
  - rewrite orb_false_r in H. destruct m; [|done]. by exists [], [].
  - apply orb_true_iff in H as [H|H].
    + destruct (HasPrefix_inv _ _ H) as [t Ht]. exists [], t. done.
    + destruct (IH H) as (a & b & ->). by exists (c :: a), b.
Qed.

Lemma Contains_infix a s b m :
  strings.Contains s m = true -> strings.Contains (a ++ s ++ b) m = true.
Proof.
  intros H. destruct (Contains_inv _ _ H) as (x & y & ->).
  replace (a ++ (x ++ m ++ y) ++ b) with ((a ++ x) ++ m ++ (y ++ b))
    by (by rewrite <- !app_assoc).
  apply Contains_intro.
Qed.


Lemma replace_go_absent s old new :
  strings.Contains s old = false -> strings.replace_go 0 s old new = s.
Proof.
  induction s as [|c s IH]; simpl; [done|]. intros H.
  apply orb_false_iff in H as [H1 H2].
  destruct old as [|o old]; [done|]. simpl in *.
  rewrite H1. by rewrite IH.
Qed.

Lemma ReplaceAll_absent s old new :
  strings.Contains s old = false -> strings.ReplaceAll s old new = s.
Proof.
  intros H. destruct old as [|o old].
  - destruct s; simpl in H; done.
  - by apply replace_go_absent.
Qed.

Lemma Index_HasPrefix s p :
  strings.HasPrefix s p = true -> strings.Index s p = 0.
Proof.
  unfold strings.Index. destruct s; simpl; by intros ->.
Qed.

Lemma Index_absent s p :
  strings.Contains s p = false -> strings.Index s p = -1.
Proof.
  unfold strings.Index. generalize 0.
  induction s as [|c s IH]; simpl; intros i H.
  - rewrite orb_false_r in H. by rewrite H.
  - apply orb_false_iff in H as [H1 H2]. rewrite H1. by apply IH.
Qed.

Lemma last_index_from_snoc i s c :
  0 <= i ->
  strings.last_index_from i (s ++ [c]) [c] = i + Z.of_nat (length s).
Proof.
  revert i. induction s as [|a s IH]; intros i Hi.
  - simpl. rewrite bool_decide_eq_true_2 by done. simpl. lia.
  - cbn [app strings.last_index_from]. rewrite IH by lia.
    destruct (0 <=? i + 1 + Z.of_nat (length s)) eqn:E.
    + cbn [length]. lia.
    + apply Z.leb_gt in E. lia.
Qed.

Lemma LastIndex_snoc s c :
  strings.LastIndex (s ++ [c]) [c] = strings.len (s ++ [c]) - 1.
Proof.
  unfold strings.LastIndex, strings.len.
  rewrite last_index_from_snoc by lia. rewrite length_app. simpl. lia.
Qed.

Lemma HasSuffix_inv s c :
  strings.HasSuffix s [c] = true -> exists t, s = t ++ [c].
Proof.
  unfold strings.HasSuffix. intros H.
  destruct (HasPrefix_inv _ _ H) as [t Ht]. simpl in Ht.
  exists (rev t). rewrite <- (rev_involutive s), Ht. done.
Qed.

Lemma last_index_from_absent i s m :
  strings.Contains s m = false -> strings.last_index_from i s m = -1.
Proof.
  revert i. induction s as [|a s IH]; simpl; intros i H.
  - rewrite orb_false_r in H. by rewrite H.
  - apply orb_false_iff in H as [H1 H2]. rewrite (IH _ H2). simpl.
    rewrite H1. done.
Qed.

End StringFacts.

Section SplitFacts.
Implicit Types s t e : gostr.
Implicit Types es : list gostr.
Variable sep : ascii.

Lemma Split_nonnil s : strings.Split s sep <> [].
Proof.
  destruct s as [|c s]; simpl; [done|].
  case_bool_decide; [done|]. by destruct (strings.Split s sep).
Qed.

Lemma Split_cons_other c s :
  c <> sep ->
  exists seg rest, strings.Split s sep = seg :: rest /\
                   strings.Split (c :: s) sep = (c :: seg) :: rest.
Proof.
  intros Hc. simpl. rewrite bool_decide_eq_false_2 by done.
  destruct (strings.Split s sep) as [|seg rest] eqn:E.
  - by destruct (Split_nonnil s).
  - by exists seg, rest.
Qed.

Lemma Split_app a b :
  strings.Split (a ++ sep :: b) sep = strings.Split a sep ++ strings.Split b sep.
Proof.
  induction a as [|c a IH].
  - simpl. by rewrite bool_decide_eq_true_2.
  - cbn [app strings.Split]. case_bool_decide; [by rewrite IH|].
    rewrite IH. destruct (strings.Split a sep) eqn:E; [|done].
    by destruct (Split_nonnil a).
Qed.

Lemma Split_head_prefix s seg rest :
  strings.Split s sep = seg :: rest -> exists b, s = seg ++ b.
Proof.
  revert seg rest. induction s as [|c s IH]; intros seg rest; simpl.
  - intros [= <- <-]. by exists [].
  - case_bool_decide.
    + intros [= <- <-]. by eexists.
    + destruct (strings.Split s sep) as [|seg' rest'] eqn:E.
      * intros [= <- <-]. by exists s.
      * intros [= <- <-]. destruct (IH _ _ eq_refl) as [b ->]. by exists b.
Qed.

Lemma Split_elem_infix s e :
  e ∈ strings.Split s sep -> exists a b, s = a ++ e ++ b.
Proof.
  revert e. induction s as [|c s IH]; intros e; simpl.
  - intros ->%list_elem_of_singleton. by exists [], [].
  - case_bool_decide.
    + intros [->|He]%elem_of_cons; [by exists [], (c :: s)|].
      destruct (IH _ He) as (a & b & ->). by exists (c :: a), b.
    + destruct (strings.Split s sep) as [|seg rest] eqn:E.
      * intros ->%list_elem_of_singleton. by exists [], s.
      * intros [->|He]%elem_of_cons.
        -- destruct (Split_head_prefix _ _ _ E) as [b ->]. by exists [], b.
        -- destruct (IH e) as (a & b & ->); [by right|]. by exists (c :: a), b.
Qed.

Lemma Split_no_sep s e : e ∈ strings.Split s sep -> sep ∉ e.
Proof.
  revert e. induction s as [|c s IH]; intros e; simpl.
  - intros ->%list_elem_of_singleton. apply not_elem_of_nil.
  - case_bool_decide.
    + intros [->|He]%elem_of_cons; [apply not_elem_of_nil|by apply IH].
    + destruct (strings.Split s sep) as [|seg rest] eqn:E.
      * intros ->%list_elem_of_singleton. by intros ->%list_elem_of_singleton.
      * intros [->|He]%elem_of_cons.
        -- intros [->|Hin]%elem_of_cons; [done|].
           revert Hin. apply IH. by left.
        -- apply IH. by right.
Qed.

Lemma Split_id e : sep ∉ e -> strings.Split e sep = [e].
Proof.
  induction e as [|c e IH]; [done|]. intros H.
  apply not_elem_of_cons in H as [H1 H2]. simpl.
  rewrite bool_decide_eq_false_2 by done. by rewrite IH.
Qed.

Lemma Split_Join es :
  es <> [] -> Forall (fun e => sep ∉ e) es ->
  strings.Split (strings.Join es [sep]) sep = es.
Proof.
  induction es as [|e es IH]; [done|]. intros _ H.
  apply Forall_cons in H as [He Hes].
  destruct es as [|e' es].
  - simpl. by apply Split_id.
  - change (strings.Join (e :: e' :: es) [sep])
      with (e ++ sep :: strings.Join (e' :: es) [sep]).
    rewrite Split_app, Split_id, IH by done. done.
Qed.

Lemma Contains_byte_absent e : sep ∉ e -> strings.Contains e [sep] = false.
Proof.
  induction e as [|c e IH]; [done|]. intros H.
  apply not_elem_of_cons in H as [H1 H2]. simpl.
  rewrite bool_decide_eq_false_2 by done. simpl. by apply IH.
Qed.

Lemma last_index_from_sep i a e :
  0 <= i -> sep ∉ e ->
  strings.last_index_from i (a ++ sep :: e) [sep] = i + Z.of_nat (length a).
Proof.
  intros Hi He. revert i Hi. induction a as [|c a IH]; intros i Hi.
  - cbn [app strings.last_index_from].
    rewrite last_index_from_absent by (by apply Contains_byte_absent).
    simpl. rewrite bool_decide_eq_true_2 by done. simpl. lia.
  - cbn [app strings.last_index_from]. rewrite IH by lia.
    destruct (0 <=? i + 1 + Z.of_nat (length a)) eqn:E.
    + cbn [length]. lia.
    + apply Z.leb_gt in E. lia.
Qed.

End SplitFacts.

Section CleanFacts.
Implicit Types e : gostr.
Implicit Types es out elems rest : list gostr.

Lemma elem_of_rev_1 {A} (x : A) (l : list A) : x ∈ rev l -> x ∈ l.
Proof. rewrite !list_elem_of_In. apply in_rev. Qed.

Lemma clean_go_subset r out elems e :
  e ∈ filepath.clean_go r out elems -> e ∈ out \/ e ∈ elems.
Proof.
  revert out. induction elems as [|x elems IH]; intros out; simpl.
  - intros H%elem_of_rev_1. by left.
  - destruct (bool_decide (x = []) || bool_decide (x = filepath.dot)).
    { intros [?|?]%IH; [by left|right; by right]. }
    case_bool_decide as Ed.
    + destruct out as [|top out'].
      * destruct r; intros [H|H]%IH.
        -- by left.
        -- right; by right.
        -- apply list_elem_of_singleton in H as ->. right; by left.
        -- right; by right.
      * case_bool_decide as Et; intros [H|H]%IH.
        -- apply elem_of_cons in H as [->|H]; [right; by left|by left].
        -- right; by right.
        -- left; by right.
        -- right; by right.
    + intros [H|H]%IH.
      * apply elem_of_cons in H as [->|H]; [right; by left|by left].
      * right; by right.
Qed.

Lemma clean_go_no_dotdot r out elems :
  Forall (fun e => e <> filepath.dotdot) elems ->
  filepath.clean_go r out elems = rev out ++ List.filter kept elems.
Proof.
  revert out. induction elems as [|x elems IH]; intros out H; simpl.
  - by rewrite app_nil_r.
  - apply Forall_cons in H as [Hx H]. unfold kept at 1.
    destruct (bool_decide (x = []) || bool_decide (x = filepath.dot)) eqn:E; simpl.
    + by apply IH.
    + rewrite bool_decide_eq_false_2 by done.
      rewrite IH by done. simpl. by rewrite <- app_assoc.
Qed.

Lemma clean_go_plain r out rest :
  Forall plain rest -> filepath.clean_go r out rest = rev out ++ rest.
Proof.
  revert out. induction rest as [|x rest IH]; intros out H; simpl.
  - by rewrite app_nil_r.
  - apply Forall_cons in H as [(H1 & H2 & H3 & H4) H].
    rewrite !bool_decide_eq_false_2 by done. simpl.
    rewrite IH by done. simpl. by rewrite <- app_assoc.
Qed.

Lemma clean_go_dotdots n m X :
  filepath.clean_go false (replicate n filepath.dotdot)
    (replicate m filepath.dotdot ++ X)
  = filepath.clean_go false (replicate (n + m) filepath.dotdot) X.
Proof.
  revert n. induction m as [|m IH]; intros n.
  - by rewrite Nat.add_0_r.
  - cbn [replicate app filepath.clean_go].
    change (bool_decide (filepath.dotdot = []) || bool_decide (filepath.dotdot = filepath.dot)) with false.
    cbn iota. rewrite bool_decide_eq_true_2 by done.
    destruct n as [|n].
    + exact (IH 1%nat).
    + cbn [replicate]. rewrite bool_decide_eq_true_2 by done.
      change (filepath.dotdot :: filepath.dotdot :: replicate n filepath.dotdot)
        with (replicate (S (S n)) filepath.dotdot).
      rewrite IH. f_equal. f_equal. lia.
Qed.

Lemma rev_replicate {A} n (x : A) : rev (replicate n x) = replicate n x.
Proof.
  induction n as [|n IH]; [done|]. simpl. rewrite IH.
  clear IH. induction n; [done|]. simpl. by f_equal.
Qed.

Lemma clean_go_canonical r es :
  canonical (r, es) -> filepath.clean_go r [] es = es.
Proof.
  intros (n & rest & Hes & Hrest & Hr). simpl in *. subst es.
  destruct r.
  - rewrite Hr by done. simpl. by rewrite clean_go_plain.
  - etrans; [exact (clean_go_dotdots 0 n rest)|]. simpl.
    rewrite clean_go_plain by done. by rewrite rev_replicate.
Qed.

(** Every result of [canon] is canonical. *)
Lemma clean_go_shape r n rest elems :
  Forall plain rest -> (r = true -> n = 0%nat) ->
  Forall (fun e => filepath.Separator ∉ e) elems ->
  canonical (r, filepath.clean_go r (rev rest ++ replicate n filepath.dotdot) elems).
Proof.
  intros Hrest Hr Hel. revert n rest Hrest Hr.
  induction elems as [|x elems IH]; intros n rest Hrest Hr.
  - simpl. exists n, rest. rewrite rev_app_distr, rev_involutive, rev_replicate.
    done.
  - apply Forall_cons in Hel as [Hx Hel]. specialize (IH Hel).
    cbn [filepath.clean_go].
    destruct (bool_decide (x = []) || bool_decide (x = filepath.dot)) eqn:E.
    { by apply IH. }
    apply orb_false_iff in E as [E1 E2].
    apply bool_decide_eq_false_1 in E1, E2.
    case_bool_decide as Edd.
    + destruct (rev rest) as [|top out'] eqn:Erev.
      * assert (rest = []) as ->.
        { rewrite <- (rev_involutive rest), Erev. done. }
        simpl. destruct n as [|n]; simpl.
        -- destruct r.
           ++ apply (IH 0%nat []); done.
           ++ subst x. apply (IH 1%nat []); done.
        -- subst x. apply (IH (S (S n)) []); [done|].
           intros ->. by specialize (Hr eq_refl).
      * simpl.
        assert (rest = rev out' ++ [top]) as Hr'.
        { rewrite <- (rev_involutive rest), Erev. done. }
        subst rest. apply Forall_app in Hrest as [Hout Htop].
        rewrite Forall_singleton in Htop.
        destruct Htop as [_ [_ [Htop _]]].
        rewrite bool_decide_eq_false_2 by done.
        specialize (IH n (rev out') Hout Hr).
        by rewrite rev_involutive in IH.
    + specialize (IH n (rest ++ [x])).
      rewrite rev_app_distr in IH. simpl in IH. apply IH; [|done].
      apply Forall_app. split; [done|]. by apply Forall_singleton.
Qed.

Lemma canon_canonical path : canonical (filepath.canon path).
Proof.
  unfold filepath.canon.
  apply (clean_go_shape _ 0 []); [done|done|].
  apply Forall_forall. intros e He. by apply Split_no_sep in He.
Qed.

Lemma canon_rooted path :
  (filepath.canon path).1 = strings.HasPrefix path [filepath.Separator].
Proof. done. Qed.

End CleanFacts.

Section RenderFacts.
Implicit Types e : gostr.
Implicit Types es rest : list gostr.

Lemma dotdot_no_sep : filepath.Separator ∉ filepath.dotdot.
Proof. intros H. repeat (apply elem_of_cons in H as [H|H]; [done|]). by apply not_elem_of_nil in H. Qed.

Lemma canonical_no_sep k : canonical k -> Forall (fun e => filepath.Separator ∉ e) k.2.
Proof.
  intros (n & rest & -> & Hrest & _). apply Forall_app. split.
  - apply Forall_replicate. apply dotdot_no_sep.
  - eapply Forall_impl; [exact Hrest|]. by intros e (_ & _ & _ & ?).
Qed.

Lemma canonical_nonempty k : canonical k -> Forall (fun e => e <> []) k.2.
Proof.
  intros (n & rest & -> & Hrest & _). apply Forall_app. split.
  - by apply Forall_replicate.
  - eapply Forall_impl; [exact Hrest|]. by intros e (? & _).
Qed.

Lemma replicate_snoc {A} n (x : A) : replicate (S n) x = replicate n x ++ [x].
Proof. induction n as [|n IH]; [done|]. simpl in *. by f_equal. Qed.

Lemma canonical_removelast r es : canonical (r, es) -> canonical (r, removelast es).
Proof.
  unfold canonical. cbn [fst snd].
  intros (n & rest & Hes & Hrest & Hr). subst es.
  destruct rest as [|x rest _] using rev_ind.
  - destruct n as [|n].
    + by exists 0%nat, [].
    + exists n, []. rewrite !app_nil_r, replicate_snoc, removelast_last.
      split; [done|]. split; [done|].
      intros ->. by specialize (Hr eq_refl).
  - exists n, rest. rewrite app_assoc, removelast_last.
    apply Forall_app in Hrest as [Hrest _]. done.
Qed.

Lemma Join_head_not_sep e es :
  e <> [] -> filepath.Separator ∉ e ->
  strings.HasPrefix (strings.Join (e :: es) [filepath.Separator]) [filepath.Separator] = false.
Proof.
  intros He Hs. destruct e as [|c e]; [done|].
  apply not_elem_of_cons in Hs as [Hc _].
  destruct es; simpl; by rewrite bool_decide_eq_false_2.
Qed.

Lemma canon_render_rel es :
  canonical (false, es) -> filepath.canon (filepath.render (false, es)) = (false, es).
Proof.
  intros Hc. destruct es as [|e es]; [reflexivity|].
  pose proof (canonical_no_sep _ Hc) as Hs. pose proof (canonical_nonempty _ Hc) as Hn.
  simpl in Hs, Hn.
  unfold filepath.canon.
  change (filepath.render (false, e :: es)) with (strings.Join (e :: es) [filepath.Separator]).
  pose proof Hs as [Hse _]%Forall_cons. pose proof Hn as [Hne _]%Forall_cons.
  rewrite Join_head_not_sep by done.
  rewrite Split_Join by done.
  by rewrite clean_go_canonical.
Qed.

Lemma clean_go_trailing_empty r out es :
  filepath.clean_go r out (es ++ [[]]) = filepath.clean_go r out es.
Proof.
  revert out. induction es as [|x es IH]; intros out; [done|].
  cbn [app filepath.clean_go].
  destruct (bool_decide (x = []) || bool_decide (x = filepath.dot)); [done|].
  case_bool_decide; [|done].
  destruct out as [|top out']; [by destruct r|]. by case_bool_decide.
Qed.

Lemma Join_snoc es e :
  es <> [] ->
  strings.Join (es ++ [e]) [filepath.Separator]
  = strings.Join es [filepath.Separator] ++ filepath.Separator :: e.
Proof.
  induction es as [|x es IH]; [done|]. intros _.
  destruct es as [|y es]; [done|].
  change (strings.Join ((x :: y :: es) ++ [e]) [filepath.Separator])
    with (x ++ filepath.Separator :: strings.Join ((y :: es) ++ [e]) [filepath.Separator]).
  rewrite IH by done.
  change (strings.Join (x :: y :: es) [filepath.Separator])
    with (x ++ filepath.Separator :: strings.Join (y :: es) [filepath.Separator]).
  by rewrite <- app_assoc.
Qed.

Lemma Dir_render_rel es :
  canonical (false, es) ->
  filepath.canon (filepath.Dir (filepath.render (false, es))) = (false, removelast es).
Proof.
  intros Hc.
  pose proof (canonical_no_sep _ Hc) as Hs. pose proof (canonical_nonempty _ Hc) as Hn.
  simpl in Hs, Hn.
  destruct es as [|e es _] using rev_ind; [done|].
  rewrite removelast_last.
  apply Forall_app in Hs as [Hs He]. rewrite Forall_singleton in He.
  apply Forall_app in Hn as [Hn Hne]. rewrite Forall_singleton in Hne.
  destruct es as [|x es].
  - change (filepath.render (false, [] ++ [e])) with e.
    unfold filepath.Dir, strings.LastIndex.
    rewrite (last_index_from_absent 0 e [filepath.Separator] (Contains_byte_absent _ _ He)).
    reflexivity.
  - assert (canonical (false, x :: es)) as Hc'.
    { pose proof (canonical_removelast _ _ Hc) as Hc'.
      by rewrite removelast_last in Hc'. }
    replace (filepath.render (false, (x :: es) ++ [e]))
      with (strings.Join ((x :: es) ++ [e]) [filepath.Separator])
      by (by destruct es).
    rewrite Join_snoc by done.
    set (a := strings.Join (x :: es) [filepath.Separator]).
    unfold filepath.Dir, strings.LastIndex.
    rewrite last_index_from_sep by (done || lia).
    unfold strings.slice_to.
    replace (Z.to_nat (0 + Z.of_nat (length a) + 1)) with (length (a ++ [filepath.Separator]))
      by (rewrite length_app; simpl; lia).
    replace (a ++ filepath.Separator :: e) with ((a ++ [filepath.Separator]) ++ e)
      by (by rewrite <- app_assoc).
    rewrite take_app_length.
    assert (filepath.canon (a ++ [filepath.Separator]) = (false, x :: es)) as Hcan.
    { unfold filepath.canon.
      assert (strings.HasPrefix (a ++ [filepath.Separator]) [filepath.Separator] = false) as ->.
      { apply Forall_cons in Hs as [Hx _]. apply Forall_cons in Hn as [Hnx _].
        subst a. destruct x as [|c x]; [done|].
        apply not_elem_of_cons in Hx as [Hcx _].
        destruct es; simpl; by rewrite bool_decide_eq_false_2. }
      rewrite (Split_app filepath.Separator a []). subst a.
      rewrite Split_Join by done. simpl strings.Split.
      rewrite clean_go_trailing_empty. by rewrite clean_go_canonical. }
    unfold filepath.Clean. rewrite Hcan. by apply canon_render_rel.
Qed.

End RenderFacts.

(** Where [applyEdits] sends a relative path: below the project root. *)
Section TargetFacts.
Implicit Types rel : gostr.

Lemma Join_root rel :
  filepath.Join [projectRoot; rel]
  = filepath.Clean (projectRoot ++ filepath.Separator :: rel).
Proof. done. Qed.

Lemma canon_root_join rel :
  filepath.canon (projectRoot ++ filepath.Separator :: rel)
  = (false, filepath.clean_go false (rev root_elems) (strings.Split rel filepath.Separator)).
Proof.
  unfold filepath.canon. rewrite Split_app. done.
Qed.

Lemma canon_Join_root rel :
  filepath.canon (filepath.Join [projectRoot; rel])
  = (false, filepath.clean_go false (rev root_elems) (strings.Split rel filepath.Separator)).
Proof.
  rewrite Join_root. unfold filepath.Clean.
  pose proof (canon_canonical (projectRoot ++ filepath.Separator :: rel)) as Hc.
  rewrite canon_root_join in *. by apply canon_render_rel.
Qed.

Lemma canon_Dir_Join_root rel :
  filepath.canon (filepath.Dir (filepath.Join [projectRoot; rel]))
  = os.parent (filepath.canon (filepath.Join [projectRoot; rel])).
Proof.
  rewrite canon_Join_root. rewrite Join_root. unfold filepath.Clean.
  pose proof (canon_canonical (projectRoot ++ filepath.Separator :: rel)) as Hc.
  rewrite canon_root_join in *. by apply Dir_render_rel.
Qed.

Lemma Split_no_dotdot rel :
  strings.Contains rel filepath.dotdot = false ->
  Forall (fun e => e <> filepath.dotdot) (strings.Split rel filepath.Separator).
Proof.
  intros H. apply Forall_forall. intros e He ->.
  apply Split_elem_infix in He as (a & b & ->).
  by rewrite Contains_intro in H.
Qed.

(** Without [..] in the relative path the target stays under the root. *)
Lemma canon_Join_root_confined rel :
  strings.Contains rel filepath.dotdot = false ->
  filepath.canon (filepath.Join [projectRoot; rel])
  = (false, root_elems ++ List.filter kept (strings.Split rel filepath.Separator)).
Proof.
  intros H. rewrite canon_Join_root.
  rewrite clean_go_no_dotdot by (by apply Split_no_dotdot).
  by rewrite rev_involutive.
Qed.

(** Every element of the target comes from the root or from the path. *)
Lemma canon_Join_root_elems rel e m :
  e ∈ (filepath.canon (filepath.Join [projectRoot; rel])).2 ->
  strings.Contains e m = true ->
  strings.Contains projectRoot m = true \/ strings.Contains rel m = true.
Proof.
  rewrite canon_Join_root. cbn [snd]. intros [H|H]%clean_go_subset Hm.
  - left. apply elem_of_rev_1 in H.
    assert (exists a b, projectRoot = a ++ e ++ b) as (a & b & ->).
    { apply (Split_elem_infix filepath.Separator). exact H. }
    by apply Contains_infix.
  - right. apply Split_elem_infix in H as (a & b & ->). by apply Contains_infix.
Qed.

End TargetFacts.

Section OsFacts.
Implicit Types fs : gmap os.key os.node.
Implicit Types k t : os.key.
Implicit Types es rp : list gostr.

Lemma above_refl k : above k k.
Proof. by split. Qed.

Lemma above_trans k1 k2 k3 : above k1 k2 -> above k2 k3 -> above k1 k3.
Proof. intros [? ?] [? ?]. split; [congruence|by etrans]. Qed.

Lemma parent_above k : above (os.parent k) k.
Proof.
  split; [done|]. destruct k as [r es]. simpl.
  destruct es as [|e es _] using rev_ind; [done|].
  rewrite removelast_last. by apply prefix_app_r.
Qed.

Lemma node_at_lookup fs1 fs2 k :
  fs1 !! k = fs2 !! k -> os.node_at fs1 k = os.node_at fs2 k.
Proof. unfold os.node_at. by intros ->. Qed.

Lemma walk_ext fs1 fs2 r cur rest :
  (forall es, es `prefix_of` rest ->
     os.node_at fs1 (r, cur ++ es) = os.node_at fs2 (r, cur ++ es)) ->
  os.walk fs1 r cur rest = os.walk fs2 r cur rest.
Proof.
  revert cur. induction rest as [|e rest IH]; intros cur H; simpl.
  - specialize (H [] (prefix_nil _)). rewrite app_nil_r in H. by rewrite H.
  - pose proof (H [] (prefix_nil _)) as H0. rewrite app_nil_r in H0. rewrite H0.
    destruct (os.node_at fs2 (r, cur)) as [[|]|]; try done.
    apply IH. intros es Hes. rewrite <- !app_assoc. simpl.
    apply H. by apply prefix_cons.
Qed.

Lemma lstat_ext fs1 fs2 k :
  (forall k', above k' k -> fs1 !! k' = fs2 !! k') ->
  os.lstat fs1 k = os.lstat fs2 k.
Proof.
  intros H. unfold os.lstat. apply walk_ext. intros es Hes. simpl.
  apply node_at_lookup, H. by split.
Qed.

Lemma walk_snoc fs r cur xs e :
  os.walk fs r cur (xs ++ [e]) =
  match os.walk fs r cur xs with
  | inr os.Directory =>
      match os.node_at fs (r, cur ++ xs ++ [e]) with
      | Some n => inr n
      | None => inl os.ENOENT
      end
  | inr (os.File _) => inl os.ENOTDIR
  | inl er => inl er
  end.
Proof.
  revert cur. induction xs as [|x xs IH]; intros cur; simpl.
  - destruct (os.node_at fs (r, cur)) as [[|]|]; done.
  - destruct (os.node_at fs (r, cur)) as [[|]|]; try done.
    rewrite IH. by rewrite <- !app_assoc.
Qed.

Lemma lstat_snoc fs r es e :
  os.lstat fs (r, es ++ [e]) =
  match os.lstat fs (r, es) with
  | inr os.Directory =>
      match os.node_at fs (r, es ++ [e]) with
      | Some n => inr n
      | None => inl os.ENOENT
      end
  | inr (os.File _) => inl os.ENOTDIR
  | inl er => inl er
  end.
Proof. unfold os.lstat. simpl. by rewrite walk_snoc. Qed.

Lemma lstat_parent fs k :
  k.2 <> [] ->
  os.lstat fs k =
  match os.lstat fs (os.parent k) with
  | inr os.Directory =>
      match os.node_at fs k with
      | Some n => inr n
      | None => inl os.ENOENT
      end
  | inr (os.File _) => inl os.ENOTDIR
  | inl er => inl er
  end.
Proof.
  destruct k as [r es]. simpl. intros Hne.
  destruct es as [|e es _] using rev_ind; [done|].
  unfold os.parent. simpl. rewrite removelast_last. apply lstat_snoc.
Qed.

Lemma lstat_top fs r : os.lstat fs (r, []) = inr os.Directory.
Proof. done. Qed.

(** A file that [lstat] finds is an entry of the tree. *)
Lemma lstat_File fs k c : os.lstat fs k = inr (os.File c) -> fs !! k = Some (os.File c).
Proof.
  destruct k as [r es]. destruct es as [|e es _] using rev_ind; [done|].
  rewrite lstat_snoc. destruct (os.lstat fs (r, es)) as [|[|]]; try done.
  unfold os.node_at. destruct (os.implicit _); [done|].
  destruct (fs !! _) as [n|]; [|done]. by intros [= ->].
Qed.

Lemma lstat_File_parent fs k c :
  os.lstat fs k = inr (os.File c) -> os.lstat fs (os.parent k) = inr os.Directory.
Proof.
  destruct k as [r es]. destruct es as [|e es _] using rev_ind; [done|].
  unfold os.parent. simpl. rewrite removelast_last, lstat_snoc.
  by destruct (os.lstat fs (r, es)) as [|[|]].
Qed.

(** ** What each system call may change *)

Lemma mkdir_frame fs k fs' e :
  os.mkdir fs k = (fs', e) ->
  (fs' = fs /\ e <> None) \/
  (fs' = <[k := os.Directory]> fs /\ fs !! k = None /\ e = None /\
   os.lstat fs (os.parent k) = inr os.Directory).
Proof.
  unfold os.mkdir.
  destruct (os.lstat fs (os.parent k)) as [er|[c|]] eqn:Ep.
  1,2: intros [= <- <-]; by left.
  destruct (os.lstat fs k) as [er|n] eqn:Ek.
  2: intros [= <- <-]; by left.
  intros [= <- <-]. right. repeat split; try done.
  destruct (decide (k.2 = [])) as [Hnil|Hne].
  - destruct k as [r es]. simpl in Hnil. subst es. done.
  - rewrite lstat_parent, Ep in Ek by done.
    unfold os.node_at in Ek. destruct (os.implicit k); [done|].
    by destruct (fs !! k).
Qed.

Lemma mkdir_all_frame r rp fs fs' e :
  os.mkdir_all r rp fs = (fs', e) ->
  forall k, fs' !! k = fs !! k \/
            (above k (r, rev rp) /\ fs !! k = None /\ fs' !! k = Some os.Directory).
Proof.
  revert fs' e. induction rp as [|x rp IH]; intros fs' e; simpl.
  - intros [= <- <-] k. by left.
  - destruct (os.lstat fs (r, rev rp ++ [x])) as [er|[c|]].
    2,3: intros [= <- <-] k; by left.
    destruct (os.mkdir_all r rp fs) as [fs1 [e1|]] eqn:E1.
    + intros [= <- <-] k. destruct (IH _ _ eq_refl k) as [?|(Ha & ? & ?)]; [by left|].
      right. split; [|done]. eapply above_trans; [exact Ha|].
      split; [done|]. by apply prefix_app_r.
    + destruct (os.mkdir fs1 (r, rev rp ++ [x])) as [fs2 e2] eqn:E2.
      assert (forall k, fs2 !! k = fs !! k \/
                (above k (r, rev rp ++ [x]) /\ fs !! k = None /\ fs2 !! k = Some os.Directory)) as Hfs2.
      { intros k. apply mkdir_frame in E2 as [[-> _]|(-> & Hnone & _ & _)].
        - destruct (IH _ _ eq_refl k) as [?|(Ha & ? & ?)]; [by left|].
          right. split; [|done]. eapply above_trans; [exact Ha|].
          split; [done|]. by apply prefix_app_r.
        - destruct (decide (k = (r, rev rp ++ [x]))) as [->|Hk].
          + rewrite lookup_insert_eq.
            destruct (IH _ _ eq_refl (r, rev rp ++ [x])) as [Heq|(_ & Hn & Hd)].
            * right. split; [apply above_refl|]. by rewrite <- Heq.
            * congruence.
          + rewrite lookup_insert_ne by done.
            destruct (IH _ _ eq_refl k) as [?|(Ha & ? & ?)]; [by left|].
            right. split; [|done]. eapply above_trans; [exact Ha|].
            split; [done|]. by apply prefix_app_r. }
      destruct e2 as [e2|].
      * destruct (os.lstat fs2 (r, rev rp ++ [x])) as [|[|]]; intros [= <- <-]; exact Hfs2.
      * intros [= <- <-]. exact Hfs2.
Qed.

Lemma write_file_frame fs k data fs' e :
  os.write_file fs k data = (fs', e) ->
  (fs' = fs /\ e <> None) \/ (fs' = <[k := os.File data]> fs /\ e = None).
Proof.
  unfold os.write_file.
  destruct (os.lstat fs k) as [er|[c|]].
  - destruct (os.lstat fs (os.parent k)) as [er'|[c|]]; intros [= <- <-];
      (by left) || (by right).
  - intros [= <- <-]. by right.
  - intros [= <- <-]. by left.
Qed.

Lemma remove_frame fs k fs' e :
  os.remove fs k = (fs', e) ->
  (fs' = fs /\ e <> None) \/ (fs' = delete k fs /\ e = None).
Proof.
  unfold os.remove.
  destruct (os.lstat fs k) as [er|[c|]].
  - intros [= <- <-]. by left.
  - intros [= <- <-]. by right.
  - destruct (os.implicit k); [intros [= <- <-]; by left|].
    destruct (os.has_entry_below fs k); intros [= <- <-];
      (by left) || (by right).
Qed.

Lemma remove_absent fs k :
  os.lstat fs k = inl os.ENOENT -> os.remove fs k = (fs, Some os.ENOENT).
Proof. unfold os.remove. by intros ->. Qed.

(** ** [MkdirAll] where nothing is in the way *)

Lemma mkdir_all_present fs r es :
  os.lstat fs (r, es) = inr os.Directory ->
  os.mkdir_all r (rev es) fs = (fs, None).
Proof.
  intros H. destruct (rev es) as [|x rp] eqn:E; [done|].
  assert (es = rev rp ++ [x]) as ->.
  { rewrite <- (rev_involutive es), E. done. }
  simpl. by rewrite H.
Qed.

Lemma mkdir_all_ok r rp fs :
  (forall es c, es `prefix_of` rev rp -> os.node_at fs (r, es) <> Some (os.File c)) ->
  exists fs', os.mkdir_all r rp fs = (fs', None) /\
              os.lstat fs' (r, rev rp) = inr os.Directory.
Proof.
  induction rp as [|x rp IH]; intros Hfree.
  - by exists fs.
  - simpl in *.
    destruct (os.lstat fs (r, rev rp ++ [x])) as [er|[c|]] eqn:Ek.
    + destruct IH as (fs1 & E1 & Hdir).
      { intros es c Hes. apply Hfree. by apply prefix_app_r. }
      rewrite E1.
      destruct (os.mkdir fs1 (r, rev rp ++ [x])) as [fs2 e2] eqn:E2.
      pose proof E2 as Hm. apply mkdir_frame in Hm as [[-> He2]|(-> & Hn & -> & _)].
      * destruct e2 as [e2|]; [|done].
        unfold os.mkdir in E2. unfold os.parent in E2. simpl in E2.
        rewrite removelast_last, Hdir in E2.
        destruct (os.lstat fs1 (r, rev rp ++ [x])) as [er1|n] eqn:Ek1; [done|].
        rewrite lstat_snoc, Hdir in Ek1.
        destruct (os.node_at fs1 (r, rev rp ++ [x])) as [n'|] eqn:En; [|done].
        injection Ek1 as ->.
        assert (os.node_at fs1 (r, rev rp ++ [x]) = os.node_at fs (r, rev rp ++ [x])) as Hsame.
        { apply node_at_lookup.
          destruct (mkdir_all_frame _ _ _ _ _ E1 (r, rev rp ++ [x])) as [?|([_ Hp] & _)]; [done|].
          simpl in Hp. apply prefix_length in Hp. rewrite length_app in Hp. simpl in Hp. lia. }
        destruct n as [c|].
        -- exfalso. apply (Hfree (rev rp ++ [x]) c); [done|]. by rewrite <- Hsame.
        -- exists fs1. split; [done|]. by rewrite lstat_snoc, Hdir, En.
      * exists (<[(r, rev rp ++ [x]) := os.Directory]> fs1). split; [done|].
        rewrite lstat_snoc.
        assert (os.lstat (<[(r, rev rp ++ [x]) := os.Directory]> fs1) (r, rev rp)
                = os.lstat fs1 (r, rev rp)) as ->.
        { apply lstat_ext. intros k' [_ Hp]. apply lookup_insert_ne.
          intros <-. simpl in Hp. apply prefix_length in Hp.
          rewrite length_app in Hp. simpl in Hp. lia. }
        rewrite Hdir. unfold os.node_at. rewrite lookup_insert_eq.
        by destruct (os.implicit _).
    + exfalso. apply (Hfree (rev rp ++ [x]) c); [done|].
      rewrite lstat_snoc in Ek.
      destruct (os.lstat fs (r, rev rp)) as [|[|]]; try done.
      by destruct (os.node_at fs (r, rev rp ++ [x])) as [[|]|]; simplify_eq.
    + by exists fs.
Qed.

End OsFacts.

Section BodyFacts.
Implicit Types rev : revision.
Implicit Types act : Action.
Implicit Types w : os.world.

Ltac run := unfold mbind, go_bind, bind, mret, go_ret, ret, logf, try,
              try_unless_not_exist, os.MkdirAll, os.WriteFile, os.Remove,
              os.record, os.Printf, with_output; cbn [fst snd os.files os.calls os.output].

Lemma body_protected rev act w :
  is_protected rev act = true ->
  exists out, body_of rev act w = (with_output w out, inr tt).
Proof.
  unfold is_protected. destruct rev as [|np]; cbn [body_of checked_path]; intros H.
  - unfold MainGo.applyEdits_body. change (str "SidePanel") with marker.
    rewrite H. run. by eexists.
  - unfold Part001.applyEdits_body. change (str "SidePanel") with marker.
    rewrite H. run. case_bool_decide; run; by eexists.
Qed.

Lemma body_dangerous rev act w :
  is_dangerous rev act = true ->
  exists out, body_of rev act w = (with_output w out, inr tt).
Proof.
  destruct rev as [|np]; cbn [body_of checked_path is_dangerous]; [done|]. intros H.
  unfold Part001.applyEdits_body.
  change (str "..") with filepath.dotdot. change (str "/") with [filepath.Separator].
  rewrite H. run.
  case_bool_decide; run; destruct (strings.Contains _ (str "SidePanel")); by eexists.
Qed.

Lemma body_perform rev act w :
  is_protected rev act = false -> is_dangerous rev act = false ->
  exists out,
    body_of rev act w =
    (let p := perform (Type' act) (Content act) (fullPath_in rev act) (os.files w) in
     ({| os.files := p.1.1; os.calls := os.calls w ++ p.1.2; os.output := out |},
      result_of p.2)).
Proof.
  unfold is_protected, perform, fullPath_in.
  destruct rev as [|np];
    cbn [body_of checked_path is_dangerous relative_path fst snd]; intros Hp Hd.
  - unfold MainGo.applyEdits_body. change (str "SidePanel") with marker.
    rewrite Hp.
    destruct (streq (Type' act) "create" || streq (Type' act) "update").
    + run. destruct (os.mkdir_all _ _ _) as [fs1 [e1|]]; simpl; [by eexists|].
      destruct (os.write_file _ _ _) as [fs2 [e2|]]; simpl; eexists; by rewrite <- app_assoc.
    + destruct (streq (Type' act) "delete").
      * run. destruct (os.remove _ _) as [fs1 [[]|]]; simpl; by eexists.
      * run. rewrite app_nil_r. by eexists.
  - unfold Part001.applyEdits_body, Part001.fullPath_of.
    change (str "SidePanel") with marker.
    change (str "..") with filepath.dotdot. change (str "/") with [filepath.Separator].
    rewrite Hp, Hd. run.
    case_bool_decide; cbn [os.files os.calls os.output].
    all: destruct (streq (Type' act) "create" || streq (Type' act) "update");
      [ destruct (os.mkdir_all _ _ _) as [fs1 [e1|]]; simpl; [by eexists|];
        destruct (os.write_file _ _ _) as [fs2 [e2|]]; simpl; eexists;
        by rewrite <- app_assoc
      | destruct (streq (Type' act) "delete");
        [ destruct (os.remove _ _) as [fs1 [[]|]]; simpl; by eexists
        | rewrite app_nil_r; by eexists ] ].
Qed.

End BodyFacts.

Section LoopFacts.
Implicit Types rev : revision.
Implicit Types act : Action.
Implicit Types w : os.world.

Lemma for_range_app {A} (xs ys : list A) (body : A -> go unit) w :
  for_range (xs ++ ys) body w =
  match for_range xs body w with
  | (w1, inl e) => (w1, inl e)
  | (w1, inr _) => for_range ys body w1
  end.
Proof.
  revert w. induction xs as [|x xs IH]; intros w; [done|].
  cbn [app for_range]. unfold mbind, go_bind, bind.
  destruct (body x w) as [w1 [e|[]]]; [done|]. apply IH.
Qed.

Lemma for_range_cons {A} (x : A) xs (body : A -> go unit) w :
  for_range (x :: xs) body w =
  match body x w with
  | (w1, inl e) => (w1, inl e)
  | (w1, inr _) => for_range xs body w1
  end.
Proof. done. Qed.

(** A relation between the world before and after that every turn of
    the loop respects holds across the loop. *)
Lemma for_range_respects {A} (R : os.world -> os.world -> Prop)
    (body : A -> go unit) :
  (forall w, R w w) ->
  (forall w1 w2 w3, R w1 w2 -> R w2 w3 -> R w1 w3) ->
  (forall x w w' r, body x w = (w', r) -> R w w') ->
  forall xs w w' r, for_range xs body w = (w', r) -> R w w'.
Proof.
  intros Hrefl Htrans Hstep xs. induction xs as [|x xs IH]; intros w w' r.
  - intros [= <- <-]. apply Hrefl.
  - rewrite for_range_cons. destruct (body x w) as [w1 [e|[]]] eqn:E.
    + intros [= <- <-]. by eapply Hstep.
    + intros H. eapply Htrans; [by eapply Hstep|by eapply IH].
Qed.

Lemma applyEdits_of_loop rev edits w :
  exists out0,
    applyEdits_of rev edits w
    = for_range (Actions edits) (body_of rev) (with_output w out0).
Proof.
  exists (os.output w ++
            [os.Log "Applying %d edit actions"
               [os.ArgInt (Z.of_nat (length (Actions edits)))]]).
  destruct rev as [|np]; cbn [applyEdits_of body_of];
    unfold MainGo.applyEdits, Part001.applyEdits, mbind, go_bind, bind, logf, ret,
      os.Printf, with_output;
    by destruct (for_range _ _ _) as [w1 [e|[]]].
Qed.

(** ** The frame of one action *)

Lemma relative_path_marker rev act m :
  strings.Contains (relative_path rev act) m = true ->
  strings.Contains (checked_path rev act) m = true.
Proof.
  destruct rev as [|np]; cbn [relative_path checked_path]; [done|].
  destruct (TrimPrefix_suffix (np (Path act)) (str "src/")) as [a Ha].
  intros H. rewrite Ha. rewrite <- (app_nil_r (strings.TrimPrefix _ _)).
  by apply Contains_infix.
Qed.

Lemma canon_Dir_fullPath rev act :
  filepath.canon (filepath.Dir (fullPath_in rev act))
  = os.parent (filepath.canon (fullPath_in rev act)).
Proof. apply canon_Dir_Join_root. Qed.

Lemma perform_frame ty content rev act fs fs' cs e :
  perform ty content (fullPath_in rev act) fs = (fs', cs, e) ->
  forall k,
    fs' !! k = fs !! k \/ k = filepath.canon (fullPath_in rev act) \/
    (above k (os.parent (filepath.canon (fullPath_in rev act))) /\
     fs !! k = None /\ fs' !! k = Some os.Directory).
Proof.
  unfold perform. set (t := filepath.canon (fullPath_in rev act)).
  rewrite canon_Dir_fullPath. fold t.
  destruct (streq ty "create" || streq ty "update").
  - destruct (os.mkdir_all _ _ fs) as [fs1 e1] eqn:E1. cbn [fst snd].
    pose proof (mkdir_all_frame _ _ _ _ _ E1) as Hf1.
    rewrite rev_involutive in Hf1.
    replace ((os.parent t).1, (os.parent t).2) with (os.parent t) in Hf1
      by (by destruct (os.parent t)).
    destruct e1 as [e1|]; cbn [os.path_error].
    + intros [= <- <- <-] k. destruct (Hf1 k) as [?|?]; [by left|right; by right].
    + destruct (os.write_file fs1 t content) as [fs2 e2] eqn:E2. cbn [fst snd].
      intros [= <- <- <-] k.
      apply write_file_frame in E2 as [[-> _]|[-> _]].
      * destruct (Hf1 k) as [?|?]; [by left|right; by right].
      * destruct (decide (k = t)) as [->|Hk]; [right; by left|].
        rewrite lookup_insert_ne by done.
        destruct (Hf1 k) as [?|?]; [by left|right; by right].
  - destruct (streq ty "delete").
    + destruct (os.remove fs t) as [fs1 e1] eqn:E1. cbn [fst snd].
      intros [= <- <- <-] k.
      apply remove_frame in E1 as [[-> _]|[-> _]]; [by left|].
      destruct (decide (k = t)) as [->|Hk]; [right; by left|].
      left. by rewrite lookup_delete_ne.
    + intros [= <- <- <-] k. by left.
Qed.

(** One turn of the loop either leaves the tree alone or acts at the
    full path of the action. *)
Lemma body_frame rev act w w' r :
  body_of rev act w = (w', r) ->
  os.files w' = os.files w \/
  (is_protected rev act = false /\ is_dangerous rev act = false /\
   forall k,
     os.files w' !! k = os.files w !! k \/
     k = filepath.canon (fullPath_in rev act) \/
     (above k (os.parent (filepath.canon (fullPath_in rev act))) /\
      os.files w !! k = None /\ os.files w' !! k = Some os.Directory)).
Proof.
  intros H.
  destruct (is_protected rev act) eqn:Hp.
  { destruct (body_protected rev act w Hp) as [out Ho].
    rewrite Ho in H. injection H as <- <-. by left. }
  destruct (is_dangerous rev act) eqn:Hd.
  { destruct (body_dangerous rev act w Hd) as [out Ho].
    rewrite Ho in H. injection H as <- <-. by left. }
  destruct (body_perform rev act w Hp Hd) as [out Ho].
  rewrite Ho in H. cbv zeta in H.
  destruct (perform _ _ _ _) as [[fs' cs] e] eqn:E.
  injection H as <- <-. right. split; [done|]. split; [done|].
  cbn [os.files]. by eapply perform_frame.
Qed.

Lemma target_not_protected rev act k :
  is_protected rev act = false ->
  above k (filepath.canon (fullPath_in rev act)) -> ~ protected_key k.
Proof.
  intros Hp [_ Hpre] (e & He & Hm).
  assert (e ∈ (filepath.canon (fullPath_in rev act)).2) as Hin.
  { destruct Hpre as [l ->]. apply elem_of_app. by left. }
  destruct (canon_Join_root_elems _ _ _ Hin Hm) as [H|H]; [done|].
  apply relative_path_marker in H. unfold is_protected in Hp. congruence.
Qed.

Lemma body_keeps_protected rev act w w' r :
  body_of rev act w = (w', r) ->
  forall k, protected_key k -> os.files w' !! k = os.files w !! k.
Proof.
  intros H k Hk.
  destruct (body_frame _ _ _ _ _ H) as [->|(Hp & _ & Hf)]; [done|].
  destruct (Hf k) as [?|[->|(Ha & _)]]; [done| |].
  - exfalso. eapply target_not_protected; [exact Hp|apply above_refl|exact Hk].
  - exfalso. eapply target_not_protected; [exact Hp| |exact Hk].
    eapply above_trans; [exact Ha|apply parent_above].
Qed.

Lemma applyEdits_keeps_protected rev edits w w' r :
  applyEdits_of rev edits w = (w', r) ->
  forall k, protected_key k -> os.files w' !! k = os.files w !! k.
Proof.
  destruct (applyEdits_of_loop rev edits w) as [out0 ->]. intros H k Hk.
  change (os.files w) with (os.files (with_output w out0)).
  revert H. generalize (with_output w out0). intros w0 H.
  apply (for_range_respects
           (fun w1 w2 => os.files w2 !! k = os.files w1 !! k) (body_of rev))
    with (xs := Actions edits) (r := r); [done| | |done].
  - intros w1 w2 w3 H1 H2. congruence.
  - intros x w1 w2 r1 Hb. by eapply body_keeps_protected.
Qed.

End LoopFacts.

Section ActionFacts.
Implicit Types rev : revision.
Implicit Types act : Action.
Implicit Types w : os.world.

Lemma body_passed_over rev act w :
  passed_over rev act = true ->
  exists out, body_of rev act w = (with_output w out, inr tt).
Proof.
  unfold passed_over. intros H.
  destruct (is_protected rev act) eqn:Hp; [by apply body_protected|].
  destruct (is_dangerous rev act) eqn:Hd; [by apply body_dangerous|].
  simpl in H. apply negb_true_iff in H.
  destruct (body_perform rev act w Hp Hd) as [out ->].
  unfold perform, known_type in *.
  apply orb_false_iff in H as [H ->]. rewrite H. cbn.
  exists out. unfold with_output. by rewrite app_nil_r.
Qed.

Lemma body_abort rev act (rest : list Action) w w1 e :
  body_of rev act w = (w1, inl e) ->
  for_range (act :: rest) (body_of rev) w = (w1, inl e).
Proof. intros H. by rewrite for_range_cons, H. Qed.

Lemma perform_delete_absent content full fs :
  os.lstat fs (filepath.canon full) = inl os.ENOENT ->
  perform (str "delete") content full fs = (fs, [os.CallRemove full], None).
Proof.
  intros H. unfold perform.
  change (streq (str "delete") "create" || streq (str "delete") "update") with false.
  change (streq (str "delete") "delete") with true. cbn iota.
  by rewrite remove_absent.
Qed.

Lemma perform_same content full fs :
  perform (str "create") content full fs = perform (str "update") content full fs.
Proof. done. Qed.

Lemma perform_overwrite ty content full fs old :
  ty = str "create" \/ ty = str "update" ->
  filepath.canon (filepath.Dir full) = os.parent (filepath.canon full) ->
  os.lstat fs (filepath.canon full) = inr (os.File old) ->
  perform ty content full fs
  = (<[filepath.canon full := os.File content]> fs,
     [os.CallMkdirAll (filepath.Dir full); os.CallWriteFile full content], None).
Proof.
  intros Hty Hdir Hl. unfold perform.
  assert (streq ty "create" || streq ty "update" = true) as ->.
  { by destruct Hty as [-> | ->]. }
  rewrite Hdir.
  pose proof (lstat_File_parent _ _ _ Hl) as Hpar.
  destruct (os.parent (filepath.canon full)) as [r es] eqn:Ep. cbn [fst snd].
  rewrite (mkdir_all_present _ _ _ Hpar). cbn [fst snd os.path_error].
  unfold os.write_file. by rewrite Hl.
Qed.

Lemma perform_create_missing ty content full fs :
  ty = str "create" \/ ty = str "update" ->
  filepath.canon (filepath.Dir full) = os.parent (filepath.canon full) ->
  os.node_at fs (filepath.canon full) = None ->
  (forall es c, es `prefix_of` (os.parent (filepath.canon full)).2 ->
     os.node_at fs ((filepath.canon full).1, es) <> Some (os.File c)) ->
  exists fs',
    perform ty content full fs
    = (fs', [os.CallMkdirAll (filepath.Dir full); os.CallWriteFile full content], None)
    /\ os.lstat fs' (filepath.canon full) = inr (os.File content).
Proof.
  intros Hty Hdir Hnone Hfree. unfold perform.
  assert (streq ty "create" || streq ty "update" = true) as ->.
  { by destruct Hty as [-> | ->]. }
  rewrite Hdir. set (t := filepath.canon full) in *.
  assert (t.2 <> []) as Hne.
  { intros Hnil. unfold os.node_at, os.implicit in Hnone. by rewrite Hnil in Hnone. }
  assert (os.implicit t = false) as Himp.
  { unfold os.node_at in Hnone. by destruct (os.implicit t). }
  destruct (mkdir_all_ok (os.parent t).1 (rev (os.parent t).2) fs) as (fs1 & E1 & Hd1).
  { intros es c. rewrite rev_involutive. apply Hfree. }
  rewrite rev_involutive in Hd1.
  replace ((os.parent t).1, (os.parent t).2) with (os.parent t) in Hd1
    by (by destruct (os.parent t)).
  rewrite E1. cbn [fst snd os.path_error].
  assert (fs1 !! t = fs !! t) as Hsame.
  { destruct (mkdir_all_frame _ _ _ _ _ E1 t) as [?|([_ Hp] & _)]; [done|].
    rewrite rev_involutive in Hp. cbn [snd] in Hp.
    destruct t as [r es]. cbn [os.parent fst snd] in *.
    destruct es as [|x es _] using rev_ind; [done|].
    rewrite removelast_last in Hp. apply prefix_length in Hp.
    rewrite length_app in Hp. simpl in Hp. lia. }
  assert (os.lstat fs1 t = inl os.ENOENT) as Hl1.
  { rewrite lstat_parent, Hd1 by done. unfold os.node_at in *.
    rewrite Himp in *. by rewrite Hsame, Hnone. }
  unfold os.write_file. rewrite Hl1, Hd1. cbn [fst snd os.path_error].
  eexists. split; [done|].
  rewrite lstat_parent by done.
  assert (os.lstat (<[t := os.File content]> fs1) (os.parent t) = os.lstat fs1 (os.parent t)) as ->.
  { apply lstat_ext. intros k' [_ Hp]. apply lookup_insert_ne. intros <-.
    destruct t as [r es]. cbn [os.parent fst snd] in *.
    destruct es as [|x es _] using rev_ind; [done|].
    rewrite removelast_last in Hp. apply prefix_length in Hp.
    rewrite length_app in Hp. simpl in Hp. lia. }
  rewrite Hd1. unfold os.node_at. rewrite Himp. by rewrite lookup_insert_eq.
Qed.

(** ** Part 001 keeps to the project root *)

Lemma part001_target_within np act :
  is_dangerous (Part001Rev np) act = false ->
  within_root (filepath.canon (fullPath_in (Part001Rev np) act)).
Proof.
  intros Hd. unfold fullPath_in. rewrite canon_Join_root_confined.
  - split; [done|]. by apply prefix_app_r.
  - destruct (strings.Contains (relative_path (Part001Rev np) act) filepath.dotdot) eqn:E; [|done].
    apply relative_path_marker in E. cbn [is_dangerous] in Hd.
    by rewrite E in Hd.
Qed.

Lemma above_root_or_within k t :
  within_root t -> above k t -> within_root k \/ above k (false, root_elems).
Proof.
  intros [Ht1 Ht2] [Hk1 Hk2].
  destruct (prefix_weak_total _ _ _ Ht2 Hk2) as [H|H].
  - left. split; [congruence|done].
  - right. split; [cbn; congruence|done].
Qed.

End ActionFacts.

Example valid1 : json.Valid (quoted "{'actions':[{'type':'update','path':'src/App.tsx','content':'X'}]}") = true.
Proof. vm_compute. reflexivity. Qed.
Example valid2 : json.Valid (quoted " [1, -2.5e+3, true, null, {'a' : {}} , [] ] ") = true.
Proof. vm_compute. reflexivity. Qed.
Example valid3 : json.Valid (quoted "{'a':1,}") = false.
Proof. vm_compute. reflexivity. Qed.
Example valid4 : json.Valid (quoted "{'a':'" ++ esc "u003c" ++ quoted "'}") = true.
Proof. vm_compute. reflexivity. Qed.
Example valid5 : json.Valid (quoted "{'a':'" ++ esc "x" ++ quoted "'}") = false.
Proof. vm_compute. reflexivity. Qed.
Example valid6 : json.Valid (quoted "{'a':01}") = false.
Proof. vm_compute. reflexivity. Qed.
Example valid7 : json.Valid (quoted "{} x") = false.
Proof. vm_compute. reflexivity. Qed.

Section SanitizerFacts.

Lemma cleanAIResponse_unchanged (response : gostr) :
  strings.HasPrefix response (str "{") = true \/
    strings.Contains response (str "{") = false ->
  strings.HasSuffix response (str "}") = true \/
    strings.LastIndex response (str "}") <= 0 ->
  Forall (fun old => strings.Contains response old = false) fixups ->
  Part001.cleanAIResponse response = response.
Proof.
  intros Hstart Hend Hfix. unfold Part001.cleanAIResponse.
  assert (strings.Index response (str "{") <= 0) as Hi.
  { destruct Hstart as [H|H].
    - rewrite Index_HasPrefix by done. lia.
    - rewrite Index_absent by done. lia. }
  assert ((0 <? strings.Index response (str "{")) = false) as ->
    by (apply Z.ltb_ge; lia).
  assert (((0 <? strings.LastIndex response (str "}"))
           && (strings.LastIndex response (str "}") <? strings.len response - 1)) = false) as ->.
  { destruct Hend as [H|H].
    - apply HasSuffix_inv in H as [t ->]. rewrite LastIndex_snoc.
      apply andb_false_iff. right. apply Z.ltb_ge. lia.
    - apply andb_false_iff. left. apply Z.ltb_ge. lia. }
  unfold fixups in Hfix.
  repeat (apply Forall_cons in Hfix as [? Hfix]).
  cbv zeta.
  repeat (rewrite (ReplaceAll_absent response) by done).
  done.
Qed.

End SanitizerFacts.

Section HandlerFacts.
Implicit Types w : os.world.

Lemma print_actions_output (xs : list Action) w :
  exists outs,
    for_range xs MainGoPrototype.print_action w
    = (with_output w (os.output w ++ outs), inr tt).
Proof.
  revert w. induction xs as [|x xs IH]; intros w.
  - exists []. rewrite app_nil_r. by destruct w.
  - rewrite for_range_cons.
    assert (exists o, MainGoPrototype.print_action x w = (with_output w (os.output w ++ o), inr tt)) as [o ->].
    { unfold MainGoPrototype.print_action, mbind, go_bind, bind, printf, ret, os.Printf, with_output.
      cbn [os.files os.calls os.output].
      destruct (streq (Type' x) "create" || streq (Type' x) "update"),
        (streq (Type' x) "delete"); cbn [os.files os.calls os.output];
        rewrite <- ?app_assoc; by eexists. }
    destruct (IH (with_output w (os.output w ++ o))) as [outs ->].
    exists (o ++ outs). unfold with_output. cbn [os.files os.calls os.output].
    by rewrite app_assoc.
Qed.

Lemma callOllama_passes json_Unmarshal content edits w :
  json_Unmarshal content = Some edits ->
  0 < Z.of_nat (length (Actions edits)) ->
  exists outs,
    MainGoPrototype.callOllama json_Unmarshal (inr content) w
    = (with_output w (os.output w ++ outs), inr (capped edits)) /\
    (100 < Z.of_nat (length (Actions edits)) ->
       os.Log "AI returned too many actions, limiting to 100" [] ∈ outs) /\
    (50 < Z.of_nat (length (Actions edits)) <= 100 ->
       os.Log "AI returned a large number of actions, consider reviewing them carefully" [] ∈ outs).
Proof.
  intros Hdec Hpos. unfold MainGoPrototype.callOllama. rewrite Hdec.
  unfold mbind, go_bind, bind, logf, printf, os.Printf.
  cbn [os.files os.calls os.output].
  match goal with |- context [for_range _ _ ?w0] =>
    destruct (print_actions_output (Actions edits) w0) as [po ->] end.
  unfold with_output, ret, fail. cbn [os.files os.calls os.output].
  assert ((Z.of_nat (length (Actions edits)) =? 0) = false) as -> by (apply Z.eqb_neq; lia).
  unfold capped.
  destruct (100 <? Z.of_nat (length (Actions edits))) eqn:E100.
  - apply Z.ltb_lt in E100. cbn [os.files os.calls os.output Actions].
    assert ((Z.of_nat (length (take 100 (Actions edits))) =? 0) = false) as ->.
    { apply Z.eqb_neq. rewrite length_take. lia. }
    eexists. split; [by rewrite <- !app_assoc|]. split; [|lia].
    intros _. set_solver.
  - apply Z.ltb_ge in E100.
    destruct (50 <? Z.of_nat (length (Actions edits))) eqn:E50;
      cbn [os.files os.calls os.output Actions].
    + assert ((Z.of_nat (length (Actions edits)) =? 0) = false) as -> by (apply Z.eqb_neq; lia).
      eexists. split; [by rewrite <- !app_assoc|]. split; [lia|].
      intros _. set_solver.
    + apply Z.ltb_ge in E50.
      assert ((Z.of_nat (length (Actions edits)) =? 0) = false) as -> by (apply Z.eqb_neq; lia).
      eexists. split; [by rewrite <- !app_assoc|]. split; lia.
Qed.

Lemma callOllama_empty json_Unmarshal content w :
  json_Unmarshal content = Some {| Actions := [] |} ->
  exists outs,
    MainGoPrototype.callOllama json_Unmarshal (inr content) w
    = (with_output w (os.output w ++ outs), inl (Errorf "no actions returned by AI")).
Proof.
  intros Hdec. unfold MainGoPrototype.callOllama. rewrite Hdec.
  unfold mbind, go_bind, bind, logf, printf, os.Printf, fail, ret, with_output.
  cbn. change (Z.of_nat 0 =? 0) with true. cbn.
  eexists. by rewrite <- !app_assoc.
Qed.

Lemma prototype_handleEdit_arrives json_Unmarshal r content w :
  arrives r content ->
  MainGoPrototype.handleEdit json_Unmarshal r w =
  match MainGoPrototype.callOllama json_Unmarshal (inr content) w with
  | (w1, inl err) => (w1, HttpError (ErrorText err) StatusInternalServerError)
  | (w1, inr ollamaResp) =>
      match MainGoPrototype.applyEdits ollamaResp w1 with
      | (w2, inl err) => (w2, HttpError (ErrorText err) StatusInternalServerError)
      | (w2, inr _) => (w2, HttpJSON "success" None)
      end
  end.
Proof.
  intros (Hm & (req & Hb) & (ctx & Hc) & Hcomp).
  unfold MainGoPrototype.handleEdit. rewrite Hm, Hb, Hc, Hcomp. done.
Qed.

Lemma part001_handleEdit_delivers np json_Unmarshal r content w :
  delivers r content ->
  Part001.handleEdit np json_Unmarshal r w =
  let aiResponse := Part001.cleanAIResponse content in
  let cleanedResponse := Part001.cleanAIResponse aiResponse in
  match json_Unmarshal cleanedResponse with
  | None =>
      (with_output w
         (os.output w ++
          [os.Log "Failed to parse AI response as JSON: %v" [];
           os.Log "Original response: %s" [os.ArgStr aiResponse];
           os.Log "Cleaned response: %s" [os.ArgStr cleanedResponse]]),
       HttpError (Text "Failed to parse AI response as JSON: %v\nOriginal Response: %s")
         StatusInternalServerError)
  | Some edits =>
      match Part001.applyEdits np edits w with
      | (w', inl err) => (w', HttpError (ErrorText err) StatusInternalServerError)
      | (w', inr _) =>
          (w', HttpJSON "success" (Some (Z.of_nat (length (Actions edits)))))
      end
  end.
Proof.
  intros [(Hm & (req & Hb) & (ctx & Hc) & Hcomp) Hprov].
  specialize (Hprov req Hb).
  unfold Part001.handleEdit. rewrite Hm, Hb, Hc, Hcomp.
  change (negb (streq (str "POST") "POST")) with false. cbv iota.
  assert ((if streq (Provider req) "openrouter"
           then Some (Part001.callOpenRouter (inr content))
           else if streq (Provider req) "ollama"
                then Some (Part001.callOllama (inr content)) else None)
          = Some (inr (Part001.cleanAIResponse content))) as ->.
  { destruct Hprov as [-> | ->]; done. }
  cbv zeta. destruct (json_Unmarshal _); [done|].
  unfold os.Printf, with_output. cbn [os.files os.calls os.output].
  by rewrite <- !app_assoc.
Qed.

(** A [handleEdit] of part 001 that answers with the JSON object has
    decoded a batch and applied it without error. *)
Lemma part001_handleEdit_success np json_Unmarshal r w w' status applied :
  Part001.handleEdit np json_Unmarshal r w = (w', HttpJSON status applied) ->
  exists content edits,
    completion r = inr content /\
    json_Unmarshal (Part001.cleanAIResponse (Part001.cleanAIResponse content)) = Some edits /\
    Part001.applyEdits np edits w = (w', inr tt) /\
    status = "success"%string /\
    applied = Some (Z.of_nat (length (Actions edits))).
Proof.
  unfold Part001.handleEdit.
  destruct (negb (streq (Method r) "POST")); [done|].
  destruct (Body r) as [|req]; [done|].
  destruct (contextJSON r) as [|ctx]; [done|].
  assert (forall (x : goerror + gostr) called,
            called = Part001.callOpenRouter x \/ called = Part001.callOllama x ->
            called = match x with inl e => inl e | inr c => inr (Part001.cleanAIResponse c) end) as Hcall.
  { intros x called [-> | ->]; done. }
  set (called := if streq (Provider req) "openrouter" then _ else _).
  assert (called = None \/ called = Some (match completion r with
                                          | inl e => inl e
                                          | inr c => inr (Part001.cleanAIResponse c) end)) as [-> | ->].
  { subst called. destruct (streq (Provider req) "openrouter"); [right; f_equal; by apply Hcall; left|].
    destruct (streq (Provider req) "ollama"); [right; f_equal; by apply Hcall; right|by left]. }
  { done. }
  destruct (completion r) as [|content]; [done|].
  destruct (json_Unmarshal _) as [edits|] eqn:Hdec; [|done].
  destruct (Part001.applyEdits np edits w) as [w1 [err|[]]] eqn:Happ; [done|].
  intros [= <- <- <-]. by exists content, edits.
Qed.

(** A batch whose every action is passed over leaves tree and calls as
    they were. *)
Lemma for_range_passed_over rev (xs : list Action) w :
  Forall (fun act => passed_over rev act = true) xs ->
  exists out, for_range xs (body_of rev) w = (with_output w out, inr tt).
Proof.
  revert w. induction xs as [|x xs IH]; intros w H.
  - exists (os.output w). by destruct w.
  - apply Forall_cons in H as [Hx H]. rewrite for_range_cons.
    destruct (body_passed_over rev x w Hx) as [o ->].
    destruct (IH (with_output w o) H) as [out ->]. by exists out.
Qed.

End HandlerFacts.

Section Outcome.
Implicit Types rev : revision.
Implicit Types act : Action.
Implicit Types w : os.world.

Lemma body_outcome rev act w :
  exists out,
    body_of rev act w =
    (world_of (outcome rev act (os.files w)).1.1
       (os.calls w ++ (outcome rev act (os.files w)).1.2) out,
     result_of (outcome rev act (os.files w)).2).
Proof.
  unfold outcome.
  destruct (is_protected rev act) eqn:Hp.
  { destruct (body_protected rev act w Hp) as [out ->]. exists out.
    cbn. unfold with_output, world_of. by rewrite app_nil_r. }
  destruct (is_dangerous rev act) eqn:Hd.
  { destruct (body_dangerous rev act w Hd) as [out ->]. exists out.
    cbn. unfold with_output, world_of. by rewrite app_nil_r. }
  destruct (body_perform rev act w Hp Hd) as [out ->]. by exists out.
Qed.

Lemma same_outcome_same_effect rev a1 a2 w :
  outcome rev a1 (os.files w) = outcome rev a2 (os.files w) ->
  exists fs' cs res out1 out2,
    body_of rev a1 w = (world_of fs' cs out1, res) /\
    body_of rev a2 w = (world_of fs' cs out2, res).
Proof.
  intros H.
  destruct (body_outcome rev a1 w) as [o1 H1], (body_outcome rev a2 w) as [o2 H2].
  rewrite H in H1. by eexists _, _, _, o1, o2.
Qed.

Lemma body_error rev act w w1 e :
  body_of rev act w = (w1, inl e) ->
  passed_over rev act = false /\ exists pe, e = PathErr pe.
Proof.
  intros H. split.
  - destruct (passed_over rev act) eqn:E; [|done].
    destruct (body_passed_over rev act w E) as [out Ho]. congruence.
  - destruct (body_outcome rev act w) as [out Ho]. rewrite Ho in H.
    destruct (outcome rev act (os.files w)).2 as [pe|]; [|done].
    injection H as _ <-. by exists pe.
Qed.

End Outcome.

(** * Facts about the rest of the code *)

Section SanitizerStages.

Lemma cleanAIResponse_stages response :
  Part001.cleanAIResponse response = rewritten (trimmed response).
Proof. reflexivity. Qed.

Lemma index_from_byte i pre c t :
  c ∉ pre -> strings.index_from i (pre ++ c :: t) [c] = i + Z.of_nat (length pre).
Proof.
  revert i. induction pre as [|x pre IH]; intros i Hc.
  - cbn. rewrite bool_decide_eq_true_2 by done. cbn. lia.
  - apply not_elem_of_cons in Hc as [Hx Hc].
    cbn [app strings.index_from strings.HasPrefix].
    rewrite bool_decide_eq_false_2 by done. cbn [andb].
    rewrite IH by done. cbn [length]. lia.
Qed.

Lemma Index_byte pre c t :
  c ∉ pre -> strings.Index (pre ++ c :: t) [c] = Z.of_nat (length pre).
Proof. intros. unfold strings.Index. by rewrite index_from_byte. Qed.

Lemma LastIndex_byte a c e :
  c ∉ e -> strings.LastIndex (a ++ c :: e) [c] = Z.of_nat (length a).
Proof.
  intros. unfold strings.LastIndex. by rewrite last_index_from_sep.
Qed.

Lemma trimmed_delimited pre body post :
  "{"%char ∉ pre -> "}"%char ∉ post ->
  trimmed (pre ++ str "{" ++ body ++ str "}" ++ post) = str "{" ++ body ++ str "}".
Proof.
  intros Hpre Hpost. unfold trimmed.
  change (str "{") with ["{"%char]. change (str "}") with ["}"%char].
  cbn [app].
  rewrite Index_byte by done.
  assert ((if 0 <? Z.of_nat (length pre)
           then strings.slice_from (pre ++ "{"%char :: body ++ "}"%char :: post)
                  (Z.of_nat (length pre))
           else pre ++ "{"%char :: body ++ "}"%char :: post)
          = "{"%char :: body ++ "}"%char :: post) as ->.
  { destruct pre as [|x pre]; [done|].
    case_match eqn:E; [|apply Z.ltb_ge in E; cbn [length] in E; lia].
    unfold strings.slice_from. rewrite Nat2Z.id. by rewrite drop_app_length. }
  cbv zeta.
  change ("{"%char :: body ++ "}"%char :: post)
    with (("{"%char :: body) ++ "}"%char :: post).
  rewrite LastIndex_byte by done.
  assert ((0 <? Z.of_nat (length ("{"%char :: body))) = true) as ->
    by (apply Z.ltb_lt; cbn [length]; lia).
  cbn [andb]. unfold strings.len, strings.slice_to.
  replace (("{"%char :: body) ++ "}"%char :: post)
    with (("{"%char :: body ++ ["}"%char]) ++ post)
    by (cbn [app]; by rewrite <- app_assoc).
  case_match eqn:E.
  - replace (Z.to_nat (Z.of_nat (length ("{"%char :: body)) + 1))
      with (length ("{"%char :: body ++ ["}"%char]))
      by (cbn [length]; rewrite length_app; cbn [length]; lia).
    by rewrite take_app_length.
  - apply Z.ltb_ge in E. rewrite length_app in E. cbn [length] in E.
    rewrite length_app in E. cbn [length] in E.
    destruct post as [|y post]; [by rewrite app_nil_r|]. cbn [length] in E. lia.
Qed.

(** ** The replacements never lengthen the text *)

Lemma HasPrefix_length s p :
  strings.HasPrefix s p = true -> (length p <= length s)%nat.
Proof. intros [t ->]%HasPrefix_inv. rewrite length_app. lia. Qed.

Lemma replace_go_length k s old new :
  old <> [] -> (length new <= length old)%nat ->
  (length (strings.replace_go k s old new) + Nat.min k (length s) <= length s)%nat.
Proof.
  intros Ho Hn. revert k. induction s as [|c s IH]; intros k.
  - cbn. lia.
  - destruct k as [|k]; cbn [strings.replace_go].
    + destruct (strings.HasPrefix (c :: s) old) eqn:E.
      * apply HasPrefix_length in E. cbn [length] in *.
        specialize (IH (Nat.pred (length old))).
        rewrite length_app. destruct old as [|o old]; [done|].
        cbn [length Nat.pred] in *. lia.
      * specialize (IH 0%nat). cbn [length]. lia.
    + specialize (IH k). cbn [length]. lia.
Qed.

Lemma ReplaceAll_length s old new :
  old <> [] -> (length new <= length old)%nat ->
  (length (strings.ReplaceAll s old new) <= length s)%nat.
Proof.
  intros Ho Hn. destruct old as [|o old]; [done|].
  cbn [strings.ReplaceAll].
  pose proof (replace_go_length 0 s (o :: old) new Ho Hn). lia.
Qed.

Lemma rewritten_length s : (length (rewritten s) <= length s)%nat.
Proof.
  unfold rewritten. cbv zeta.
  repeat (etrans; [apply ReplaceAll_length; [done|vm_compute; lia]|]).
  done.
Qed.

Lemma trimmed_length s : (length (trimmed s) <= length s)%nat.
Proof.
  unfold trimmed. cbv zeta. unfold strings.slice_from, strings.slice_to.
  repeat case_match; rewrite ?length_take, ?length_drop; lia.
Qed.

(** ** The first byte *)

Lemma replace_go_head c s old new :
  strings.HasPrefix [c] (take 1 old) = false ->
  strings.replace_go 0 (c :: s) old new = c :: strings.replace_go 0 s old new.
Proof.
  intros H. cbn [strings.replace_go].
  destruct (strings.HasPrefix (c :: s) old) eqn:E; [|done].
  destruct old as [|o old]; [done|].
  cbn in H, E. destruct (bool_decide (c = o)); [done|]. done.
Qed.

Lemma rewritten_head s :
  rewritten ("{"%char :: s) = "{"%char :: rewritten s.
Proof.
  unfold rewritten. cbv zeta. unfold strings.ReplaceAll, esc, str.
  cbn [list_ascii_of_string].
  by rewrite !replace_go_head by done.
Qed.

Lemma Contains_byte_split s c :
  strings.Contains s [c] = true -> exists a b, s = a ++ c :: b /\ c ∉ a.
Proof.
  induction s as [|x s IH]; [done|].
  destruct (decide (x = c)) as [->|Hx].
  - intros _. exists [], s. split; [done|]. apply not_elem_of_nil.
  - cbn. rewrite bool_decide_eq_false_2 by done. cbn. intros H.
    destruct (IH H) as (a & b & -> & Ha).
    exists (x :: a), b. split; [done|].
    apply not_elem_of_cons. split; [congruence|done].
Qed.

Lemma trimmed_head s :
  strings.Contains s (str "{") = true ->
  exists t, trimmed s = "{"%char :: t.
Proof.
  intros H. change (str "{") with ["{"%char] in H.
  apply Contains_byte_split in H as (a & b & -> & Ha).
  unfold trimmed. change (str "{") with ["{"%char].
  rewrite Index_byte by done.
  assert ((if 0 <? Z.of_nat (length a)
           then strings.slice_from (a ++ "{"%char :: b) (Z.of_nat (length a))
           else a ++ "{"%char :: b) = "{"%char :: b) as ->.
  { destruct a as [|x a]; [done|].
    case_match eqn:E; [|apply Z.ltb_ge in E; cbn [length] in E; lia].
    unfold strings.slice_from. rewrite Nat2Z.id. by rewrite drop_app_length. }
  cbv zeta. case_match eqn:E; [|by eexists].
  apply andb_true_iff in E as [E1%Z.ltb_lt _].
  unfold strings.slice_to.
  destruct (Z.to_nat (strings.LastIndex ("{"%char :: b) (str "}") + 1)) as [|n] eqn:En; [lia|].
  cbn [take]. by eexists.
Qed.

End SanitizerStages.

Section TreeAfter.

Lemma lstat_implicit fs k : os.implicit k = true -> os.lstat fs k = inr os.Directory.
Proof.
  destruct k as [r es]. induction es as [|e es IH] using rev_ind; [done|].
  unfold os.implicit. cbn [snd]. rewrite forallb_app. intros [H1 H2]%andb_true_iff.
  rewrite lstat_snoc, (IH H1). unfold os.node_at, os.implicit. cbn [snd].
  by rewrite forallb_app, H1, H2.
Qed.

Lemma not_above_parent k k' : k.2 <> [] -> above k' (os.parent k) -> k' <> k.
Proof.
  destruct k as [r es]. cbn [snd]. intros Hne [_ Hp] ->.
  cbn [os.parent fst snd] in Hp.
  destruct es as [|x es _] using rev_ind; [done|].
  rewrite removelast_last in Hp. apply prefix_length in Hp.
  rewrite length_app in Hp. simpl in Hp. lia.
Qed.

Lemma lstat_insert_self fs k n :
  os.implicit k = false ->
  os.lstat fs (os.parent k) = inr os.Directory ->
  os.lstat (<[k := n]> fs) k = inr n.
Proof.
  intros Himp Hpar.
  assert (k.2 <> []) as Hne.
  { intros Hnil. unfold os.implicit in Himp. by rewrite Hnil in Himp. }
  rewrite lstat_parent by done.
  assert (os.lstat (<[k := n]> fs) (os.parent k) = os.lstat fs (os.parent k)) as ->.
  { apply lstat_ext. intros k' Hk'. apply lookup_insert_ne. intros <-.
    by apply (not_above_parent k k). }
  rewrite Hpar. unfold os.node_at. by rewrite Himp, lookup_insert_eq.
Qed.

Lemma lstat_delete_self fs k :
  os.implicit k = false ->
  os.lstat fs (os.parent k) = inr os.Directory ->
  os.lstat (delete k fs) k = inl os.ENOENT.
Proof.
  intros Himp Hpar.
  assert (k.2 <> []) as Hne.
  { intros Hnil. unfold os.implicit in Himp. by rewrite Hnil in Himp. }
  rewrite lstat_parent by done.
  assert (os.lstat (delete k fs) (os.parent k) = os.lstat fs (os.parent k)) as ->.
  { apply lstat_ext. intros k' Hk'. apply lookup_delete_ne. intros <-.
    by apply (not_above_parent k k). }
  rewrite Hpar. unfold os.node_at. by rewrite Himp, lookup_delete_eq.
Qed.

Lemma lstat_not_Directory_explicit fs k :
  os.lstat fs k <> inr os.Directory -> os.implicit k = false.
Proof.
  intros H. destruct (os.implicit k) eqn:E; [|done].
  by rewrite lstat_implicit in H.
Qed.

Lemma lstat_parent_Directory fs k n :
  k.2 <> [] -> os.lstat fs k = inr n -> os.lstat fs (os.parent k) = inr os.Directory.
Proof.
  intros Hne. rewrite lstat_parent by done.
  by destruct (os.lstat fs (os.parent k)) as [|[|]].
Qed.

Lemma write_file_ok fs k data fs' :
  os.write_file fs k data = (fs', None) ->
  fs' = <[k := os.File data]> fs /\ os.lstat fs' k = inr (os.File data).
Proof.
  unfold os.write_file. destruct (os.lstat fs k) as [er|[c|]] eqn:E; [| |done].
  - destruct (os.lstat fs (os.parent k)) as [|[|]] eqn:Ep; try done.
    intros [= <-]. split; [done|].
    apply lstat_insert_self; [|done].
    apply (lstat_not_Directory_explicit fs). by rewrite E.
  - intros [= <-]. split; [done|].
    apply lstat_insert_self.
    + apply (lstat_not_Directory_explicit fs). by rewrite E.
    + by apply lstat_File_parent in E.
Qed.

Lemma remove_ok fs k fs' :
  os.remove fs k = (fs', None) ->
  fs' = delete k fs /\ os.lstat fs' k = inl os.ENOENT.
Proof.
  unfold os.remove. destruct (os.lstat fs k) as [er|[c|]] eqn:E; [done| |].
  - intros [= <-]. split; [done|]. apply lstat_delete_self.
    + apply (lstat_not_Directory_explicit fs). by rewrite E.
    + by apply lstat_File_parent in E.
  - destruct (os.implicit k) eqn:Himp; [done|].
    destruct (os.has_entry_below fs k); [done|].
    intros [= <-]. split; [done|]. apply lstat_delete_self; [done|].
    apply (lstat_parent_Directory _ _ os.Directory); [|done].
    intros Hnil. unfold os.implicit in Himp. by rewrite Hnil in Himp.
Qed.

Lemma remove_ENOENT fs k fs' :
  os.remove fs k = (fs', Some os.ENOENT) ->
  fs' = fs /\ os.lstat fs k = inl os.ENOENT.
Proof.
  unfold os.remove. destruct (os.lstat fs k) as [er|[c|]] eqn:E.
  - by intros [= <- ->].
  - done.
  - destruct (os.implicit k); [done|]. by destruct (os.has_entry_below fs k).
Qed.

Lemma perform_write_ok ty content full fs fs' cs :
  ty = str "create" \/ ty = str "update" ->
  perform ty content full fs = (fs', cs, None) ->
  os.lstat fs' (filepath.canon full) = inr (os.File content).
Proof.
  intros Hty. unfold perform.
  assert (streq ty "create" || streq ty "update" = true) as ->.
  { by destruct Hty as [-> | ->]. }
  destruct (os.mkdir_all _ _ fs) as [fs1 [e1|]]; cbn [fst snd os.path_error]; [done|].
  destruct (os.write_file fs1 _ content) as [fs2 [e2|]] eqn:E2;
    cbn [fst snd os.path_error]; [done|].
  intros [= <- _]. by apply write_file_ok in E2 as [_ ?].
Qed.

Lemma perform_delete_ok content full fs fs' cs :
  perform (str "delete") content full fs = (fs', cs, None) ->
  os.lstat fs' (filepath.canon full) = inl os.ENOENT.
Proof.
  unfold perform.
  change (streq (str "delete") "create" || streq (str "delete") "update") with false.
  change (streq (str "delete") "delete") with true. cbv iota.
  destruct (os.remove fs _) as [fs1 [er|]] eqn:E; cbn [fst snd os.path_error].
  - destruct er; cbn [os.IsNotExist os.Err]; try done.
    intros [= <- _]. by apply remove_ENOENT in E as [-> ?].
  - cbn [os.IsNotExist]. intros [= <- _]. by apply remove_ok in E as [_ ?].
Qed.

(** One turn of the loop, read off [outcome]. *)
Lemma body_run rev act w w' r :
  body_of rev act w = (w', r) ->
  os.files w' = (outcome rev act (os.files w)).1.1 /\
  os.calls w' = os.calls w ++ (outcome rev act (os.files w)).1.2 /\
  r = result_of (outcome rev act (os.files w)).2.
Proof.
  destruct (body_outcome rev act w) as [out ->]. by intros [= <- <-].
Qed.

Lemma outcome_checked rev act fs :
  is_protected rev act = false -> is_dangerous rev act = false ->
  outcome rev act fs = perform (Type' act) (Content act) (fullPath_in rev act) fs.
Proof. unfold outcome. by intros -> ->. Qed.

Lemma passed_over_false rev act :
  passed_over rev act = false ->
  is_protected rev act = false /\ is_dangerous rev act = false /\
  known_type (Type' act) = true.
Proof.
  unfold passed_over. intros H.
  apply orb_false_iff in H as [H H3]. apply orb_false_iff in H as [H1 H2].
  apply negb_false_iff in H3. done.
Qed.

Lemma result_of_ok e : result_of e = inr tt -> e = None.
Proof. by destruct e. Qed.

Lemma applyEdits_of_snoc rev xs act w w' r :
  applyEdits_of rev {| Actions := xs ++ [act] |} w = (w', r) ->
  (exists e, r = inl e) \/ exists w1, body_of rev act w1 = (w', inr tt).
Proof.
  destruct (applyEdits_of_loop rev {| Actions := xs ++ [act] |} w) as [out0 ->].
  cbn [Actions]. rewrite for_range_app.
  destruct (for_range xs _ _) as [w1 [e|[]]]; [intros [= <- <-]; left; by eexists|].
  rewrite for_range_cons.
  destruct (body_of rev act w1) as [w2 [e|[]]] eqn:E.
  - intros [= <- <-]. left. by eexists.
  - cbn. intros [= <- <-]. right. by exists w1.
Qed.

Lemma applyEdits_of_single rev act w :
  exists out0,
    applyEdits_of rev {| Actions := [act] |} w = body_of rev act (with_output w out0).
Proof.
  destruct (applyEdits_of_loop rev {| Actions := [act] |} w) as [out0 ->].
  exists out0. cbn [Actions]. rewrite for_range_cons.
  by destruct (body_of rev act _) as [w1 [e|[]]].
Qed.

End TreeAfter.

Section BatchFacts.

Lemma write_action_stored rev act w w' :
  passed_over rev act = false ->
  Type' act = str "create" \/ Type' act = str "update" ->
  body_of rev act w = (w', inr tt) ->
  os.lstat (os.files w') (filepath.canon (fullPath_in rev act))
  = inr (os.File (Content act)).
Proof.
  intros (Hp & Hd & _)%passed_over_false Hty (Hf & _ & Hr)%body_run.
  rewrite outcome_checked in Hf, Hr by done.
  symmetry in Hr. apply result_of_ok in Hr.
  destruct (perform _ _ _ _) as [[fs' cs] e] eqn:E. cbn [fst snd] in *. subst.
  by eapply perform_write_ok.
Qed.

Lemma delete_action_absent rev act w w' :
  passed_over rev act = false ->
  Type' act = str "delete" ->
  body_of rev act w = (w', inr tt) ->
  os.lstat (os.files w') (filepath.canon (fullPath_in rev act)) = inl os.ENOENT.
Proof.
  intros (Hp & Hd & _)%passed_over_false Hty (Hf & _ & Hr)%body_run.
  rewrite outcome_checked in Hf, Hr by done.
  symmetry in Hr. apply result_of_ok in Hr.
  destruct (perform _ _ _ _) as [[fs' cs] e] eqn:E. cbn [fst snd] in *. subst.
  rewrite Hty in E. by eapply perform_delete_ok.
Qed.

Lemma known_type_cases ty :
  known_type ty = true ->
  ty = str "create" \/ ty = str "update" \/ ty = str "delete".
Proof.
  unfold known_type, streq. intros H.
  apply orb_true_iff in H as [H|H]; [apply orb_true_iff in H as [H|H]|];
    apply bool_decide_eq_true_1 in H; auto.
Qed.

(** Running the body again on the tree it left changes nothing. *)
Lemma body_again rev act w w1 :
  body_of rev act w = (w1, inr tt) ->
  exists w2, body_of rev act w1 = (w2, inr tt) /\ os.files w2 = os.files w1.
Proof.
  intros H.
  destruct (passed_over rev act) eqn:Hpo.
  { destruct (body_passed_over rev act w1 Hpo) as [out ->]. by eexists. }
  pose proof Hpo as (Hp & Hd & Hk)%passed_over_false.
  destruct (body_outcome rev act w1) as [out ->].
  rewrite outcome_checked by done.
  apply known_type_cases in Hk as [Hty|[Hty|Hty]].
  1,2: pose proof (write_action_stored rev act w w1 Hpo) as Hl;
       rewrite Hty in Hl; specialize (Hl ltac:(auto) H);
       rewrite (perform_overwrite _ _ _ _ (Content act));
         [|rewrite Hty; auto|apply (canon_Dir_fullPath rev act)|exact Hl];
       cbn [fst snd result_of]; eexists; split; [done|]; cbn [world_of os.files];
       apply insert_id; by apply lstat_File.
  pose proof (delete_action_absent rev act w w1 Hpo Hty H) as Hl.
  rewrite Hty, perform_delete_absent by done.
  cbn [fst snd result_of]. by eexists.
Qed.

Lemma fullPath_in_same_path rev a b : Path a = Path b -> fullPath_in rev a = fullPath_in rev b.
Proof.
  intros H. unfold fullPath_in, relative_path, checked_path.
  destruct rev; by rewrite H.
Qed.

Lemma is_protected_same_path rev a b : Path a = Path b -> is_protected rev a = is_protected rev b.
Proof.
  intros H. unfold is_protected, checked_path. destruct rev; by rewrite H.
Qed.

Lemma is_dangerous_same_path rev a b : Path a = Path b -> is_dangerous rev a = is_dangerous rev b.
Proof.
  intros H. unfold is_dangerous, checked_path. destruct rev; by rewrite ?H.
Qed.

Lemma for_range_footprint rev (xs : list Action) w w' r :
  for_range xs (body_of rev) w = (w', r) ->
  forall k, os.files w' !! k <> os.files w !! k ->
    exists act, act ∈ xs /\ passed_over rev act = false /\
                above k (filepath.canon (fullPath_in rev act)).
Proof.
  revert w. induction xs as [|act xs IH]; intros w.
  - by intros [= <- <-] k Hk.
  - rewrite for_range_cons.
    destruct (body_of rev act w) as [w1 [e|[]]] eqn:E.
    + intros [= <- <-] k Hk. exists act. split; [left|].
      pose proof (body_error _ _ _ _ _ E) as [Hpo _]. split; [done|].
      destruct (body_frame _ _ _ _ _ E) as [Hs|(_ & _ & Hf)]; [congruence|].
      destruct (Hf k) as [?|[->|(Ha & _)]]; [done|apply above_refl|].
      eapply above_trans; [exact Ha|apply parent_above].
    + intros H k Hk.
      assert (os.files w1 !! k = os.files w !! k ->
              exists a, a ∈ act :: xs /\ passed_over rev a = false /\
                        above k (filepath.canon (fullPath_in rev a))) as Hrest.
      { intros Hsame. destruct (IH w1 H k) as (a & Ha & ?); [congruence|].
        exists a. split; [by right|done]. }
      destruct (passed_over rev act) eqn:Hpo.
      { destruct (body_passed_over rev act w Hpo) as [out Eo].
        rewrite Eo in E. injection E as <-. by apply Hrest. }
      destruct (body_frame _ _ _ _ _ E) as [Hs|(_ & _ & Hf)];
        [apply Hrest; congruence|].
      destruct (Hf k) as [?|[->|(Ha & _)]]; [by apply Hrest| |].
      * exists act. split; [left|]. split; [done|apply above_refl].
      * exists act. split; [left|]. split; [done|].
        eapply above_trans; [exact Ha|apply parent_above].
Qed.

Lemma perform_calls ty content full fs :
  Forall (fun c => match c with
                   | os.CallMkdirAll path => path = filepath.Dir full
                   | os.CallWriteFile path _ => path = full
                   | os.CallRemove path => path = full
                   end)
    (perform ty content full fs).1.2.
Proof.
  unfold perform.
  destruct (streq ty "create" || streq ty "update").
  - destruct (os.path_error _ _ _); cbn [fst snd]; by repeat constructor.
  - destruct (streq ty "delete"); cbn [fst snd]; by repeat constructor.
Qed.

Lemma part001_body_calls np act w w' r :
  body_of (Part001Rev np) act w = (w', r) ->
  exists cs, os.calls w' = os.calls w ++ cs /\ Forall call_within cs.
Proof.
  intros (_ & Hc & _)%body_run. eexists. split; [exact Hc|].
  unfold outcome.
  destruct (is_protected _ act) eqn:Hp; [constructor|].
  destruct (is_dangerous _ act) eqn:Hd; [constructor|]. cbn [orb].
  pose proof (part001_target_within np act Hd) as Hwithin.
  eapply Forall_impl; [apply perform_calls|].
  intros [path|path data|path] Hc'; cbn [call_within]; subst path; [|done|done].
  exists (fullPath_in (Part001Rev np) act). split; [done|]. split; [done|].
  rewrite canon_Dir_fullPath.
  set (t := filepath.canon (fullPath_in (Part001Rev np) act)) in *.
  destruct Hwithin as [Ht1 Ht2].
  destruct t as [rt es]. cbn [os.parent fst snd] in *. subst rt.
  destruct (decide (es = root_elems)) as [->|Hne]; [by right|].
  left. split; [done|].
  destruct Ht2 as [rest ->]. destruct rest as [|x rest _] using rev_ind.
  { by rewrite app_nil_r in Hne. }
  cbn [os.parent fst snd]. rewrite app_assoc, removelast_last. by apply prefix_app_r.
Qed.

Lemma part001_loop_calls np (xs : list Action) w w' r :
  for_range xs (body_of (Part001Rev np)) w = (w', r) ->
  exists cs, os.calls w' = os.calls w ++ cs /\ Forall call_within cs.
Proof.
  apply (for_range_respects
           (fun w1 w2 => exists cs, os.calls w2 = os.calls w1 ++ cs /\ Forall call_within cs)
           (body_of (Part001Rev np))).
  - intros w0. exists []. by rewrite app_nil_r.
  - intros w1 w2 w3 (c1 & E1 & F1) (c2 & E2 & F2). exists (c1 ++ c2).
    rewrite E2, E1, app_assoc. split; [done|]. by apply Forall_app.
  - intros act w1 w2 r1. apply part001_body_calls.
Qed.

End BatchFacts.

Section RoundTrip.

Lemma perform_create_in_dir ty content full fs :
  ty = str "create" \/ ty = str "update" ->
  filepath.canon (filepath.Dir full) = os.parent (filepath.canon full) ->
  os.lstat fs (os.parent (filepath.canon full)) = inr os.Directory ->
  os.lstat fs (filepath.canon full) = inl os.ENOENT ->
  perform ty content full fs
  = (<[filepath.canon full := os.File content]> fs,
     [os.CallMkdirAll (filepath.Dir full); os.CallWriteFile full content], None).
Proof.
  intros Hty Hdir Hpar Hl. unfold perform.
  assert (streq ty "create" || streq ty "update" = true) as ->.
  { by destruct Hty as [-> | ->]. }
  rewrite Hdir.
  destruct (os.parent (filepath.canon full)) as [r es] eqn:Ep. cbn [fst snd].
  rewrite (mkdir_all_present _ _ _ Hpar). cbn [fst snd os.path_error].
  unfold os.write_file. rewrite Hl, Ep, Hpar. done.
Qed.

Lemma perform_delete_file content full fs c :
  os.lstat fs (filepath.canon full) = inr (os.File c) ->
  perform (str "delete") content full fs
  = (delete (filepath.canon full) fs, [os.CallRemove full], None).
Proof.
  intros Hl. unfold perform.
  change (streq (str "delete") "create" || streq (str "delete") "update") with false.
  change (streq (str "delete") "delete") with true. cbv iota.
  unfold os.remove. by rewrite Hl.
Qed.

Lemma lstat_ENOENT_lookup fs k :
  os.lstat fs k = inl os.ENOENT ->
  os.lstat fs (os.parent k) = inr os.Directory ->
  fs !! k = None /\ os.implicit k = false.
Proof.
  intros Hl Hpar.
  assert (os.implicit k = false) as Himp.
  { apply (lstat_not_Directory_explicit fs). by rewrite Hl. }
  split; [|done].
  assert (k.2 <> []) as Hne.
  { intros Hnil. unfold os.implicit in Himp. by rewrite Hnil in Himp. }
  rewrite lstat_parent, Hpar in Hl by done.
  unfold os.node_at in Hl. rewrite Himp in Hl. by destruct (fs !! k).
Qed.

End RoundTrip.

Section Revisions.

Lemma Contains_src_marker t :
  strings.Contains (str "src/" ++ t) marker = strings.Contains t marker.
Proof. reflexivity. Qed.

Lemma TrimPrefix_src_marker s :
  strings.Contains (strings.TrimPrefix s (str "src/")) marker = strings.Contains s marker.
Proof.
  unfold strings.TrimPrefix. destruct (strings.HasPrefix s (str "src/")) eqn:E; [|done].
  apply HasPrefix_inv in E as [t ->].
  rewrite drop_app_length. symmetry. apply Contains_src_marker.
Qed.

Lemma clean_go_root_dotdot_src tail :
  filepath.clean_go false (rev root_elems) (filepath.dotdot :: str "src" :: tail)
  = filepath.clean_go false (rev root_elems) tail.
Proof. reflexivity. Qed.

Lemma Join_root_dotdot path :
  filepath.Join [projectRoot; str ".."; path]
  = filepath.Clean (projectRoot ++ filepath.Separator :: str ".." ++ filepath.Separator :: path).
Proof. reflexivity. Qed.

Lemma prototype_src_target p :
  filepath.Join [projectRoot; str ".."; str "src/" ++ p] = filepath.Join [projectRoot; p].
Proof.
  rewrite Join_root_dotdot, Join_root. unfold filepath.Clean.
  apply (f_equal filepath.render).
  rewrite !canon_root_join. apply (f_equal (pair false)).
  change (str ".." ++ filepath.Separator :: str "src/" ++ p)
    with (str ".." ++ filepath.Separator :: (str "src" ++ filepath.Separator :: p)).
  rewrite !Split_app.
  change (strings.Split (str "..") filepath.Separator) with [filepath.dotdot].
  change (strings.Split (str "src") filepath.Separator) with [str "src"].
  cbn [app]. apply clean_go_root_dotdot_src.
Qed.

Ltac run := unfold mbind, go_bind, bind, mret, go_ret, ret, logf, try,
              try_unless_not_exist, os.MkdirAll, os.WriteFile, os.Remove,
              os.record, os.Printf, with_output; cbn [fst snd os.files os.calls os.output].

Lemma prototype_body_perform act w :
  exists out,
    MainGoPrototype.applyEdits_body act w =
    (let p := perform (Type' act) (Content act)
                (filepath.Join [projectRoot; str ".."; Path act]) (os.files w) in
     (world_of p.1.1 (os.calls w ++ p.1.2) out, result_of p.2)).
Proof.
  unfold MainGoPrototype.applyEdits_body, perform, world_of.
  destruct (streq (Type' act) "create" || streq (Type' act) "update").
  - run. destruct (os.mkdir_all _ _ _) as [fs1 [e1|]]; simpl; [by eexists|].
    destruct (os.write_file _ _ _) as [fs2 [e2|]]; simpl; eexists; by rewrite <- app_assoc.
  - destruct (streq (Type' act) "delete").
    + run. destruct (os.remove _ _) as [fs1 [[]|]]; simpl; by eexists.
    + run. rewrite app_nil_r. by eexists.
Qed.

End Revisions.

Section WalkFacts.

Lemma is_name_plain e : walkdir.is_name e = true -> plain e.
Proof.
  unfold walkdir.is_name, plain. intros H.
  repeat (apply andb_true_iff in H as [H ?]).
  repeat match goal with
         | H : negb (bool_decide _) = true |- _ =>
             apply negb_true_iff, bool_decide_eq_false_1 in H
         end.
  done.
Qed.

Lemma plain_is_name e : plain e -> walkdir.is_name e = true.
Proof.
  unfold walkdir.is_name, plain. intros (H1 & H2 & H3 & H4).
  by rewrite !bool_decide_eq_false_2.
Qed.

Lemma names_plain rest : forallb walkdir.is_name rest = true -> Forall plain rest.
Proof.
  induction rest as [|e rest IH]; [constructor|].
  cbn. intros [H1 H2]%andb_true_iff. constructor; [by apply is_name_plain|auto].
Qed.

Lemma names_canonical rest :
  forallb walkdir.is_name rest = true -> canonical (false, root_elems ++ rest).
Proof.
  intros H. exists 1%nat, ([str "frontend"; str "src"] ++ rest).
  split; [done|]. split; [|done].
  apply Forall_app. split; [|by apply names_plain].
  repeat constructor; try done;
    apply (bool_decide_unpack _); vm_compute; exact I.
Qed.

Lemma strings_Join_app es rest :
  es <> [] -> rest <> [] ->
  strings.Join (es ++ rest) [filepath.Separator]
  = strings.Join es [filepath.Separator] ++ filepath.Separator ::
    strings.Join rest [filepath.Separator].
Proof.
  intros Hes Hrest. induction es as [|e es IH]; [done|].
  destruct es as [|e' es].
  - cbn [app]. destruct rest as [|x rest]; [done|]. done.
  - specialize (IH ltac:(done)).
    change ((e :: e' :: es) ++ rest) with (e :: (e' :: es) ++ rest).
    change (strings.Join (e :: (e' :: es) ++ rest) [filepath.Separator])
      with (e ++ [filepath.Separator] ++ strings.Join ((e' :: es) ++ rest) [filepath.Separator]).
    rewrite IH.
    change (strings.Join (e :: e' :: es) [filepath.Separator])
      with (e ++ [filepath.Separator] ++ strings.Join (e' :: es) [filepath.Separator]).
    by rewrite <- !app_assoc.
Qed.

Lemma render_below_root rest :
  rest <> [] -> filepath.render (false, root_elems ++ rest) = walked_path rest.
Proof.
  intros Hne. unfold filepath.render, walked_path.
  destruct (root_elems ++ rest) as [|x l] eqn:E; [done|]. rewrite <- E.
  by rewrite strings_Join_app.
Qed.

Lemma TrimPrefix_walked rest :
  strings.TrimPrefix (walked_path rest) (projectRoot ++ [filepath.Separator])
  = strings.Join rest [filepath.Separator].
Proof.
  unfold walked_path.
  change (projectRoot ++ filepath.Separator :: strings.Join rest [filepath.Separator])
    with ((projectRoot ++ [filepath.Separator]) ++ strings.Join rest [filepath.Separator]).
  apply TrimPrefix_app.
Qed.

Lemma lstat_prefix_Directory fs r es es' n :
  es' <> [] -> os.lstat fs (r, es ++ es') = inr n ->
  os.lstat fs (r, es) = inr os.Directory.
Proof.
  induction es' as [|x xs IH] using rev_ind in n |- *; [done|]. intros _.
  rewrite app_assoc, lstat_snoc.
  destruct (os.lstat fs (r, es ++ xs)) as [|[|]] eqn:E; [done|done|]. intros _.
  destruct xs as [|y ys]; [by rewrite app_nil_r in E|].
  by apply (IH os.Directory).
Qed.

Lemma lstat_node_at fs k n :
  k.2 <> [] -> os.lstat fs k = inr n -> os.node_at fs k = Some n.
Proof.
  intros Hne. rewrite lstat_parent by done.
  destruct (os.lstat fs (os.parent k)) as [|[|]]; [done|done|].
  destruct (os.node_at fs k); [|done]. by intros [= ->].
Qed.

Lemma below_root_explicit rest :
  os.implicit (false, root_elems ++ rest) = false.
Proof. reflexivity. Qed.

Lemma lstat_below_root_lookup fs rest n :
  rest <> [] -> os.lstat fs (false, root_elems ++ rest) = inr n ->
  fs !! (false, root_elems ++ rest) = Some n.
Proof.
  intros Hne H. apply lstat_node_at in H.
  - unfold os.node_at in H. by rewrite below_root_explicit in H.
  - cbn [snd]. by destruct rest.
Qed.

Lemma is_below_root fs kn :
  walkdir.is_below fs (false, root_elems) kn = true <->
  exists rest, kn.1 = (false, root_elems ++ rest) /\ rest <> [] /\
               forallb walkdir.is_name rest = true /\
               exists n, os.lstat fs kn.1 = inr n.
Proof.
  unfold walkdir.is_below. destruct kn as [[r es] n]. cbn [fst snd]. split.
  - intros H. repeat (apply andb_true_iff in H as [H ?]).
    apply bool_decide_eq_true_1 in H as ->.
    match goal with H : bool_decide (_ `prefix_of` _) = true |- _ =>
      apply bool_decide_eq_true_1 in H as [rest ->] end.
    match goal with H : negb _ = true |- _ =>
      apply negb_true_iff, bool_decide_eq_false_1 in H end.
    exists rest. split; [done|]. split.
    { intros ->. by rewrite app_nil_r in *. }
    split.
    { match goal with H : forallb _ _ = true |- _ =>
        by rewrite drop_app_length in H end. }
    destruct (os.lstat fs _) as [|n']; [done|]. by eexists.
  - intros (rest & Hk & Hne & Hnames & n' & Hl).
    assert (r = false) as -> by congruence.
    assert (es = root_elems ++ rest) as -> by congruence.
    rewrite bool_decide_eq_true_2 by done.
    rewrite bool_decide_eq_true_2 by (by apply prefix_app_r).
    rewrite bool_decide_eq_false_2.
    + rewrite drop_app_length, Hnames, Hl. done.
    + intros H. apply (f_equal length) in H. rewrite length_app in H.
      destruct rest; [done|]. cbn [length] in H. lia.
Qed.

Lemma ReadFile_below_root fs rest c :
  rest <> [] -> forallb walkdir.is_name rest = true ->
  os.lstat fs (false, root_elems ++ rest) = inr (os.File c) ->
  walkdir.ReadFile (filepath.render (false, root_elems ++ rest)) fs = inr c.
Proof.
  intros Hne Hnames Hl. unfold walkdir.ReadFile.
  rewrite canon_render_rel by (by apply names_canonical). by rewrite Hl.
Qed.

Lemma visit_all_collect fs acc (S : list (os.key * os.node)) :
  (forall kn c, kn ∈ S -> kn.2 = os.File c ->
     walkdir.ReadFile (filepath.render kn.1) fs = inr c) ->
  Context.visit_all fs acc
    (map (fun kn : os.key * os.node => (filepath.render kn.1, kn.2)) S)
  = inr (acc ++ flat_map collected S).
Proof.
  revert acc. induction S as [|kn S IH]; intros acc Hread.
  - cbn. by rewrite app_nil_r.
  - cbn [map Context.visit_all flat_map]. unfold Context.visit, collected at 1.
    destruct kn as [k [c|]]; cbn [fst snd].
    + destruct (Context.is_source (filepath.render k)).
      * pose proof (Hread (k, os.File c) c ltac:(left) eq_refl) as Hr.
        cbn [fst] in Hr. rewrite Hr.
        rewrite IH; [by rewrite <- app_assoc|].
        intros kn' c' Hin. apply Hread. by right.
      * rewrite IH; [done|]. intros kn' c' Hin. apply Hread. by right.
    + rewrite IH; [done|]. intros kn' c' Hin. apply Hread. by right.
Qed.

Lemma elem_of_flat_map_collected f (S : list (os.key * os.node)) :
  f ∈ flat_map collected S <-> exists kn, kn ∈ S /\ f ∈ collected kn.
Proof.
  rewrite list_elem_of_In, in_flat_map. split.
  - intros (kn & H1 & H2). exists kn. by rewrite !list_elem_of_In.
  - intros (kn & H1 & H2). exists kn. by rewrite <- !list_elem_of_In.
Qed.

Lemma elem_of_walk fs kn :
  kn ∈ merge_sort walkdir.entry_le
         (List.filter (walkdir.is_below fs (false, root_elems)) (map_to_list fs)) <->
  fs !! kn.1 = Some kn.2 /\ walkdir.is_below fs (false, root_elems) kn = true.
Proof.
  rewrite merge_sort_Permutation, list_elem_of_In, filter_In, <- list_elem_of_In.
  destruct kn as [k n]. by rewrite elem_of_map_to_list.
Qed.

Lemma is_source_root : Context.is_source projectRoot = false.
Proof. reflexivity. Qed.

(** The slice that the walk builds below a root that is a directory. *)
Lemma gatherFiles_Directory fs :
  os.lstat fs (false, root_elems) = inr os.Directory ->
  Context.gatherFiles fs
  = inr (flat_map collected
           (merge_sort walkdir.entry_le
              (List.filter (walkdir.is_below fs (false, root_elems)) (map_to_list fs)))).
Proof.
  intros Hroot. unfold Context.gatherFiles, walkdir.WalkDir.
  change (filepath.canon projectRoot) with (false, root_elems). cbv zeta.
  rewrite Hroot. cbn [Context.visit_all Context.visit].
  rewrite visit_all_collect; [done|].
  intros [k n] c [Hlook Hbelow]%elem_of_walk. cbn [fst snd] in *. intros ->.
  apply is_below_root in Hbelow as (rest & Hk & Hne & Hnames & n' & Hl).
  cbn [fst] in Hk, Hl. subst k.
  pose proof (lstat_below_root_lookup _ _ _ Hne Hl) as Hlook'.
  rewrite Hlook in Hlook'. injection Hlook' as <-.
  by apply ReadFile_below_root.
Qed.

Lemma gathered_iff fs f :
  f ∈ flat_map collected
        (merge_sort walkdir.entry_le
           (List.filter (walkdir.is_below fs (false, root_elems)) (map_to_list fs))) <->
  exists rest c,
    rest <> [] /\ forallb walkdir.is_name rest = true /\
    os.lstat fs (false, root_elems ++ rest) = inr (os.File c) /\
    Context.is_source (walked_path rest) = true /\
    f = {| Context.Path := strings.Join rest [filepath.Separator];
           Context.Content := c |}.
Proof.
  rewrite elem_of_flat_map_collected. split.
  - intros ([k n] & [Hlook Hbelow]%elem_of_walk & Hf). cbn [fst snd] in *.
    apply is_below_root in Hbelow as (rest & Hk & Hne & Hnames & n' & Hl).
    cbn [fst] in Hk, Hl. subst k.
    pose proof (lstat_below_root_lookup _ _ _ Hne Hl) as Hlook'.
    rewrite Hlook in Hlook'. injection Hlook' as <-.
    unfold collected in Hf. cbn [fst snd] in Hf.
    destruct n as [c|]; [|by apply elem_of_nil in Hf].
    rewrite render_below_root in Hf by done.
    destruct (Context.is_source (walked_path rest)) eqn:Es;
      [|by apply elem_of_nil in Hf].
    apply list_elem_of_singleton in Hf. rewrite TrimPrefix_walked in Hf.
    by exists rest, c.
  - intros (rest & c & Hne & Hnames & Hl & Hs & ->).
    exists ((false, root_elems ++ rest), os.File c). split.
    + apply elem_of_walk. cbn [fst snd]. split.
      * by apply lstat_File.
      * apply is_below_root. exists rest. cbn [fst]. by eauto.
    + unfold collected. cbn [fst snd].
      rewrite render_below_root, Hs, TrimPrefix_walked by done.
      by apply list_elem_of_singleton.
Qed.

Lemma target_of_gathered rest :
  rest <> [] -> forallb walkdir.is_name rest = true ->
  filepath.canon (filepath.Join [projectRoot; strings.Join rest [filepath.Separator]])
  = (false, root_elems ++ rest).
Proof.
  intros Hne Hnames. rewrite canon_Join_root.
  pose proof (names_plain _ Hnames) as Hplain.
  rewrite Split_Join; [|done|].
  - rewrite clean_go_plain by done. by rewrite rev_involutive.
  - eapply Forall_impl; [exact Hplain|]. by intros e (_ & _ & _ & ?).
Qed.

End WalkFacts.

Section GatherFacts.

Lemma gatherFiles_File fs c :
  os.lstat fs (false, root_elems) = inr (os.File c) -> Context.gatherFiles fs = inr [].
Proof.
  intros Hroot. unfold Context.gatherFiles, walkdir.WalkDir.
  change (filepath.canon projectRoot) with (false, root_elems). cbv zeta.
  rewrite Hroot. cbn [Context.visit_all Context.visit]. by rewrite is_source_root.
Qed.

Lemma gatherFiles_missing fs e :
  os.lstat fs (false, root_elems) = inl e ->
  Context.gatherFiles fs
  = inl {| os.Op := str "lstat"; os.ErrPath := projectRoot; os.Err := e |}.
Proof.
  intros Hroot. unfold Context.gatherFiles, walkdir.WalkDir.
  change (filepath.canon projectRoot) with (false, root_elems). cbv zeta.
  by rewrite Hroot.
Qed.

Lemma gathered_inv fs files f :
  Context.gatherFiles fs = inr files -> f ∈ files ->
  exists rest c,
    rest <> [] /\ forallb walkdir.is_name rest = true /\
    os.lstat fs (false, root_elems ++ rest) = inr (os.File c) /\
    Context.is_source (walked_path rest) = true /\
    f = {| Context.Path := strings.Join rest [filepath.Separator];
           Context.Content := c |}.
Proof.
  destruct (os.lstat fs (false, root_elems)) as [e|[c|]] eqn:Hroot.
  - by rewrite (gatherFiles_missing _ _ Hroot).
  - rewrite (gatherFiles_File _ _ Hroot). intros [= <-] Hf. by apply elem_of_nil in Hf.
  - rewrite (gatherFiles_Directory _ Hroot). intros [= <-]. apply gathered_iff.
Qed.

End GatherFacts.

Section ProviderFacts.

Lemma content_of_panics ollamaResp :
  PrototypeProvider.content_of ollamaResp = PrototypeProvider.Panics <->
  exists message,
    first_choice ollamaResp message /\
    forall m, message !! str "message" <> Some (PrototypeProvider.AMap m).
Proof.
  unfold PrototypeProvider.content_of, first_choice. split.
  - destruct (ollamaResp !! str "choices") as [[| | | |[|[| | | | |message] rest]|]|]; try done.
    intros H. exists message. split; [by eexists|]. intros m Hm. rewrite Hm in H.
    by destruct (m !! str "content") as [[]|].
  - intros (message & [rest ->] & Hno).
    destruct (message !! str "message") as [[| | | | |m]|]; try done.
    by destruct (Hno m).
Qed.

Lemma content_of_returns ollamaResp content :
  PrototypeProvider.content_of ollamaResp = PrototypeProvider.Returns (inr content) <->
  exists message m,
    first_choice ollamaResp message /\
    message !! str "message" = Some (PrototypeProvider.AMap m) /\
    m !! str "content" = Some (PrototypeProvider.AString content).
Proof.
  unfold PrototypeProvider.content_of, first_choice. split.
  - destruct (ollamaResp !! str "choices") as [[| | | |[|[| | | | |message] rest]|]|]; try done.
    destruct (message !! str "message") as [[| | | | |m]|] eqn:Em; try done.
    destruct (m !! str "content") as [[| | |s| |]|] eqn:Ec; try done.
    intros [= <-]. exists message, m. split; [by eexists|done].
  - intros (message & m & [rest ->] & -> & ->). done.
Qed.

Lemma ollamaContent_decoded dec prompt e w ollamaResp :
  decoded_reply dec e ollamaResp ->
  (PrototypeProvider.ollamaContent dec prompt e w).2
  = PrototypeProvider.content_of ollamaResp.
Proof.
  intros ([buf Hb] & Hk & code & body & Ha & Hd).
  unfold PrototypeProvider.ollamaContent. rewrite Hb. cbv zeta.
  rewrite bool_decide_eq_false_2 by done. by rewrite Ha, Hd.
Qed.

Lemma ollamaContent_undecoded dec prompt e w :
  (forall ollamaResp, ~ decoded_reply dec e ollamaResp) ->
  exists err, (PrototypeProvider.ollamaContent dec prompt e w).2
              = PrototypeProvider.Returns (inl err).
Proof.
  intros Hno. unfold PrototypeProvider.ollamaContent, decoded_reply in *.
  destruct (remote.encoded e) as [err|buf]; [by eexists|]. cbv zeta.
  case_bool_decide as Hk; [by eexists|].
  destruct (remote.answer e) as [err|code err|code body]; [by eexists|by eexists|].
  destruct (dec body) as [resp|] eqn:Ed; [|by eexists].
  destruct (Hno resp). split; [by eexists|]. split; [done|]. by exists code, body.
Qed.

Lemma decoded_reply_cases dec e :
  (exists ollamaResp, decoded_reply dec e ollamaResp) \/
  (forall ollamaResp, ~ decoded_reply dec e ollamaResp).
Proof.
  unfold decoded_reply.
  destruct (remote.encoded e) as [err|buf] eqn:Ee.
  { right. by intros resp ([buf [=]] & _). }
  destruct (decide (remote.OPENROUTER_API_KEY e = [])) as [Hk|Hk].
  { right. by intros resp (_ & ? & _). }
  destruct (remote.answer e) as [err|code err|code body] eqn:Ea.
  1,2: right; by intros resp (_ & _ & c & b & [=] & _).
  destruct (dec body) as [resp|] eqn:Ed.
  - left. exists resp. split; [by eexists|]. split; [done|]. by exists code, body.
  - right. intros resp (_ & _ & c & b & [= <- <-] & Hd). congruence.
Qed.

Lemma capped_actions edits : Actions (capped edits) = take 100 (Actions edits).
Proof.
  unfold capped. case_match eqn:E; [done|].
  apply Z.ltb_ge in E. rewrite take_ge; [done|lia].
Qed.

Lemma callOllama_inv json_Unmarshal exchange w w1 edits :
  MainGoPrototype.callOllama json_Unmarshal exchange w = (w1, inr edits) ->
  exists content decoded,
    exchange = inr content /\ json_Unmarshal content = Some decoded /\
    Actions decoded <> [] /\ edits = capped decoded /\
    os.files w1 = os.files w /\ os.calls w1 = os.calls w.
Proof.
  destruct exchange as [err|content]; [done|].
  destruct (json_Unmarshal content) as [decoded|] eqn:Ed.
  - destruct decoded as [[|a acts]].
    + destruct (callOllama_empty json_Unmarshal content w Ed) as [outs ->]. done.
    + destruct (callOllama_passes json_Unmarshal content _ w Ed) as (outs & -> & _).
      { cbn [Actions length]. lia. }
      intros [= <- <-]. exists content, {| Actions := a :: acts |}. done.
  - unfold MainGoPrototype.callOllama. by rewrite Ed.
Qed.

Lemma content_for_inr dec_choices dec_response req e content :
  Providers.content_for dec_choices dec_response req e = inr content ->
  exists body,
    remote.answer e = remote.Reply remote.StatusOK body /\
    ((Provider req = str "openrouter" /\ remote.OPENROUTER_API_KEY e <> [] /\
      exists rest, dec_choices body = Some (content :: rest)) \/
     (Provider req <> str "openrouter" /\ dec_response body = Some content)).
Proof.
  unfold Providers.content_for, streq.
  case_bool_decide as Hp.
  - unfold Providers.openRouterContent. case_bool_decide as Hk; [done|].
    destruct (remote.encoded e); [done|]. destruct (remote.NewRequest e); [done|].
    destruct (remote.answer e) as [|code err|code body]; [done|done|].
    destruct (code =? remote.StatusOK) eqn:Ec; [|done]. apply Z.eqb_eq in Ec as ->.
    cbn [negb]. destruct (dec_choices body) as [[|c rest]|] eqn:Ed; [done| |done].
    intros [= ->]. exists body. split; [done|]. left. split; [done|]. split; [done|].
    by exists rest.
  - unfold Providers.ollamaContent.
    destruct (remote.encoded e); [done|]. destruct (remote.NewRequest e); [done|].
    destruct (remote.answer e) as [|code err|code body]; [done|done|].
    destruct (code =? remote.StatusOK) eqn:Ec; [|done]. apply Z.eqb_eq in Ec as ->.
    cbn [negb]. destruct (dec_response body) as [c|] eqn:Ed; [|done].
    intros [= ->]. exists body. split; [done|]. by right.
Qed.

(** [handleEdit] leaves the world alone unless a named provider
    delivered a content. *)
Lemma part001_handleEdit_changed np json_Unmarshal r w :
  (Part001.handleEdit np json_Unmarshal r w).1 <> w ->
  exists req content,
    Body r = inr req /\
    (Provider req = str "openrouter" \/ Provider req = str "ollama") /\
    completion r = inr content.
Proof.
  unfold Part001.handleEdit.
  destruct (negb (streq (Method r) "POST")); [done|].
  destruct (Body r) as [|req]; [done|]. destruct (contextJSON r); [done|].
  unfold Part001.callOpenRouter, Part001.callOllama, streq.
  case_bool_decide as Ho.
  - destruct (completion r) as [err|content]; [done|]. intros _.
    exists req, content. auto.
  - case_bool_decide as Hl; [|done].
    destruct (completion r) as [err|content]; [done|]. intros _.
    exists req, content. auto.
Qed.

Lemma main_go_handleEdit_changed json_Unmarshal r w :
  (MainGo.handleEdit json_Unmarshal r w).1 <> w ->
  exists req content,
    Body r = inr req /\
    (Provider req = str "openrouter" \/ Provider req = str "ollama") /\
    completion r = inr content.
Proof.
  unfold MainGo.handleEdit.
  destruct (negb (streq (Method r) "POST")); [done|].
  destruct (Body r) as [|req]; [done|]. destruct (contextJSON r); [done|].
  unfold MainGo.callOpenRouter, MainGo.callOllama, streq.
  case_bool_decide as Ho.
  - destruct (completion r) as [err|content]; [done|]. intros _.
    exists req, content. auto.
  - case_bool_decide as Hl; [|done].
    destruct (completion r) as [err|content]; [done|]. intros _.
    exists req, content. auto.
Qed.

End ProviderFacts.

Section LastByte.

Lemma replace_go_consumed k s old new :
  (length s <= k)%nat -> strings.replace_go k s old new = [].
Proof.
  revert k. induction s as [|c s IH]; intros k Hk; [done|].
  destruct k as [|k]; cbn [length] in Hk; [lia|].
  cbn [strings.replace_go]. apply IH. lia.
Qed.

(** A replacement whose old text has the byte [c] nowhere, or whose old
    and new texts both end with it, keeps a final [c] in place. *)
Lemma replace_go_last c old new k t :
  old <> [] ->
  c ∉ old \/ (exists o n, old = o ++ [c] /\ new = n ++ [c]) ->
  (k <= length t)%nat ->
  exists r, strings.replace_go k (t ++ [c]) old new = r ++ [c].
Proof.
  intros Hne Hold. revert k. induction t as [|x t IH]; intros k Hk.
  - assert (k = 0%nat) as -> by (cbn [length] in Hk; lia).
    cbn [app strings.replace_go].
    destruct (strings.HasPrefix [c] old) eqn:E.
    + destruct Hold as [Hc|(o & n & -> & ->)].
      * apply HasPrefix_inv in E as [t' E]. destruct old as [|y old]; [done|].
        injection E as <- _. destruct Hc. by left.
      * exists n. by rewrite app_nil_r.
    + by exists [].
  - destruct k as [|k]; cbn [app strings.replace_go].
    + destruct (strings.HasPrefix (x :: t ++ [c]) old) eqn:E.
      * destruct (decide (Nat.pred (length old) <= length t)%nat) as [Hle|Hgt].
        { destruct (IH _ Hle) as [r ->]. exists (new ++ r). by rewrite app_assoc. }
        apply HasPrefix_length in E as Hlen. cbn [length] in Hlen.
        rewrite length_app in Hlen. cbn [length] in Hlen.
        apply HasPrefix_inv in E as [t' E].
        assert (t' = []) as ->.
        { apply (f_equal length) in E. cbn [length] in E.
          rewrite !length_app in E. cbn [length] in E. destruct t'; [done|].
          cbn [length] in E. lia. }
        rewrite app_nil_r in E.
        rewrite replace_go_consumed
          by (rewrite length_app; cbn [length]; lia).
        rewrite app_nil_r.
        destruct Hold as [Hc|(o & n & -> & ->)].
        { destruct Hc. rewrite <- E. right. apply elem_of_app. right. by left. }
        by exists n.
      * destruct (IH 0%nat ltac:(lia)) as [r ->]. by exists (x :: r).
    + cbn [length] in Hk. apply IH. lia.
Qed.

Lemma ReplaceAll_last c old new t :
  old <> [] ->
  c ∉ old \/ (exists o n, old = o ++ [c] /\ new = n ++ [c]) ->
  exists r, strings.ReplaceAll (t ++ [c]) old new = r ++ [c].
Proof.
  intros Hne Hold. destruct old as [|o old]; [done|].
  cbn [strings.ReplaceAll]. apply replace_go_last; [done|done|lia].
Qed.

Lemma rewritten_last t : exists r, rewritten (t ++ ["}"%char]) = r ++ ["}"%char].
Proof.
  unfold rewritten. cbv zeta.
  destruct (ReplaceAll_last "}"%char (esc "u003c") (str "<") t) as [r1 ->];
    [done|left; apply (bool_decide_unpack _); vm_compute; exact I|].
  destruct (ReplaceAll_last "}"%char (esc "u003e") (str ">") r1) as [r2 ->];
    [done|left; apply (bool_decide_unpack _); vm_compute; exact I|].
  destruct (ReplaceAll_last "}"%char (esc "u0026") (str "&") r2) as [r3 ->];
    [done|left; apply (bool_decide_unpack _); vm_compute; exact I|].
  destruct (ReplaceAll_last "}"%char (esc "u0027") (str "'") r3) as [r4 ->];
    [done|left; apply (bool_decide_unpack _); vm_compute; exact I|].
  destruct (ReplaceAll_last "}"%char (esc "u0022") [dquote] r4) as [r5 ->];
    [done|left; apply (bool_decide_unpack _); vm_compute; exact I|].
  destruct (ReplaceAll_last "}"%char (esc "un") (esc "n") r5) as [r6 ->];
    [done|left; apply (bool_decide_unpack _); vm_compute; exact I|].
  destruct (ReplaceAll_last "}"%char (str ");n}") (str ");}") r6) as [r7 ->];
    [done|right; by exists (str ");n"), (str ");")|].
  destruct (ReplaceAll_last "}"%char (esc "n}") (str "}") r7) as [r8 ->];
    [done|right; by exists (esc "n"), []|].
  by exists r8.
Qed.

Lemma last_occurrence {A} `{EqDecision A} (c : A) (s : list A) :
  c ∈ s -> exists a e, s = a ++ c :: e /\ c ∉ e.
Proof.
  induction s as [|x s IH]; [by intros ?%elem_of_nil|].
  intros Hin. destruct (decide (c ∈ s)) as [Hs|Hs].
  - destruct (IH Hs) as (a & e & -> & He). by exists (x :: a), e.
  - apply elem_of_cons in Hin as [->|?]; [|done]. by exists [], s.
Qed.

End LastByte.

Section FurtherChecks.

Example prototype_panics_ex :
  (PrototypeProvider.callOllama
     (any_for (quoted "{'choices':[{'text':'hi'}]}") choice_without_message)
     (decoder_for plain_document {| Actions := [] |})
     (str "prompt") (answered (quoted "{'choices':[{'text':'hi'}]}")) empty_world).2
  = PrototypeProvider.Panics.
Proof. vm_compute. reflexivity. Qed.

Example prototype_content_ex :
  (PrototypeProvider.ollamaContent
     (any_for (quoted "{'choices':[{'message':{'content':'{}'}}]}") (chat_reply (str "{}")))
     (str "prompt") (answered (quoted "{'choices':[{'message':{'content':'{}'}}]}"))
     empty_world).2
  = PrototypeProvider.Returns (inr (str "{}")).
Proof. vm_compute. reflexivity. Qed.

Lemma main_go_target_within act :
  strings.Contains (Path act) filepath.dotdot = false ->
  within_root (filepath.canon (fullPath_in MainGoRev act)).
Proof.
  intros H. unfold fullPath_in. cbn [relative_path].
  rewrite canon_Join_root_confined by done.
  split; [done|]. by apply prefix_app_r.
Qed.


End FurtherChecks.

(** * The statements of the specification *)

(** ** C1: paths that leave the project root *)

(** Part 001 passes over a path with [..] or a leading separator and
    keeps to the root: outside it a whole batch changes nothing, except
    that [MkdirAll] may create the root's own missing ancestors. *)
Theorem part001_confined np edits w w' r :
  Part001.applyEdits np edits w = (w', r) ->
  forall k, ~ within_root k ->
    os.files w' !! k = os.files w !! k \/
    (os.files w !! k = None /\ os.files w' !! k = Some os.Directory /\
     above k (false, root_elems)).
Proof.
  intros H k Hk.
  destruct (applyEdits_of_loop (Part001Rev np) edits w) as [out0 Hloop].
  cbn [applyEdits_of] in Hloop. rewrite Hloop in H.
  change (os.files w) with (os.files (with_output w out0)).
  revert H. generalize (with_output w out0). intros w0 H.
  apply (for_range_respects
           (fun w1 w2 =>
              os.files w2 !! k = os.files w1 !! k \/
              (os.files w1 !! k = None /\ os.files w2 !! k = Some os.Directory /\
               above k (false, root_elems)))
           (body_of (Part001Rev np)))
    with (xs := Actions edits) (r := r); [by left| | |exact H].
  - intros w1 w2 w3 [H1|(H1 & H1' & Ha)] [H2|(H2 & H2' & Ha')].
    + left. congruence.
    + right. split; [congruence|]. by split.
    + right. split; [done|]. split; [congruence|done].
    + congruence.
  - intros act w1 w2 r1 Hb.
    destruct (body_frame _ _ _ _ _ Hb) as [->|(_ & Hd & Hf)]; [by left|].
    pose proof (part001_target_within np act Hd) as Hwithin.
    destruct (Hf k) as [?|[->|(Ha & Hn & Hdir)]]; [by left|done|].
    right. split; [done|]. split; [done|].
    destruct (above_root_or_within k _ Hwithin) as [?|?]; [|done|done].
    eapply above_trans; [exact Ha|apply parent_above].
Qed.

(** Claim C1, at the input where [main.go] fails it: [applyEdits] of
    [src/backend/main.go] has no check for [..], and a create action for
    [../../etc/passwd] makes the directory [../etc] and writes
    [../etc/passwd], outside the project root. *)
Theorem main_go_traversal_leaves_root :
  let edits := {| Actions := [action "create" "../../etc/passwd" "x"] |} in
  let result := MainGo.applyEdits edits empty_world in
  result.2 = inr tt /\
  os.calls result.1
  = [os.CallMkdirAll (str "../etc");
     os.CallWriteFile (str "../etc/passwd") (str "x")] /\
  os.files result.1 !! filepath.canon (str "../etc/passwd")
  = Some (os.File (str "x")) /\
  ~ within_root (filepath.canon (str "../etc/passwd")).
Proof.
  cbv zeta. split; [vm_compute; reflexivity|].
  split; [vm_compute; reflexivity|]. split; [vm_compute; reflexivity|].
  intros [_ [l Hl]]. vm_compute in Hl. discriminate Hl.
Qed.

(** ** C2: the protected file *)

(** Claim C2. An action whose checked path contains the marker [SidePanel] is
    passed over whatever its type, leaving tree and calls as they were;
    and across a whole batch no entry of the tree whose path carries the
    marker changes. *)
Theorem protected_path_skipped_and_preserved (rev : revision) :
  (forall act w,
     is_protected rev act = true ->
     exists out, body_of rev act w = (with_output w out, inr tt)) /\
  (forall edits w w' r,
     applyEdits_of rev edits w = (w', r) ->
     forall k, protected_key k -> os.files w' !! k = os.files w !! k).
Proof.
  split.
  - intros act w. apply body_protected.
  - intros edits w w' r. apply applyEdits_keeps_protected.
Qed.

Lemma protected_path_skipped_and_preserved_witness :
  is_protected MainGoRev (action "delete" "components/SidePanel.tsx" "") = true /\
  (exists out,
     MainGo.applyEdits_body (action "delete" "components/SidePanel.tsx" "") project_world
     = (with_output project_world out, inr tt)) /\
  protected_key side_panel_key /\
  os.files (MainGo.applyEdits
              {| Actions := [action "update" "components/SidePanel.tsx" "gone";
                             action "delete" "components/SidePanel.tsx" "";
                             action "update" "App.tsx" "X"] |} project_world).1
    !! side_panel_key = Some (os.File (str "export default function SidePanel")).
Proof.
  destruct (protected_path_skipped_and_preserved MainGoRev) as [Hskip Hkeep].
  split; [reflexivity|]. split; [apply Hskip; reflexivity|].
  assert (protected_key side_panel_key) as Hk.
  { exists (str "SidePanel.tsx"). split; [|reflexivity].
    apply list_elem_of_In. cbn. do 4 right. left. reflexivity. }
  split; [exact Hk|].
  erewrite (Hkeep _ project_world); [vm_compute; reflexivity| |exact Hk].
  apply surjective_pairing.
Defined.

(** ** C3: the sanitizer on clean input *)

(** Claim C3, refuted as stated: both texts are valid JSON, begin with
    their brace and end with their brace.  [cleanAIResponse] rewrites the
    escape inside the first, and by rewriting the escaped quotes of the
    second it returns a text that is no longer valid JSON. *)
Lemma valid_json_is_rewritten :
  json.Valid escaped_document = true /\
  strings.Index escaped_document (str "{") = 0 /\
  strings.LastIndex escaped_document (str "}") = strings.len escaped_document - 1 /\
  Part001.cleanAIResponse escaped_document
  = quoted "{'actions':[{'type':'update','path':'App.tsx','content':'a < b'}]}" /\
  Part001.cleanAIResponse escaped_document <> escaped_document /\
  json.Valid quoting_document = true /\
  strings.Index quoting_document (str "{") = 0 /\
  strings.LastIndex quoting_document (str "}") = strings.len quoting_document - 1 /\
  json.Valid (Part001.cleanAIResponse quoting_document) = false.
Proof.
  split; [vm_compute; reflexivity|]. split; [vm_compute; reflexivity|].
  split; [vm_compute; reflexivity|]. split; [vm_compute; reflexivity|].
  split; [vm_compute; discriminate|].
  split; [vm_compute; reflexivity|]. split; [vm_compute; reflexivity|].
  split; vm_compute; reflexivity.
Qed.

(** Claim C3 as amended. [cleanAIResponse] returns its input unchanged when
    the input begins with [{] (or has none), ends with [}] (or has none
    past its first byte) and contains none of the eight sequences the
    function rewrites. *)
Theorem cleanAIResponse_without_fixups (response : gostr) :
  strings.HasPrefix response (str "{") = true \/
    strings.Contains response (str "{") = false ->
  strings.HasSuffix response (str "}") = true \/
    strings.LastIndex response (str "}") <= 0 ->
  Forall (fun old => strings.Contains response old = false) fixups ->
  Part001.cleanAIResponse response = response.
Proof. apply cleanAIResponse_unchanged. Qed.

Lemma cleanAIResponse_without_fixups_witness :
  json.Valid plain_document = true /\
  Part001.cleanAIResponse plain_document = plain_document.
Proof.
  split; [vm_compute; reflexivity|].
  apply cleanAIResponse_without_fixups.
  - left. vm_compute. reflexivity.
  - left. vm_compute. reflexivity.
  - unfold fixups. repeat (constructor; [vm_compute; reflexivity|]). constructor.
Defined.

(** ** C4: order and early return *)

(** Claim C4 as amended. The loop takes the actions in order: a batch is its
    first part followed, if that did not fail, by the rest on the world
    the first part left.  An action with a protected or dangerous path or
    an unknown type falls through without an error and without touching
    the tree.  For an action past the checks, an error of [os.MkdirAll],
    of [ioutil.WriteFile] or, unless it is not-exist, of [os.Remove] is
    what the turn returns, on the world that call left; the only error of
    a turn is such a [*PathError], and with it the loop returns at once:
    the actions after it are not processed. *)
Theorem loop_in_order_until_io_error (rev : revision) :
  (forall xs ys w,
     for_range (xs ++ ys) (body_of rev) w =
     match for_range xs (body_of rev) w with
     | (w1, inl e) => (w1, inl e)
     | (w1, inr _) => for_range ys (body_of rev) w1
     end) /\
  (forall edits w,
     exists out0,
       applyEdits_of rev edits w
       = for_range (Actions edits) (body_of rev) (with_output w out0)) /\
  (forall act w,
     passed_over rev act = true ->
     exists out, body_of rev act w = (with_output w out, inr tt)) /\
  (forall act w,
     passed_over rev act = false ->
     let full := fullPath_in rev act in
     let dir := filepath.Dir full in
     (Type' act = str "create" \/ Type' act = str "update" ->
      (forall pe,
         (os.MkdirAll dir w).2 = Some pe ->
         exists out,
           body_of rev act w
           = (with_output (os.MkdirAll dir w).1 out, inl (PathErr pe))) /\
      (forall pe,
         (os.MkdirAll dir w).2 = None ->
         (os.WriteFile full (Content act) (os.MkdirAll dir w).1).2 = Some pe ->
         exists out,
           body_of rev act w
           = (with_output (os.WriteFile full (Content act) (os.MkdirAll dir w).1).1 out,
              inl (PathErr pe)))) /\
     (Type' act = str "delete" ->
      forall pe,
        (os.Remove full w).2 = Some pe -> os.IsNotExist (Some pe) = false ->
        exists out,
          body_of rev act w = (with_output (os.Remove full w).1 out, inl (PathErr pe)))) /\
  (forall act rest w w1 e,
     body_of rev act w = (w1, inl e) ->
     passed_over rev act = false /\ (exists pe, e = PathErr pe) /\
     for_range (act :: rest) (body_of rev) w = (w1, inl e)) /\
  (forall xs act ys w w1 w2 e,
     for_range xs (body_of rev) w = (w1, inr tt) ->
     body_of rev act w1 = (w2, inl e) ->
     for_range (xs ++ act :: ys) (body_of rev) w = (w2, inl e)).
Proof.
  split; [intros; apply for_range_app|].
  split; [intros; apply applyEdits_of_loop|].
  split; [intros act w; apply body_passed_over|].
  split; [|split].
  - intros act w Hpo. cbv zeta.
    unfold passed_over in Hpo.
    apply orb_false_iff in Hpo as [Hpo _]. apply orb_false_iff in Hpo as [Hp Hd].
    destruct (body_perform rev act w Hp Hd) as [out Ho]. cbv zeta in Ho.
    unfold perform in Ho. split.
    + intros Hty.
      assert (streq (Type' act) "create" || streq (Type' act) "update" = true) as Hs.
      { by destruct Hty as [-> | ->]. }
      rewrite Hs in Ho.
      unfold os.MkdirAll, os.WriteFile, os.record, with_output.
      cbn [fst snd os.files os.calls os.output]. split.
      * intros pe Hmk. rewrite Hmk in Ho. exists out. exact Ho.
      * intros pe Hmk Hwr. rewrite Hmk, Hwr in Ho. exists out.
        rewrite Ho. cbn [fst snd result_of]. by rewrite <- app_assoc.
    + intros Hty pe Hrm Hne. rewrite Hty in Ho.
      change (streq (str "delete") "create" || streq (str "delete") "update")
        with false in Ho.
      change (streq (str "delete") "delete") with true in Ho. cbv iota in Ho.
      unfold os.Remove, os.record, with_output in *.
      cbn [fst snd os.files os.calls os.output] in *.
      rewrite Hrm, Hne in Ho. exists out. exact Ho.
  - intros act rest w w1 e H.
    destruct (body_error _ _ _ _ _ H) as [Hp He].
    split; [done|]. split; [done|]. by apply body_abort.
  - intros xs act ys w w1 w2 e Hxs Hact.
    rewrite for_range_app, Hxs. by apply body_abort.
Qed.

Lemma loop_in_order_until_io_error_witness :
  passed_over MainGoRev (action "rename" "App.tsx" "") = true /\
  (exists out,
     for_range [action "rename" "App.tsx" ""; action "update" "App.tsx" "new"]
       (body_of MainGoRev) project_world
     = for_range [action "update" "App.tsx" "new"]
         (body_of MainGoRev) (with_output project_world out)) /\
  for_range [action "create" "components" "y"; action "update" "App.tsx" "new"]
    (body_of MainGoRev) project_world
  = body_of MainGoRev (action "create" "components" "y") project_world /\
  (let act := action "create" "components" "y" in
   let full := fullPath_in MainGoRev act in
   let dir := filepath.Dir full in
   let pe := {| os.Op := str "open"; os.ErrPath := str "../frontend/src/components";
                os.Err := os.EISDIR |} in
   (os.MkdirAll dir project_world).2 = None /\
   (os.WriteFile full (Content act) (os.MkdirAll dir project_world).1).2 = Some pe /\
   exists out,
     body_of MainGoRev act project_world
     = (with_output (os.WriteFile full (Content act) (os.MkdirAll dir project_world).1).1 out,
        inl (PathErr pe))).
Proof.
  destruct (loop_in_order_until_io_error MainGoRev)
    as (Happ & _ & Hskip & Hio & Habort & _).
  split; [reflexivity|]. split; [|split].
  - destruct (Hskip (action "rename" "App.tsx" "") project_world eq_refl) as [out Ho].
    exists out.
    rewrite (Happ [action "rename" "App.tsx" ""] [action "update" "App.tsx" "new"]).
    rewrite for_range_cons, Ho. reflexivity.
  - assert ((body_of MainGoRev (action "create" "components" "y") project_world).2
            = inl (PathErr {| os.Op := str "open";
                              os.ErrPath := str "../frontend/src/components";
                              os.Err := os.EISDIR |})) as Hres
      by (vm_compute; reflexivity).
    destruct (body_of MainGoRev (action "create" "components" "y") project_world)
      as [w1 r1] eqn:E.
    cbn [snd] in Hres. subst r1.
    exact (proj2 (proj2 (Habort _ [action "update" "App.tsx" "new"] _ _ _ E))).
  - cbv zeta.
    assert ((os.MkdirAll (filepath.Dir (fullPath_in MainGoRev (action "create" "components" "y")))
               project_world).2 = None) as Hmk by (vm_compute; reflexivity).
    assert ((os.WriteFile (fullPath_in MainGoRev (action "create" "components" "y"))
               (Content (action "create" "components" "y"))
               (os.MkdirAll (filepath.Dir (fullPath_in MainGoRev (action "create" "components" "y")))
                  project_world).1).2
            = Some {| os.Op := str "open"; os.ErrPath := str "../frontend/src/components";
                      os.Err := os.EISDIR |}) as Hwr by (vm_compute; reflexivity).
    split; [exact Hmk|]. split; [exact Hwr|].
    destruct (Hio (action "create" "components" "y") project_world) as [Hw _];
      [vm_compute; reflexivity|].
    destruct (Hw (or_introl eq_refl)) as [_ Hwrite].
    exact (Hwrite _ Hmk Hwr).
Defined.

(** Claim C4, refuted as stated: in [main.go] the second action of this batch
    fails with [EISDIR], [applyEdits] returns that error, and the third
    action, which succeeds on its own, is never tried. *)
Lemma io_error_aborts_batch :
  let batch :=
    {| Actions := [action "create" "a/b" "x"; action "create" "a" "y";
                   action "create" "c" "z"] |} in
  let result := MainGo.applyEdits batch empty_world in
  (exists pe, result.2 = inl (PathErr pe) /\ os.Err pe = os.EISDIR) /\
  os.calls result.1
  = [os.CallMkdirAll (str "../frontend/src/a");
     os.CallWriteFile (str "../frontend/src/a/b") (str "x");
     os.CallMkdirAll (str "../frontend/src");
     os.CallWriteFile (str "../frontend/src/a") (str "y")] /\
  os.files result.1 !! filepath.canon (str "../frontend/src/c") = None /\
  (MainGo.applyEdits {| Actions := [action "create" "c" "z"] |} empty_world).2
  = inr tt.
Proof.
  cbv zeta. split.
  - eexists. split; vm_compute; reflexivity.
  - split; [vm_compute; reflexivity|]. split; vm_compute; reflexivity.
Qed.

(** ** C5: the empty batch *)

(** The prototype refuses an empty batch: [callOllama] returns the error,
    [handleEdit] answers 500 and [applyEdits] is not reached. *)
Theorem prototype_rejects_empty_batch json_Unmarshal r content w :
  arrives r content ->
  json_Unmarshal content = Some {| Actions := [] |} ->
  exists outs,
    MainGoPrototype.handleEdit json_Unmarshal r w
    = (with_output w (os.output w ++ outs),
       HttpError (ErrorText (Errorf "no actions returned by AI"))
         StatusInternalServerError).
Proof.
  intros Harr Hdec. rewrite (prototype_handleEdit_arrives _ _ _ _ Harr).
  destruct (callOllama_empty json_Unmarshal content w Hdec) as [outs ->].
  by exists outs.
Qed.

(** Claim C5, at the input where part 001 fails it: a response that decodes to
    no actions goes through [applyEdits] and is answered with
    [{"status":"success","applied":0}]. *)
Theorem part001_empty_batch_is_success np json_Unmarshal r content w :
  delivers r content ->
  json_Unmarshal (Part001.cleanAIResponse (Part001.cleanAIResponse content))
  = Some {| Actions := [] |} ->
  Part001.handleEdit np json_Unmarshal r w
  = (with_output w (os.output w ++ [os.Log "Applying %d edit actions" [os.ArgInt 0]]),
     HttpJSON "success" (Some 0)).
Proof.
  intros Hdel Hdec. rewrite (part001_handleEdit_delivers _ _ _ _ _ Hdel).
  cbv zeta. rewrite Hdec. reflexivity.
Qed.

Lemma exchange_delivers provider content :
  provider = "openrouter"%string \/ provider = "ollama"%string ->
  delivers (exchange_with provider content) content.
Proof.
  intros Hp. split.
  - split; [done|]. split; [by eexists|]. split; [by eexists|done].
  - intros req [= <-]. cbn. destruct Hp as [-> | ->]; [by left|by right].
Qed.

Lemma part001_empty_batch_is_success_witness :
  Part001.handleEdit (fun p => p)
    (decoder_for empty_document {| Actions := [] |})
    (exchange_with "ollama" empty_document) empty_world
  = (with_output empty_world [os.Log "Applying %d edit actions" [os.ArgInt 0]],
     HttpJSON "success" (Some 0)).
Proof.
  apply (part001_empty_batch_is_success (fun p => p)
           (decoder_for empty_document {| Actions := [] |})
           (exchange_with "ollama" empty_document) empty_document empty_world).
  - apply exchange_delivers. by right.
  - vm_compute. reflexivity.
Defined.

(** ** C6: the cap on the batch *)

(** Claim C6. In the prototype a decoded batch of more than 50 actions passes
    [callOllama], and [handleEdit] goes on to [applyEdits] with what
    [callOllama] returns: above 100 actions the first 100, in their
    order, with the line about the limit logged; otherwise the batch as
    it is, with the line asking for review logged. *)
Theorem prototype_caps_batch json_Unmarshal r content edits w :
  arrives r content ->
  json_Unmarshal content = Some edits ->
  50 < Z.of_nat (length (Actions edits)) ->
  exists outs,
    MainGoPrototype.callOllama json_Unmarshal (inr content) w
    = (with_output w (os.output w ++ outs), inr (capped edits)) /\
    MainGoPrototype.handleEdit json_Unmarshal r w
    = match MainGoPrototype.applyEdits (capped edits)
              (with_output w (os.output w ++ outs)) with
      | (w2, inl err) => (w2, HttpError (ErrorText err) StatusInternalServerError)
      | (w2, inr _) => (w2, HttpJSON "success" None)
      end /\
    (100 < Z.of_nat (length (Actions edits)) ->
       Actions (capped edits) = take 100 (Actions edits) /\
       length (Actions (capped edits)) = 100%nat /\
       os.Log "AI returned too many actions, limiting to 100" [] ∈ outs) /\
    (Z.of_nat (length (Actions edits)) <= 100 ->
       capped edits = edits /\
       os.Log "AI returned a large number of actions, consider reviewing them carefully" []
         ∈ outs).
Proof.
  intros Harr Hdec Hn.
  destruct (callOllama_passes json_Unmarshal content edits w Hdec) as (outs & Hc & H100 & H50);
    [lia|].
  exists outs. split; [exact Hc|]. split.
  - rewrite (prototype_handleEdit_arrives _ _ _ _ Harr). by rewrite Hc.
  - unfold capped. split.
    + intros H. assert ((100 <? Z.of_nat (length (Actions edits))) = true) as ->
        by (by apply Z.ltb_lt).
      cbn [Actions]. split; [done|]. split; [rewrite length_take; lia|by apply H100].
    + intros H. assert ((100 <? Z.of_nat (length (Actions edits))) = false) as ->
        by (apply Z.ltb_ge; lia).
      split; [done|]. apply H50. lia.
Qed.

Lemma arrives_exchange provider content : arrives (exchange_with provider content) content.
Proof. split; [done|]. split; [by eexists|]. split; [by eexists|done]. Qed.

Lemma prototype_caps_batch_witness :
  Actions (capped (many_actions 120)) = take 100 (Actions (many_actions 120)) /\
  length (Actions (capped (many_actions 120))) = 100%nat /\
  capped (many_actions 60) = many_actions 60.
Proof.
  destruct (prototype_caps_batch (decoder_for plain_document (many_actions 120))
              (exchange_with "ollama" plain_document) plain_document
              (many_actions 120) empty_world)
    as (outs & _ & _ & Hbig & _);
    [apply arrives_exchange|vm_compute; reflexivity|vm_compute; reflexivity|].
  destruct Hbig as (Htake & Hlen & _); [vm_compute; reflexivity|].
  destruct (prototype_caps_batch (decoder_for plain_document (many_actions 60))
              (exchange_with "ollama" plain_document) plain_document
              (many_actions 60) empty_world)
    as (outs' & _ & _ & _ & Hsmall);
    [apply arrives_exchange|vm_compute; reflexivity|vm_compute; reflexivity|].
  destruct Hsmall as (Hsame & _); [vm_compute; discriminate|].
  split; [exact Htake|]. split; [exact Hlen|exact Hsame].
Defined.

(** ** C7: the [applied] field *)

(** Claim C7. When [handleEdit] of part 001 answers with the JSON object, its
    status is [success] and [applied] is the number of actions of the
    decoded batch, which [applyEdits] went through without error; a
    batch all of whose actions are passed over is answered with its size
    all the same, although the tree is untouched and no call was made. *)
Theorem applied_is_batch_size np json_Unmarshal r w :
  (forall w' status applied,
     Part001.handleEdit np json_Unmarshal r w = (w', HttpJSON status applied) ->
     exists content edits,
       completion r = inr content /\
       json_Unmarshal (Part001.cleanAIResponse (Part001.cleanAIResponse content))
       = Some edits /\
       Part001.applyEdits np edits w = (w', inr tt) /\
       status = "success"%string /\
       applied = Some (Z.of_nat (length (Actions edits)))) /\
  (forall content edits,
     delivers r content ->
     json_Unmarshal (Part001.cleanAIResponse (Part001.cleanAIResponse content))
     = Some edits ->
     Forall (fun act => passed_over (Part001Rev np) act = true) (Actions edits) ->
     exists out,
       Part001.handleEdit np json_Unmarshal r w
       = (with_output w out,
          HttpJSON "success" (Some (Z.of_nat (length (Actions edits)))))).
Proof.
  split.
  - intros w' status applied. apply part001_handleEdit_success.
  - intros content edits Hdel Hdec Hall.
    rewrite (part001_handleEdit_delivers _ _ _ _ _ Hdel). cbv zeta. rewrite Hdec.
    destruct (applyEdits_of_loop (Part001Rev np) edits w) as [out0 Hloop].
    cbn [applyEdits_of] in Hloop. rewrite Hloop.
    destruct (for_range_passed_over (Part001Rev np) (Actions edits)
                (with_output w out0) Hall) as [out ->].
    by exists out.
Qed.

Lemma applied_is_batch_size_witness :
  exists out,
    Part001.handleEdit (fun p => p)
      (decoder_for plain_document passed_over_batch)
      (exchange_with "openrouter" plain_document) project_world
    = (with_output project_world out, HttpJSON "success" (Some 3)).
Proof.
  destruct (applied_is_batch_size (fun p => p)
              (decoder_for plain_document passed_over_batch)
              (exchange_with "openrouter" plain_document) project_world) as [_ H].
  apply (H plain_document passed_over_batch).
  - apply exchange_delivers. by left.
  - vm_compute. reflexivity.
  - unfold passed_over_batch. cbn [Actions].
    repeat (constructor; [vm_compute; reflexivity|]). constructor.
Defined.

(** ** C8: the duplicated prefix *)

Section NormalizerFacts.




End NormalizerFacts.



(** ** C9: deleting what is not there *)

(** Claim C9, refuted as stated: [App.tsx] is a regular file, so nothing
    exists at [App.tsx/foo]; [os.Remove] fails there with [ENOTDIR], which
    [os.IsNotExist] does not cover, and [applyEdits] of [main.go] returns
    the error. *)
Lemma delete_below_file_fails :
  let act := action "delete" "App.tsx/foo" "" in
  let target := filepath.canon (fullPath_in MainGoRev act) in
  passed_over MainGoRev act = false /\
  os.files project_world !! target = None /\
  os.lstat (os.files project_world) target = inl os.ENOTDIR /\
  (MainGo.applyEdits {| Actions := [act] |} project_world).2
  = inl (PathErr {| os.Op := str "remove";
                    os.ErrPath := str "../frontend/src/App.tsx/foo";
                    os.Err := os.ENOTDIR |}).
Proof. cbv zeta. repeat split; vm_compute; reflexivity. Qed.

(** Claim C9 as amended. A delete action that passes the checks and whose
    full path does not exist calls [os.Remove] once and leaves the tree
    as it was.  Where every component on the way to the path is a
    directory as far as it exists ([lstat] answers [ENOENT]), the error
    of [os.Remove] is ignored: the turn returns no error and reports the
    deletion.  Where a component on the way is a regular file ([lstat]
    answers [ENOTDIR]), the turn returns the error of [os.Remove]. *)
Theorem delete_of_absent_path_succeeds (rev : revision) (act : Action) w :
  is_protected rev act = false ->
  is_dangerous rev act = false ->
  Type' act = str "delete" ->
  (os.lstat (os.files w) (filepath.canon (fullPath_in rev act)) = inl os.ENOENT ->
   exists out,
     body_of rev act w =
     (world_of (os.files w) (os.calls w ++ [os.CallRemove (fullPath_in rev act)])
        (out ++ [deleted_line rev act]),
      inr tt)) /\
  (os.lstat (os.files w) (filepath.canon (fullPath_in rev act)) = inl os.ENOTDIR ->
   exists out,
     body_of rev act w =
     (world_of (os.files w) (os.calls w ++ [os.CallRemove (fullPath_in rev act)]) out,
      inl (PathErr {| os.Op := str "remove"; os.ErrPath := fullPath_in rev act;
                      os.Err := os.ENOTDIR |}))).
Proof.
  intros Hp Hd Hty. split.
  - intros Habs.
    assert (os.remove (os.files w) (filepath.canon (fullPath_in rev act))
            = (os.files w, Some os.ENOENT)) as Hrm by (by apply remove_absent).
    unfold is_protected in Hp. unfold fullPath_in in *.
    destruct rev as [|np];
      cbn [body_of checked_path is_dangerous relative_path deleted_line] in *.
    + unfold MainGo.applyEdits_body. change (str "SidePanel") with marker.
      rewrite Hp, Hty.
      change (streq (str "delete") "create" || streq (str "delete") "update") with false.
      change (streq (str "delete") "delete") with true. cbv iota.
      unfold mbind, go_bind, bind, try_unless_not_exist, os.Remove, os.record, logf,
        os.Printf, world_of.
      rewrite Hrm.
      cbn [fst snd os.path_error os.IsNotExist os.Err negb os.files os.calls os.output].
      by exists (os.output w).
    + unfold Part001.applyEdits_body, Part001.fullPath_of.
      change (str "SidePanel") with marker.
      change (str "..") with filepath.dotdot. change (str "/") with [filepath.Separator].
      rewrite Hp, Hd, Hty.
      change (streq (str "delete") "create" || streq (str "delete") "update") with false.
      change (streq (str "delete") "delete") with true. cbv iota.
      unfold mbind, go_bind, bind, try_unless_not_exist, os.Remove, os.record, logf, ret,
        os.Printf, world_of.
      case_bool_decide; cbn [os.files os.calls os.output]; rewrite Hrm;
        cbn [fst snd os.path_error os.IsNotExist os.Err negb os.files os.calls os.output];
        by eexists.
  - intros Hfile.
    destruct (body_perform rev act w Hp Hd) as [out Ho]. cbv zeta in Ho.
    rewrite Ho, Hty. unfold perform.
    change (streq (str "delete") "create" || streq (str "delete") "update") with false.
    change (streq (str "delete") "delete") with true. cbv iota.
    unfold os.remove. rewrite Hfile.
    cbn [fst snd os.path_error os.IsNotExist os.Err result_of]. by exists out.
Qed.

Lemma delete_of_absent_path_succeeds_witness :
  os.lstat (os.files project_world)
    (filepath.canon (fullPath_in MainGoRev (action "delete" "Old.tsx" "")))
  = inl os.ENOENT /\
  exists out,
    MainGo.applyEdits_body (action "delete" "Old.tsx" "") project_world =
    (world_of (os.files project_world)
       [os.CallRemove (str "../frontend/src/Old.tsx")]
       (out ++ [os.Log "Deleted file: %s" [os.ArgStr (str "../frontend/src/Old.tsx")]]),
     inr tt).
Proof.
  split; [vm_compute; reflexivity|].
  apply (delete_of_absent_path_succeeds MainGoRev (action "delete" "Old.tsx" "")
           project_world); vm_compute; reflexivity.
Defined.

(** ** C10: create and update *)

Section WriteFailures.

Lemma lstat_Directory_parent fs k :
  os.lstat fs k = inr os.Directory -> os.lstat fs (os.parent k) = inr os.Directory.
Proof.
  destruct k as [r es]. destruct es as [|e es _] using rev_ind; [done|].
  unfold os.parent. simpl. rewrite removelast_last, lstat_snoc.
  by destruct (os.lstat fs (r, es)) as [|[|]].
Qed.

Lemma lstat_ENOTDIR_parent fs k :
  os.lstat fs k = inl os.ENOTDIR ->
  (exists c, os.lstat fs (os.parent k) = inr (os.File c)) \/
  os.lstat fs (os.parent k) = inl os.ENOTDIR.
Proof.
  destruct k as [r es]. destruct es as [|e es _] using rev_ind; [done|].
  unfold os.parent. simpl. rewrite removelast_last, lstat_snoc.
  destruct (os.lstat fs (r, es)) as [er|[c|]].
  - intros [= ->]. by right.
  - intros _. left. by exists c.
  - by destruct (os.node_at fs (r, es ++ [e])).
Qed.

(** [MkdirAll] below a regular file changes nothing and fails. *)
Lemma mkdir_all_blocked r rp fs :
  (exists c, os.lstat fs (r, rev rp) = inr (os.File c)) \/
  os.lstat fs (r, rev rp) = inl os.ENOTDIR ->
  os.mkdir_all r rp fs = (fs, Some os.ENOTDIR).
Proof.
  induction rp as [|x rp IH].
  - cbn [rev]. rewrite lstat_top. by intros [[c [=]]|[=]].
  - intros H. cbn [os.mkdir_all]. destruct H as [[c ->]|H]; [done|].
    rewrite H.
    apply lstat_ENOTDIR_parent in H. unfold os.parent in H. cbn [fst snd rev] in H.
    rewrite removelast_last in H. by rewrite (IH H).
Qed.

End WriteFailures.

(** Claim C10, refuted as stated: [components] is a directory, and a create
    and an update of it both fail with [EISDIR]; [App.tsx] is a regular
    file, nothing exists at [App.tsx/sub/x.ts], and an update of it fails
    with [ENOTDIR] instead of creating it. *)
Lemma create_on_directory_fails :
  let target := filepath.canon (str "../frontend/src/components") in
  let missing := filepath.canon (str "../frontend/src/App.tsx/sub/x.ts") in
  let eisdir := PathErr {| os.Op := str "open";
                           os.ErrPath := str "../frontend/src/components";
                           os.Err := os.EISDIR |} in
  os.lstat (os.files project_world) target = inr os.Directory /\
  (MainGo.applyEdits {| Actions := [action "create" "components" "y"] |}
     project_world).2 = inl eisdir /\
  (MainGo.applyEdits {| Actions := [action "update" "components" "y"] |}
     project_world).2 = inl eisdir /\
  os.files project_world !! missing = None /\
  exists pe,
    (MainGo.applyEdits {| Actions := [action "update" "App.tsx/sub/x.ts" "y"] |}
       project_world).2 = inl (PathErr pe) /\
    os.Err pe = os.ENOTDIR.
Proof.
  cbv zeta. split; [vm_compute; reflexivity|].
  split; [vm_compute; reflexivity|]. split; [vm_compute; reflexivity|].
  split; [vm_compute; reflexivity|].
  eexists. split; vm_compute; reflexivity.
Qed.

(** Claim C10 as amended. With the same path and content, a create and an
    update action leave the same tree, make the same calls and return the
    same result.  Past the checks: where the full path is a regular file
    the action replaces its content; where the full path does not exist
    ([lstat] answers [ENOENT]) and no regular file is in the way of its
    directories, the action makes the missing directories and the file;
    neither fails in these two cases.  Where the full path is a directory
    the write fails with [EISDIR], and where a component on the way is a
    regular file ([lstat] answers [ENOTDIR]) making the directories fails
    with [ENOTDIR]; the tree is left as it was. *)
Theorem create_and_update_identical (rev : revision) (path content : gostr) w :
  let create := {| Type' := str "create"; Path := path; Content := content |} in
  let update := {| Type' := str "update"; Path := path; Content := content |} in
  let full := fullPath_in rev create in
  let target := filepath.canon full in
  (exists fs' cs res out1 out2,
     body_of rev create w = (world_of fs' cs out1, res) /\
     body_of rev update w = (world_of fs' cs out2, res)) /\
  (is_protected rev create = false -> is_dangerous rev create = false ->
   (forall old,
      os.lstat (os.files w) target = inr (os.File old) ->
      exists out,
        body_of rev create w =
        (world_of (<[target := os.File content]> (os.files w))
           (os.calls w ++ [os.CallMkdirAll (filepath.Dir full);
                           os.CallWriteFile full content]) out,
         inr tt)) /\
   (os.lstat (os.files w) target = inl os.ENOENT ->
    os.node_at (os.files w) target = None ->
    (forall es c, es `prefix_of` (os.parent target).2 ->
       os.node_at (os.files w) (target.1, es) <> Some (os.File c)) ->
    exists fs' out,
      body_of rev create w =
      (world_of fs'
         (os.calls w ++ [os.CallMkdirAll (filepath.Dir full);
                         os.CallWriteFile full content]) out,
       inr tt) /\
      os.lstat fs' target = inr (os.File content)) /\
   (os.lstat (os.files w) target = inr os.Directory ->
    exists out,
      body_of rev create w =
      (world_of (os.files w)
         (os.calls w ++ [os.CallMkdirAll (filepath.Dir full);
                         os.CallWriteFile full content]) out,
       inl (PathErr {| os.Op := str "open"; os.ErrPath := full;
                       os.Err := os.EISDIR |}))) /\
   (os.lstat (os.files w) target = inl os.ENOTDIR ->
    exists out pe,
      body_of rev create w =
      (world_of (os.files w) (os.calls w ++ [os.CallMkdirAll (filepath.Dir full)]) out,
       inl (PathErr pe)) /\
      os.Err pe = os.ENOTDIR)).
Proof.
  cbv zeta. split.
  - apply same_outcome_same_effect. reflexivity.
  - intros Hp Hd.
    destruct (body_perform rev _ w Hp Hd) as [out Ho]. cbv zeta in Ho.
    cbn [Type' Content] in Ho. split; [|split; [|split]].
    + intros old Hl. rewrite Ho.
      rewrite (perform_overwrite (str "create") content _ (os.files w) old);
        [by eexists|by left| |done].
      apply canon_Dir_fullPath.
    + intros _ Hnone Hfree.
      destruct (perform_create_missing (str "create") content
                  (fullPath_in rev {| Type' := str "create"; Path := path; Content := content |})
                  (os.files w))
        as (fs' & Hpf & Hl); [by left| |exact Hnone|exact Hfree|].
      { apply canon_Dir_fullPath. }
      rewrite Ho, Hpf. by eexists _, _.
    + intros Hl. rewrite Ho. unfold perform.
      change (streq (str "create") "create" || streq (str "create") "update") with true.
      cbv iota. rewrite canon_Dir_fullPath.
      pose proof (lstat_Directory_parent _ _ Hl) as Hpar.
      destruct (os.parent (filepath.canon _)) as [r es] eqn:Ep. cbn [fst snd].
      rewrite (mkdir_all_present _ _ _ Hpar). cbn [fst snd os.path_error].
      unfold os.write_file. rewrite Hl. cbn [fst snd os.path_error result_of].
      by eexists.
    + intros Hl. rewrite Ho. unfold perform.
      change (streq (str "create") "create" || streq (str "create") "update") with true.
      cbv iota. rewrite canon_Dir_fullPath.
      pose proof (lstat_ENOTDIR_parent _ _ Hl) as Hpar.
      destruct (os.parent (filepath.canon _)) as [r es] eqn:Ep. cbn [fst snd].
      rewrite (mkdir_all_blocked r (List.rev es) (os.files w))
        by (by rewrite rev_involutive).
      cbn [fst snd os.path_error result_of]. by eexists _, _.
Qed.

Lemma create_and_update_identical_witness :
  os.lstat (os.files project_world) (filepath.canon (str "../frontend/src/App.tsx"))
  = inr (os.File (str "old")) /\
  (exists out,
     MainGo.applyEdits_body (action "create" "App.tsx" "new") project_world =
     (world_of (<[filepath.canon (str "../frontend/src/App.tsx") := os.File (str "new")]>
                  (os.files project_world))
        [os.CallMkdirAll (str "../frontend/src");
         os.CallWriteFile (str "../frontend/src/App.tsx") (str "new")] out,
      inr tt)) /\
  (exists fs' out,
     MainGo.applyEdits_body (action "create" "pages/Home.tsx" "new") project_world =
     (world_of fs'
        [os.CallMkdirAll (str "../frontend/src/pages");
         os.CallWriteFile (str "../frontend/src/pages/Home.tsx") (str "new")] out,
      inr tt) /\
     os.lstat fs' (filepath.canon (str "../frontend/src/pages/Home.tsx"))
     = inr (os.File (str "new"))).
Proof.
  split; [vm_compute; reflexivity|]. split.
  - destruct (create_and_update_identical MainGoRev (str "App.tsx") (str "new")
                project_world) as [_ H].
    destruct H as [Hover _]; [vm_compute; reflexivity|vm_compute; reflexivity|].
    apply (Hover (str "old")). vm_compute. reflexivity.
  - destruct (create_and_update_identical MainGoRev (str "pages/Home.tsx") (str "new")
                project_world) as [_ H].
    destruct H as (_ & Hnew & _); [vm_compute; reflexivity|vm_compute; reflexivity|].
    apply Hnew; [vm_compute; reflexivity|vm_compute; reflexivity|].
    intros es c [rest Hes]. vm_compute in Hes.
    destruct es as [|e1 [|e2 [|e3 [|e4 [|e5 es]]]]];
      cbn [app] in Hes; simplify_eq; vm_compute; discriminate.
Defined.

(** * Further properties of the code *)

(** ** The sanitizer *)

(** X1. [cleanAIResponse] discards what stands before the first opening
    brace and after the last closing brace: a text between braces,
    wrapped in a lead-in without an opening brace and a trailer without a
    closing brace, is sanitized as the text between braces alone. *)
Theorem cleanAIResponse_discards_prose (pre body post : gostr) :
  "{"%char ∉ pre -> "}"%char ∉ post ->
  Part001.cleanAIResponse (pre ++ str "{" ++ body ++ str "}" ++ post)
  = Part001.cleanAIResponse (str "{" ++ body ++ str "}").
Proof.
  intros Hpre Hpost. rewrite !cleanAIResponse_stages.
  rewrite trimmed_delimited by done.
  pose proof (trimmed_delimited [] body [] (not_elem_of_nil _) (not_elem_of_nil _)) as H.
  cbn [app] in H. rewrite app_nil_r in H. cbn [app]. by rewrite H.
Qed.

Lemma cleanAIResponse_discards_prose_witness :
  ("{"%char ∉ str "Sure, here it is: ") /\ ("}"%char ∉ str " Hope this helps!") /\
  Part001.cleanAIResponse
    (str "Sure, here it is: " ++ str "{" ++ quoted "'actions':[]" ++ str "}"
     ++ str " Hope this helps!")
  = Part001.cleanAIResponse (str "{" ++ quoted "'actions':[]" ++ str "}").
Proof.
  assert ("{"%char ∉ str "Sure, here it is: ") as H1
    by (apply (bool_decide_unpack _); vm_compute; exact I).
  assert ("}"%char ∉ str " Hope this helps!") as H2
    by (apply (bool_decide_unpack _); vm_compute; exact I).
  split; [exact H1|]. split; [exact H2|].
  apply (cleanAIResponse_discards_prose _ _ _ H1 H2).
Defined.

(** X2. [cleanAIResponse] never returns a text longer than the one it is
    given: the cuts shorten it and every replacement is at most as long as
    what it replaces. *)
Theorem cleanAIResponse_never_longer (response : gostr) :
  strings.len (Part001.cleanAIResponse response) <= strings.len response.
Proof.
  rewrite cleanAIResponse_stages. unfold strings.len.
  pose proof (rewritten_length (trimmed response)).
  pose proof (trimmed_length response). lia.
Qed.

(** X3. Whenever the response holds an opening brace, what
    [cleanAIResponse] returns begins with one. *)
Theorem cleanAIResponse_begins_with_brace (response : gostr) :
  strings.Contains response (str "{") = true ->
  strings.HasPrefix (Part001.cleanAIResponse response) (str "{") = true.
Proof.
  intros H. rewrite cleanAIResponse_stages.
  destruct (trimmed_head response H) as [t ->].
  rewrite rewritten_head. cbn. by rewrite bool_decide_eq_true_2.
Qed.

Lemma cleanAIResponse_begins_with_brace_witness :
  strings.HasPrefix
    (Part001.cleanAIResponse (str "Here: " ++ plain_document ++ str " Done."))
    (str "{") = true.
Proof.
  apply cleanAIResponse_begins_with_brace. vm_compute. reflexivity.
Defined.

(** X4. Where an opening brace is followed, anywhere later, by a closing
    brace, what [cleanAIResponse] returns begins with an opening brace and
    ends with a closing one: the cuts leave the text between the first
    opening and the last closing brace, and no replacement moves either
    end. *)
Theorem cleanAIResponse_delimited (pre rest : gostr) :
  "{"%char ∉ pre -> "}"%char ∈ rest ->
  exists t,
    Part001.cleanAIResponse (pre ++ str "{" ++ rest)
    = str "{" ++ t ++ str "}".
Proof.
  intros Hpre Hrest.
  destruct (last_occurrence _ _ Hrest) as (body & post & -> & Hpost).
  rewrite cleanAIResponse_stages.
  change (body ++ "}"%char :: post) with (body ++ str "}" ++ post).
  rewrite trimmed_delimited by done.
  change (str "{" ++ body ++ str "}") with ("{"%char :: body ++ ["}"%char]).
  rewrite rewritten_head. destruct (rewritten_last body) as [r ->].
  by exists r.
Qed.

Lemma cleanAIResponse_delimited_witness :
  exists t,
    Part001.cleanAIResponse
      (str "Here is the JSON: " ++ str "{" ++ quoted "'actions':[]} I hope it helps")
    = str "{" ++ t ++ str "}".
Proof.
  apply (cleanAIResponse_delimited (str "Here is the JSON: ")
           (quoted "'actions':[]} I hope it helps")).
  - apply (bool_decide_unpack _). vm_compute. exact I.
  - apply (bool_decide_unpack _). vm_compute. exact I.
Defined.

(** ** The applier *)

(** X5. Last write wins: when [applyEdits] returns without error on a
    batch whose last action creates or updates a path that the checks let
    through, the file at the target holds that action's content. *)
Theorem written_content_is_stored rev (xs : list Action) act w :
  passed_over rev act = false ->
  Type' act = str "create" \/ Type' act = str "update" ->
  (applyEdits_of rev {| Actions := xs ++ [act] |} w).2 = inr tt ->
  os.lstat (os.files (applyEdits_of rev {| Actions := xs ++ [act] |} w).1)
    (filepath.canon (fullPath_in rev act))
  = inr (os.File (Content act)).
Proof.
  intros Hpo Hty H.
  destruct (applyEdits_of rev _ w) as [w' r] eqn:E. cbn [fst snd] in *. subst r.
  apply applyEdits_of_snoc in E as [[e [=]]|[w1 E]].
  by eapply write_action_stored.
Qed.

Lemma written_content_is_stored_witness :
  os.lstat
    (os.files (applyEdits_of MainGoRev
                 {| Actions := [action "delete" "App.tsx" ""] ++
                               [action "create" "pages/Home.tsx" "home"] |}
                 project_world).1)
    (filepath.canon (fullPath_in MainGoRev (action "create" "pages/Home.tsx" "home")))
  = inr (os.File (Content (action "create" "pages/Home.tsx" "home"))).
Proof.
  apply (written_content_is_stored MainGoRev
           [action "delete" "App.tsx" ""] (action "create" "pages/Home.tsx" "home")
           project_world).
  - vm_compute. reflexivity.
  - left. reflexivity.
  - vm_compute. reflexivity.
Defined.

(** X6. When [applyEdits] returns without error on a batch whose last
    action deletes a path that the checks let through, nothing is left at
    the target: [lstat] reports that it does not exist. *)
Theorem deleted_target_is_gone rev (xs : list Action) act w :
  passed_over rev act = false ->
  Type' act = str "delete" ->
  (applyEdits_of rev {| Actions := xs ++ [act] |} w).2 = inr tt ->
  os.lstat (os.files (applyEdits_of rev {| Actions := xs ++ [act] |} w).1)
    (filepath.canon (fullPath_in rev act))
  = inl os.ENOENT.
Proof.
  intros Hpo Hty H.
  destruct (applyEdits_of rev _ w) as [w' r] eqn:E. cbn [fst snd] in *. subst r.
  apply applyEdits_of_snoc in E as [[e [=]]|[w1 E]].
  by eapply delete_action_absent.
Qed.

Lemma deleted_target_is_gone_witness :
  os.lstat
    (os.files (applyEdits_of MainGoRev
                 {| Actions := [action "update" "App.tsx" "new"] ++
                               [action "delete" "App.tsx" ""] |}
                 project_world).1)
    (filepath.canon (fullPath_in MainGoRev (action "delete" "App.tsx" "")))
  = inl os.ENOENT.
Proof.
  apply (deleted_target_is_gone MainGoRev
           [action "update" "App.tsx" "new"] (action "delete" "App.tsx" "")
           project_world).
  - vm_compute. reflexivity.
  - reflexivity.
  - vm_compute. reflexivity.
Defined.

(** X7. Applying one action a second time is harmless: if [applyEdits]
    returns without error on a batch of one action, it returns without
    error on the same batch again and leaves the tree as the first run
    left it. *)
Theorem single_action_is_idempotent rev act w :
  (applyEdits_of rev {| Actions := [act] |} w).2 = inr tt ->
  let w1 := (applyEdits_of rev {| Actions := [act] |} w).1 in
  (applyEdits_of rev {| Actions := [act] |} w1).2 = inr tt /\
  os.files (applyEdits_of rev {| Actions := [act] |} w1).1 = os.files w1.
Proof.
  intros H w1. subst w1. revert H.
  destruct (applyEdits_of_single rev act w) as [out0 ->].
  destruct (body_of rev act (with_output w out0)) as [w1 r] eqn:E.
  cbn [fst snd]. intros ->.
  destruct (applyEdits_of_single rev act w1) as [out1 ->].
  apply body_again in E as (w2 & H2 & Hf).
  destruct (body_outcome rev act w1) as [o1 E1].
  destruct (body_outcome rev act (with_output w1 out1)) as [o2 E2].
  cbn [with_output os.files os.calls] in E2.
  rewrite E1 in H2. injection H2 as <- Hr.
  rewrite E2. cbn [fst snd world_of os.files] in *. by rewrite Hr.
Qed.

Lemma single_action_is_idempotent_witness :
  let act := action "update" "App.tsx" "new" in
  let w1 := (applyEdits_of MainGoRev {| Actions := [act] |} project_world).1 in
  (applyEdits_of MainGoRev {| Actions := [act] |} w1).2 = inr tt /\
  os.files (applyEdits_of MainGoRev {| Actions := [act] |} w1).1 = os.files w1.
Proof.
  apply (single_action_is_idempotent MainGoRev (action "update" "App.tsx" "new")
           project_world).
  vm_compute. reflexivity.
Defined.

(** X8. Deleting undoes creating: where the target does not exist and
    its directory does, a batch that creates (or updates) a path and then
    deletes the same path returns without error and leaves the tree as it
    found it. *)
Theorem create_then_delete_restores rev c d w :
  Path d = Path c ->
  Type' c = str "create" \/ Type' c = str "update" ->
  Type' d = str "delete" ->
  is_protected rev c = false -> is_dangerous rev c = false ->
  os.lstat (os.files w) (os.parent (filepath.canon (fullPath_in rev c)))
  = inr os.Directory ->
  os.lstat (os.files w) (filepath.canon (fullPath_in rev c)) = inl os.ENOENT ->
  (applyEdits_of rev {| Actions := [c; d] |} w).2 = inr tt /\
  os.files (applyEdits_of rev {| Actions := [c; d] |} w).1 = os.files w.
Proof.
  intros Hpath Htc Htd Hp Hd Hpar Hl.
  destruct (applyEdits_of_loop rev {| Actions := [c; d] |} w) as [out0 ->].
  cbn [Actions]. rewrite for_range_cons.
  destruct (body_outcome rev c (with_output w out0)) as [o1 ->].
  cbn [with_output os.files os.calls].
  rewrite outcome_checked by done.
  rewrite perform_create_in_dir; [|done|apply (canon_Dir_fullPath rev c)|done|done].
  cbn [fst snd result_of]. rewrite for_range_cons.
  destruct (body_outcome rev d (world_of (<[filepath.canon (fullPath_in rev c) := os.File (Content c)]> (os.files w))
                                  (os.calls w ++ [os.CallMkdirAll (filepath.Dir (fullPath_in rev c));
                                                  os.CallWriteFile (fullPath_in rev c) (Content c)]) o1))
    as [o2 ->].
  cbn [world_of os.files os.calls].
  rewrite outcome_checked
    by (by rewrite ?(is_protected_same_path rev d c), ?(is_dangerous_same_path rev d c)).
  rewrite (fullPath_in_same_path rev d c) by done.
  destruct (lstat_ENOENT_lookup _ _ Hl Hpar) as [Hnone Himp].
  rewrite Htd, (perform_delete_file _ _ _ (Content c))
    by (by apply lstat_insert_self).
  cbn [fst snd result_of for_range]. unfold mret, go_ret, ret. cbn [fst snd world_of os.files].
  split; [done|]. by apply delete_insert_id.
Qed.

Lemma create_then_delete_restores_witness :
  let c := action "create" "components/Tmp.tsx" "x" in
  let d := action "delete" "components/Tmp.tsx" "" in
  (applyEdits_of MainGoRev {| Actions := [c; d] |} project_world).2 = inr tt /\
  os.files (applyEdits_of MainGoRev {| Actions := [c; d] |} project_world).1
  = os.files project_world.
Proof.
  apply (create_then_delete_restores MainGoRev
           (action "create" "components/Tmp.tsx" "x")
           (action "delete" "components/Tmp.tsx" "") project_world).
  - reflexivity.
  - left. reflexivity.
  - reflexivity.
  - vm_compute. reflexivity.
  - reflexivity.
  - vm_compute. reflexivity.
  - vm_compute. reflexivity.
Defined.

(** X9. The footprint of a batch: whatever entry of the tree differs
    after [applyEdits], whether it returned an error or not, is the target
    of one of the batch's actions that the checks let through, or one of
    the directories on the way to that target. *)
Theorem batch_footprint rev edits w k :
  os.files (applyEdits_of rev edits w).1 !! k <> os.files w !! k ->
  exists act, act ∈ Actions edits /\ passed_over rev act = false /\
              above k (filepath.canon (fullPath_in rev act)).
Proof.
  destruct (applyEdits_of_loop rev edits w) as [out0 ->].
  destruct (for_range (Actions edits) (body_of rev) (with_output w out0)) as [w' r] eqn:E.
  cbn [fst]. intros Hk.
  by apply (for_range_footprint rev (Actions edits) (with_output w out0) w' r E k).
Qed.

Lemma batch_footprint_witness :
  exists act,
    act ∈ Actions passed_over_batch ++ [action "update" "App.tsx" "new"] /\
    passed_over MainGoRev act = false /\
    above (filepath.canon (str "../frontend/src/App.tsx"))
      (filepath.canon (fullPath_in MainGoRev act)).
Proof.
  apply (batch_footprint MainGoRev
           {| Actions := Actions passed_over_batch ++ [action "update" "App.tsx" "new"] |}
           project_world (filepath.canon (str "../frontend/src/App.tsx"))).
  vm_compute. intros [=].
Defined.

(** X10. Part 001 asks the operating system only for paths inside the
    project: of the calls that [applyEdits] issues, on any batch and with
    any [normalizePath], every [WriteFile] and every [Remove] names a path
    at or below the root, and every [MkdirAll] names the directory of
    such a path: a directory at or below the root, or, when that path is
    the root itself, the directory the root lies in. *)
Theorem part001_calls_within_root np edits w :
  exists cs,
    os.calls (Part001.applyEdits np edits w).1 = os.calls w ++ cs /\
    Forall call_within cs.
Proof.
  destruct (applyEdits_of_loop (Part001Rev np) edits w) as [out0 E].
  cbn [applyEdits_of] in E. rewrite E.
  destruct (for_range (Actions edits) _ _) as [w' r] eqn:E'.
  by apply part001_loop_calls in E'.
Qed.

(** X11. Part 001 keeps every change inside the project: on any batch
    and with any [normalizePath], an entry of the tree outside the root is
    left by [applyEdits] as it was, whether an error is returned or not,
    unless it is one of the directories on the way to the root and did
    not exist: then, and only then, it has become a directory. *)
Theorem part001_changes_within_root np edits w k :
  ~ within_root k ->
  os.files (Part001.applyEdits np edits w).1 !! k = os.files w !! k \/
  (above k (false, root_elems) /\
   os.files w !! k = None /\
   os.files (Part001.applyEdits np edits w).1 !! k = Some os.Directory).
Proof.
  intros Hk.
  destruct (Part001.applyEdits np edits w) as [w' r] eqn:E. cbn [fst].
  destruct (part001_confined np edits w w' r E k Hk) as [?|(? & ? & ?)]; [by left|].
  by right.
Qed.

Lemma part001_changes_within_root_witness :
  let edits := {| Actions := [action "create" "../../etc/passwd" "x";
                              action "create" "src/pages/Home.tsx" "home"] |} in
  let k := filepath.canon (str "../frontend") in
  os.files (Part001.applyEdits normalizePath_spec edits empty_world).1 !! k
  = os.files empty_world !! k \/
  (above k (false, root_elems) /\
   os.files empty_world !! k = None /\
   os.files (Part001.applyEdits normalizePath_spec edits empty_world).1 !! k
   = Some os.Directory).
Proof.
  apply (part001_changes_within_root normalizePath_spec
           {| Actions := [action "create" "../../etc/passwd" "x";
                          action "create" "src/pages/Home.tsx" "home"] |}
           empty_world (filepath.canon (str "../frontend"))).
  intros [_ [l Hl]]. vm_compute in Hl. discriminate Hl.
Defined.

(** X12. [main.go]'s applier leaves the project root through [..] only:
    on a batch none of whose paths contains [..], whatever entry of the
    tree differs after [applyEdits] lies at or below the root, or is one
    of the directories on the way to the root.  A leading separator does
    not lead outside. *)
Theorem main_go_confined_without_dotdot edits w k :
  Forall (fun act => strings.Contains (Path act) filepath.dotdot = false)
    (Actions edits) ->
  os.files (MainGo.applyEdits edits w).1 !! k <> os.files w !! k ->
  within_root k \/ above k (false, root_elems).
Proof.
  intros Hall Hk.
  destruct (applyEdits_of_loop MainGoRev edits w) as [out0 E].
  cbn [applyEdits_of] in E. rewrite E in Hk.
  destruct (for_range (Actions edits) (body_of MainGoRev) (with_output w out0))
    as [w' r] eqn:E'.
  cbn [fst] in Hk.
  destruct (for_range_footprint MainGoRev _ _ _ _ E' k Hk) as (act & Hin & _ & Ha).
  rewrite Forall_forall in Hall. apply Hall in Hin.
  by apply (above_root_or_within k _ (main_go_target_within act Hin)).
Qed.

Lemma main_go_confined_without_dotdot_witness :
  within_root (filepath.canon (str "../frontend/src/etc/passwd")) \/
  above (filepath.canon (str "../frontend/src/etc/passwd")) (false, root_elems).
Proof.
  apply (main_go_confined_without_dotdot
           {| Actions := [action "create" "/etc/passwd" "x"] |} project_world).
  - repeat constructor.
  - vm_compute. intros [=].
Defined.

(** X13. Part 001's applier is [main.go]'s applier behind two more
    steps: on an action that the check for [..] and a leading separator
    lets through, one turn of part 001's loop makes the same calls, leaves
    the same tree and returns the same error as [main.go]'s loop does on
    the action whose path is normalized and stripped of a leading
    [src/]. *)
Theorem part001_refines_main_go np act w :
  is_dangerous (Part001Rev np) act = false ->
  exists fs cs res out1 out2,
    Part001.applyEdits_body np act w = (world_of fs cs out1, res) /\
    MainGo.applyEdits_body (stripped np act) w = (world_of fs cs out2, res).
Proof.
  intros Hd.
  destruct (body_outcome (Part001Rev np) act w) as [out1 E1].
  destruct (body_outcome MainGoRev (stripped np act) w) as [out2 E2].
  cbn [body_of] in E1, E2.
  assert (outcome MainGoRev (stripped np act) (os.files w)
          = outcome (Part001Rev np) act (os.files w)) as Ho.
  { unfold outcome. rewrite Hd.
    assert (is_protected MainGoRev (stripped np act) = is_protected (Part001Rev np) act) as ->.
    { unfold is_protected. cbn [checked_path stripped Path relative_path].
      apply TrimPrefix_src_marker. }
    cbn [is_dangerous orb]. rewrite !orb_false_r.
    destruct (is_protected (Part001Rev np) act); [done|]. done. }
  rewrite Ho in E2. do 5 eexists. split; [exact E1|exact E2].
Qed.

Lemma part001_refines_main_go_witness :
  exists fs cs res out1 out2,
    Part001.applyEdits_body normalizePath_spec (action "update" "src/App.tsx" "new")
      project_world = (world_of fs cs out1, res) /\
    MainGo.applyEdits_body
      (stripped normalizePath_spec (action "update" "src/App.tsx" "new"))
      project_world = (world_of fs cs out2, res).
Proof.
  apply (part001_refines_main_go normalizePath_spec
           (action "update" "src/App.tsx" "new") project_world).
  vm_compute. reflexivity.
Defined.

(** X14. The prototype resolves paths against the folder above the
    root: on a path that starts with [src/], as its prompt asks for, one
    turn of its loop makes the same calls, leaves the same tree and
    returns the same error as [main.go]'s loop does on the path without
    that prefix, unless [main.go] protects the path. *)
Theorem prototype_src_is_main_go_root act w :
  strings.Contains (Path act) marker = false ->
  exists fs cs res out1 out2,
    MainGoPrototype.applyEdits_body (under_src act) w = (world_of fs cs out1, res) /\
    MainGo.applyEdits_body act w = (world_of fs cs out2, res).
Proof.
  intros Hp.
  destruct (prototype_body_perform (under_src act) w) as [out1 E1].
  destruct (body_outcome MainGoRev act w) as [out2 E2].
  cbn [body_of] in E2. cbv zeta in E1.
  cbn [under_src Type' Path Content] in E1. rewrite prototype_src_target in E1.
  unfold outcome in E2. unfold is_protected in E2. cbn [checked_path is_dangerous] in E2.
  rewrite Hp in E2. cbn [orb] in E2.
  do 5 eexists. split; [exact E1|exact E2].
Qed.

Lemma prototype_src_is_main_go_root_witness :
  exists fs cs res out1 out2,
    MainGoPrototype.applyEdits_body (under_src (action "update" "App.tsx" "new"))
      project_world = (world_of fs cs out1, res) /\
    MainGo.applyEdits_body (action "update" "App.tsx" "new") project_world
    = (world_of fs cs out2, res).
Proof.
  apply (prototype_src_is_main_go_root (action "update" "App.tsx" "new") project_world).
  vm_compute. reflexivity.
Defined.


(** ** The project context *)

(** X16. Where the project root is a directory, [gatherContextJSON]
    collects exactly the regular files below it whose walked path ends in
    one of the six source suffixes, each under its path relative to the
    root and with its content; reading them cannot fail. *)
Theorem gatherFiles_collects_sources fs :
  os.lstat fs (filepath.canon projectRoot) = inr os.Directory ->
  exists files,
    Context.gatherFiles fs = inr files /\
    forall f, f ∈ files <->
      exists rest c,
        rest <> [] /\ forallb walkdir.is_name rest = true /\
        os.lstat fs (false, root_elems ++ rest) = inr (os.File c) /\
        Context.is_source (walked_path rest) = true /\
        f = {| Context.Path := strings.Join rest [filepath.Separator];
               Context.Content := c |}.
Proof.
  intros Hroot. eexists. split; [by apply gatherFiles_Directory|].
  intros f. apply gathered_iff.
Qed.

Lemma gatherFiles_collects_sources_witness :
  exists files,
    Context.gatherFiles (os.files project_world) = inr files /\
    forall f, f ∈ files <->
      exists rest c,
        rest <> [] /\ forallb walkdir.is_name rest = true /\
        os.lstat (os.files project_world) (false, root_elems ++ rest) = inr (os.File c) /\
        Context.is_source (walked_path rest) = true /\
        f = {| Context.Path := strings.Join rest [filepath.Separator];
               Context.Content := c |}.
Proof.
  apply (gatherFiles_collects_sources (os.files project_world)).
  vm_compute. reflexivity.
Defined.

(** X17. What was gathered can be written back: an update of
    [main.go]'s [applyEdits] that carries the path and the content of a
    gathered file, and is not stopped by the check for [SidePanel],
    returns without error and leaves the tree as it is.  The relative path
    that the context shows for a file is the path that leads an action
    back to it. *)
Theorem gathered_file_written_back w files f :
  Context.gatherFiles (os.files w) = inr files -> f ∈ files ->
  strings.Contains (Context.Path f) marker = false ->
  (MainGo.applyEdits {| Actions := [write_back f] |} w).2 = inr tt /\
  os.files (MainGo.applyEdits {| Actions := [write_back f] |} w).1 = os.files w.
Proof.
  intros Hg Hf Hm.
  destruct (gathered_inv _ _ _ Hg Hf) as (rest & c & Hne & Hnames & Hl & _ & ->).
  cbn [Context.Path] in Hm. unfold write_back. cbn [Context.Path Context.Content].
  destruct (applyEdits_of_single MainGoRev
              {| Type' := str "update"; Path := strings.Join rest [filepath.Separator];
                 Content := c |} w) as [out0 E].
  cbn [applyEdits_of] in E. rewrite E.
  destruct (body_outcome MainGoRev
              {| Type' := str "update"; Path := strings.Join rest [filepath.Separator];
                 Content := c |} (with_output w out0)) as [out1 ->].
  cbn [with_output os.files os.calls].
  rewrite outcome_checked by done.
  cbn [Type' Content]. unfold fullPath_in. cbn [relative_path Path].
  rewrite (perform_overwrite _ _ _ _ c).
  - cbn [fst snd result_of world_of os.files]. split; [done|].
    rewrite target_of_gathered by done. apply insert_id. by apply lstat_File.
  - by right.
  - apply canon_Dir_Join_root.
  - by rewrite target_of_gathered.
Qed.

Lemma gathered_file_written_back_witness :
  let f := {| Context.Path := str "App.tsx"; Context.Content := str "old" |} in
  (MainGo.applyEdits {| Actions := [write_back f] |} project_world).2 = inr tt /\
  os.files (MainGo.applyEdits {| Actions := [write_back f] |} project_world).1
  = os.files project_world.
Proof.
  apply (gathered_file_written_back project_world
           [{| Context.Path := str "App.tsx"; Context.Content := str "old" |};
            {| Context.Path := str "components/SidePanel.tsx";
               Context.Content := str "export default function SidePanel" |}]).
  - vm_compute. reflexivity.
  - left.
  - vm_compute. reflexivity.
Defined.

(** X18. Without a project folder nothing is asked of the provider:
    when [lstat] of the root fails, [gatherContextJSON] returns that error
    and [handleEdit], in each of the three revisions, answers a POST with
    status 500 and that error, leaving the tree, the trace of calls and
    the log as they were. *)
Theorem missing_root_is_answered_500 marshal np json_Unmarshal r w e :
  gathers marshal r w ->
  os.lstat (os.files w) (filepath.canon projectRoot) = inl e ->
  let answer :=
    HttpError
      (ErrorText (PathErr {| os.Op := str "lstat"; os.ErrPath := projectRoot;
                             os.Err := e |}))
      StatusInternalServerError in
  Part001.handleEdit np json_Unmarshal r w = (w, answer) /\
  MainGo.handleEdit json_Unmarshal r w = (w, answer) /\
  MainGoPrototype.handleEdit json_Unmarshal r w = (w, answer).
Proof.
  intros (Hm & [req Hb] & Hc) Hroot answer. subst answer.
  unfold Context.gatherContextJSON in Hc.
  rewrite (gatherFiles_missing _ _ Hroot) in Hc.
  unfold Part001.handleEdit, MainGo.handleEdit, MainGoPrototype.handleEdit.
  rewrite Hm, Hb, Hc. done.
Qed.

Lemma missing_root_is_answered_500_witness :
  let answer :=
    HttpError
      (ErrorText (PathErr {| os.Op := str "lstat"; os.ErrPath := projectRoot;
                             os.Err := os.ENOENT |}))
      StatusInternalServerError in
  let r := exchange_on empty_world "ollama" plain_document in
  let dec := decoder_for plain_document {| Actions := [action "update" "src/App.tsx" "X"] |} in
  Part001.handleEdit normalizePath_spec dec r empty_world = (empty_world, answer) /\
  MainGo.handleEdit dec r empty_world = (empty_world, answer) /\
  MainGoPrototype.handleEdit dec r empty_world = (empty_world, answer).
Proof.
  apply (missing_root_is_answered_500 (marshal_as "[]") normalizePath_spec
           (decoder_for plain_document {| Actions := [action "update" "src/App.tsx" "X"] |})
           (exchange_on empty_world "ollama" plain_document) empty_world os.ENOENT).
  - split; [reflexivity|]. split; [by eexists|reflexivity].
  - vm_compute. reflexivity.
Defined.

(** ** The provider calls *)

(** X19. The two-provider backend touches the project only after a
    usable reply: if [handleEdit] of part 001 or of [main.go] leaves the
    world other than it found it, then the request named one of the two
    providers and that provider answered with status 200 and a body that
    decodes, for OpenRouter with the API key set and at least one
    choice. *)
Theorem no_edit_without_reply dec_choices dec_response np json_Unmarshal r req e w :
  asks dec_choices dec_response r req e ->
  (Part001.handleEdit np json_Unmarshal r w).1 <> w \/
  (MainGo.handleEdit json_Unmarshal r w).1 <> w ->
  exists body content,
    remote.answer e = remote.Reply remote.StatusOK body /\
    ((Provider req = str "openrouter" /\ remote.OPENROUTER_API_KEY e <> [] /\
      exists rest, dec_choices body = Some (content :: rest)) \/
     (Provider req = str "ollama" /\ dec_response body = Some content)).
Proof.
  intros [Hb Hc] Hw.
  assert (exists req' content,
            Body r = inr req' /\
            (Provider req' = str "openrouter" \/ Provider req' = str "ollama") /\
            completion r = inr content) as (req' & content & Hb' & Hp & Hcontent).
  { destruct Hw as [Hw|Hw].
    - by apply part001_handleEdit_changed in Hw.
    - by apply main_go_handleEdit_changed in Hw. }
  rewrite Hb in Hb'. injection Hb' as <-.
  rewrite Hcontent in Hc. symmetry in Hc.
  apply content_for_inr in Hc as (body & Ha & [Hcase|[Hne Hd]]).
  - exists body, content. split; [done|]. by left.
  - exists body, content. split; [done|]. right. split; [|done].
    by destruct Hp.
Qed.

Lemma no_edit_without_reply_witness :
  let body := quoted "{'choices':[{'message':{'content':'...'}}]}" in
  let r := {| Method := str "POST";
              Body := inr {| Instructions := str "add a counter";
                             Provider := str "openrouter";
                             Model := str "openai/gpt-4o" |};
              contextJSON := inr (str "[]");
              completion := inr plain_document |} in
  exists body' content,
    remote.answer (answered body) = remote.Reply remote.StatusOK body' /\
    ((str "openrouter" = str "openrouter" /\
      remote.OPENROUTER_API_KEY (answered body) <> [] /\
      exists rest, choices_for body [plain_document] body' = Some (content :: rest)) \/
     (str "openrouter" = str "ollama" /\ no_response body' = Some content)).
Proof.
  cbv zeta.
  apply (no_edit_without_reply
           (choices_for (quoted "{'choices':[{'message':{'content':'...'}}]}") [plain_document])
           no_response (fun p => p)
           (decoder_for plain_document {| Actions := [action "update" "App.tsx" "X"] |})
           {| Method := str "POST";
              Body := inr {| Instructions := str "add a counter";
                             Provider := str "openrouter";
                             Model := str "openai/gpt-4o" |};
              contextJSON := inr (str "[]");
              completion := inr plain_document |}
           {| Instructions := str "add a counter";
              Provider := str "openrouter";
              Model := str "openai/gpt-4o" |}
           (answered (quoted "{'choices':[{'message':{'content':'...'}}]}"))
           empty_world).
  - split; [reflexivity|]. vm_compute. reflexivity.
  - right. intros H. apply (f_equal os.calls) in H. vm_compute in H. discriminate H.
Defined.

(** X20. The prototype's [callOllama] panics on a reply without a
    message object: with the request encoded and the API key set, it
    panics exactly when the reply decodes to an object whose [choices] is
    an array with an object first whose [message] is missing or is not an
    object, whatever the status code; every other reply is returned as
    content or as an error. *)
Theorem prototype_callOllama_panics_iff json_Unmarshal_any json_Unmarshal prompt e w :
  (PrototypeProvider.callOllama json_Unmarshal_any json_Unmarshal prompt e w).2
  = PrototypeProvider.Panics <->
  exists ollamaResp message,
    decoded_reply json_Unmarshal_any e ollamaResp /\
    first_choice ollamaResp message /\
    forall m, message !! str "message" <> Some (PrototypeProvider.AMap m).
Proof.
  unfold PrototypeProvider.callOllama.
  destruct (PrototypeProvider.ollamaContent json_Unmarshal_any prompt e w)
    as [w1 c] eqn:E.
  assert (c = (PrototypeProvider.ollamaContent json_Unmarshal_any prompt e w).2) as Hc
    by (by rewrite E).
  split.
  - destruct c as [x|]; [done|]. intros _.
    destruct (decoded_reply_cases json_Unmarshal_any e) as [[resp Hd]|Hno].
    + rewrite (ollamaContent_decoded _ _ _ _ _ Hd) in Hc. symmetry in Hc.
      apply content_of_panics in Hc as (message & ? & ?). by exists resp, message.
    + destruct (ollamaContent_undecoded _ prompt _ w Hno) as [err He].
      by rewrite He in Hc.
  - intros (resp & message & Hd & Hf & Hno).
    rewrite (ollamaContent_decoded _ _ _ _ _ Hd) in Hc.
    assert (PrototypeProvider.content_of resp = PrototypeProvider.Panics) as Hp
      by (apply content_of_panics; by exists message).
    rewrite Hp in Hc. by subst c.
Qed.

(** X21. The prototype's [callOllama] takes the content from
    [choices[0].message.content] and from nowhere else: with the request
    encoded and the API key set it arrives at a content exactly when the
    reply decodes to an object whose [choices] is an array with an object
    first, whose [message] is an object, whose [content] is a string, and
    that string is the content.  The status code of the reply plays no
    part. *)
Theorem prototype_content_iff json_Unmarshal_any prompt e w content :
  (PrototypeProvider.ollamaContent json_Unmarshal_any prompt e w).2
  = PrototypeProvider.Returns (inr content) <->
  exists ollamaResp message m,
    decoded_reply json_Unmarshal_any e ollamaResp /\
    first_choice ollamaResp message /\
    message !! str "message" = Some (PrototypeProvider.AMap m) /\
    m !! str "content" = Some (PrototypeProvider.AString content).
Proof.
  split.
  - intros H.
    destruct (decoded_reply_cases json_Unmarshal_any e) as [[resp Hd]|Hno].
    + rewrite (ollamaContent_decoded _ _ _ _ _ Hd) in H.
      apply content_of_returns in H as (message & m & ? & ? & ?).
      by exists resp, message, m.
    + destruct (ollamaContent_undecoded _ prompt _ w Hno) as [err He].
      by rewrite He in H.
  - intros (resp & message & m & Hd & Hf & Hm & Hc).
    rewrite (ollamaContent_decoded _ _ _ _ _ Hd).
    apply content_of_returns. by exists message, m.
Qed.

(** X22. The prototype answers success only after applying between one
    and a hundred actions: if its [handleEdit] answers with the success
    object, the provider's content decoded to a batch that is not empty,
    and [applyEdits] ran, without error and on the tree as the request
    found it, on the first hundred actions of that batch. *)
Theorem prototype_success_applies_first_hundred json_Unmarshal r w w' status applied :
  MainGoPrototype.handleEdit json_Unmarshal r w = (w', HttpJSON status applied) ->
  exists content decoded w1,
    completion r = inr content /\
    json_Unmarshal content = Some decoded /\
    (1 <= length (take 100 (Actions decoded)) <= 100)%nat /\
    os.files w1 = os.files w /\ os.calls w1 = os.calls w /\
    MainGoPrototype.applyEdits {| Actions := take 100 (Actions decoded) |} w1
    = (w', inr tt).
Proof.
  unfold MainGoPrototype.handleEdit.
  destruct (negb (streq (Method r) "POST")); [done|].
  destruct (Body r) as [|req]; [done|]. destruct (contextJSON r); [done|].
  destruct (MainGoPrototype.callOllama json_Unmarshal (completion r) w)
    as [w1 [err|edits]] eqn:E; [done|].
  apply callOllama_inv in E as (content & decoded & Hc & Hd & Hne & -> & Hf & Hcs).
  destruct (MainGoPrototype.applyEdits (capped decoded) w1) as [w2 [err|[]]] eqn:Ea; [done|].
  intros [= <- _ _]. exists content, decoded, w1.
  split; [done|]. split; [done|]. split.
  { rewrite length_take. destruct (Actions decoded); [done|]. cbn [length]. lia. }
  split; [done|]. split; [done|].
  rewrite <- Ea. f_equal. destruct (capped decoded) as [acts] eqn:Ec.
  f_equal. rewrite <- capped_actions. by rewrite Ec.
Qed.

Lemma prototype_success_applies_first_hundred_witness :
  let dec := decoder_for plain_document {| Actions := [action "update" "src/App.tsx" "X"] |} in
  let r := exchange_with "ollama" plain_document in
  exists content decoded w1,
    completion r = inr content /\
    dec content = Some decoded /\
    (1 <= length (take 100 (Actions decoded)) <= 100)%nat /\
    os.files w1 = os.files project_world /\ os.calls w1 = os.calls project_world /\
    MainGoPrototype.applyEdits {| Actions := take 100 (Actions decoded) |} w1
    = ((MainGoPrototype.handleEdit dec r project_world).1, inr tt).
Proof.
  cbv zeta.
  apply (prototype_success_applies_first_hundred
           (decoder_for plain_document {| Actions := [action "update" "src/App.tsx" "X"] |})
           (exchange_with "ollama" plain_document) project_world
           (MainGoPrototype.handleEdit
              (decoder_for plain_document {| Actions := [action "update" "src/App.tsx" "X"] |})
              (exchange_with "ollama" plain_document) project_world).1
           "success" None).
  assert ((MainGoPrototype.handleEdit
             (decoder_for plain_document {| Actions := [action "update" "src/App.tsx" "X"] |})
             (exchange_with "ollama" plain_document) project_world).2
          = HttpJSON "success" None) as H by (vm_compute; reflexivity).
  destruct (MainGoPrototype.handleEdit _ _ _) as [w' resp]. cbn [fst snd] in *.
  by rewrite H.
Defined.
